(* ===== verification/_CoqProject ===== *)
-Q . S2P
Prelude.v
Engine.v
Stream.v
Iterator.v
Threads.v
Dyn.v
Store.v
Width.v
Generator.v
Frame.v
GenTree.v
Equiv.v
Period.v
FullPeriod.v
LowBits.v
Loop.v
Doctest.v
