(* ===== verification/Prelude.v ===== *)
(** * Verification of [aleatorios.py]: a linear congruential generator

    The program (src/aleatorios.py, one module) is a pseudo-random number
    generator built on the recurrence [x := (a * x + c) % m].  It offers the
    same sequence through two interfaces:

    - class [Aleat] (lines 13-60): an object with attributes [m], [a], [c],
      [x]; [__next__] advances [x] and returns it, [__call__] overwrites [x]
      with a new seed, [__iter__] returns the object itself;
    - generator function [aleat] (lines 63-101): a coroutine that yields the
      next value on every resumption and takes a new seed through [send].

    ** Files, in dependency order

    - [Prelude] (this file): the Python values the program needs.  Integers
      are [Z] (Python integers are unbounded, so nothing wraps).  Exceptions
      are the type [exn]; an evaluation that may raise returns [result].
      Stateful code is written in the monad [py St A := St -> result A * St],
      which keeps the state reached when an exception is raised, as Python
      does.  [for_range] is the loop [for _ in range(n): print(op())].
      Notations live in [py_scope]; the hint database [py] and the tactics
      [py_unfold], [py_simpl] and [Zmod_solve] automate the routine steps.
    - [Engine]: the arithmetic of line 56 and line 99.  [py_mod] is Python's
      [%] on integers (floor remainder, [ZeroDivisionError] on a zero
      divisor), [lcg] the expression [(a * x + c) % m], [lcg_step] the
      recurrence of the specification (total, as a reference), [lcg_nth] its
      iterates, [geom] the geometric sum of the closed form.  [kwargs] and the
      [default_*] constants are the keyword-only parameters of lines 46
      and 63.
    - [Stream]: the contract both interfaces promise (spec sections 4 and 6)
      as an abstract machine [spec_exec] over the state (m, a, c, x) with
      the commands [Pull] and [Inject], and the class [LcgHandle] that an
      implementation instantiates.  Client theorems (range of every output,
      outputs equal to the iterates of the recurrence) are proved once
      against the class.
    - [Iterator]: module [Aleat], the class.  [Aleat.t] is the record of the
      four attributes; [__init__], [__iter__], [__next__], [__call__] are
      the methods, in the monad over [Aleat.t].
    - [Threads]: calls of [__next__] on one object that interleave.  A
      call goes through three accesses of [self.x], the read and the write
      of line 56 and the read of line 57 ([Threads.access]);
      [Threads.run] runs the calls under a schedule, the list of the
      threads that take a step.
    - [Dyn]: the class over the Python values [int], [bool] and [None].
      [Dyn.py_mul], [Dyn.py_add] and [Dyn.py_rem] are the operators of line
      56 with their type checks; [Dyn.well_typed] is the typing that the
      documentation gives the attributes, a predicate of this development;
      [Dyn.erase] maps an object with integer attributes to the object of
      [Iterator].
    - [Store]: [Aleat] objects by reference.  The heap is a finite map from
      references to attribute records.  The methods [Store.__iter__],
      [Store.__next__] and [Store.__call__] take the reference [self] and
      are written from attribute reads and writes on the heap
      ([Store.getattr], [Store.setattr_x]), so that a method could read or
      write any object: that it touches its own only is a lemma
      ([Store.local]), proved from the bodies.  [Store.new] is the
      constructor call, which allocates a fresh reference; [Store.iter],
      [Store.next] and [Store.reseed] are the calls [iter(rand)],
      [next(rand)] and [rand(x0)], and [iter] returns what [__iter__]
      returns.  [Store.session] is a caller that runs commands on several
      objects in any order.
    - [Width]: the note of the specification on fixed-width integers.
      [lcg_step_w] is the step with product and sum wrapped to [w] bits,
      [lcg_step_mask] the step with the remainder by [2^k] as a mask.
    - [Generator]: the generator object.  Its state [gstate] is the frame of
      [aleat] at the only points where a caller can observe it: created and
      not started ([GCreated], line 97 not yet run), suspended at the
      [yield] of line 99 ([GSuspended]), finished ([GClosed]).  [send] is one
      resumption: the body from the resumption point to the next [yield].
      [next] is [send None].
    - [Frame]: the body of [aleat] (lines 97-101) one statement at a time.
      A [Frame.frame] holds the line about to run, the parameters and the
      locals [x] and [new_seed], unbound until assigned; [Frame.step] runs
      one statement and [Frame.send] resumes the frame and runs it to the
      next [yield].  [Frame.abs] maps a frame at rest to the state of
      [Generator] it stands for.
    - [GenTree]: the body of [aleat] as one interaction tree,
      [Tree.loop = ITree.iter Tree.body], over the events [Yield] and
      [Throw]; [Tree.send] is the generator protocol that drives the tree to
      its next event; [Tree.always_in_range] is a coinductive predicate
      (Paco) on the infinite tree.
    - [Equiv]: the two interfaces against each other and against [Stream]:
      simulation relations, trace equality under plain pulls, and the
      asymmetry between [__call__] (no step) and [send] (one step).
    - [Period]: the sequence is eventually periodic with period at most
      [m]; it is purely periodic when [gcd a m = 1].  [first_repeat] is the
      periodicity test of the specification (section 8): enumerate the
      values until one repeats; [cycle_length] is the length it reports.
    - [FullPeriod]: for a modulus [2^k] with [a mod 4 = 1] and [c] odd
      ([full_period_params]) the period is exactly [m], which covers the
      default parameters [m = 2^48], [a = 25214903917], [c = 11].
    - [LowBits]: the [j] low bits of the values, [low_bits], which are the
      sequence of the recurrence modulo [2^j].
    - [Loop]: the statement [for v in rand: if p(v): break] on the heap of
      [Store], as the client of [__iter__] and [__next__]: [Loop.for_in].
    - [Doctest]: the two docstring sessions (lines 27-43 and 78-95) as
      they stand in the source, [examples_Aleat] and [examples_aleat]:
      lists of examples, a statement [stmt] with the lines it must print.
      What runs them is not code of the program and is modelled from the
      documentation of the interpreter and of [doctest]: [exec] runs a
      statement on the globals of the session, [repr_int] is the decimal
      form [print] writes, [testmod] is the runner that line 106 calls
      and [main] the call.  [session_Aleat] and [session_aleat] are the
      two sessions with parameters, loop lengths and seed left open.

    ** What is translated from the source and what is not

    The executable code of the module is 21 lines: the methods of the
    class (46-60), the signature and body of [aleat] (63, 97-101) and the
    call of [doctest] (104-106).  [Engine], [Iterator], [Generator],
    [Frame], [GenTree], the methods of [Store] and [Dyn], and
    [Threads.access] are translations of these lines.  The two sessions of
    [Doctest] are translations of the docstring lines that [doctest]
    executes.  Everything else is written from the specification or from
    the rules of the interpreter, not from a line: the abstract machine of [Stream], the periodicity test, the
    fixed-width step, the schedules of [Threads], the loops and sessions of
    callers ([for_range], [Store.pulls], [Store.session], [Loop.for_in]),
    the runner of [Doctest], and in [Generator] the three rules of the
    generator protocol that no line of the body decides ([TypeError] for a
    seed sent before the start, closing on an exception, [StopIteration]
    from a closed generator).

    ** What the theorems show

    - Engine: [lcg] returns a value in [[0, m)] for [m > 0], in [(m, 0]] for
      [m < 0], and raises for [m = 0]; it depends on the seed only modulo
      [m]; [n] steps have the closed form [a^n x + c (1 + a + ... + a^(n-1))]
      modulo [m].
    - Iterator and Generator: the behaviour of every operation on every
      branch, errors included; the invariants [m], [a], [c] never change and
      the current value is in range after every successful step; a generator
      never closes unless [m = 0], and stays closed afterwards.
    - Threads: a call run alone is [__next__] and calls run in turn are
      the loop of [next]; under every schedule [m], [a], [c] are kept and
      a call returns one of the first [n] values of the sequence, [n] the
      number of calls; a call ends once its thread has run three times;
      but calls that interleave can return one value twice and lose a
      step or a value of the sequence.
    - Dyn: attributes that are integers stay integers and [__next__] then
      never raises [TypeError] and returns an [int]; on such objects the
      class is the class of [Iterator]; a seed [None] is stored and makes
      every later [__next__] raise [TypeError].
    - Store: each method on a reference does on its object what the method
      of [Iterator] does on the record ([Store.next_refines],
      [Store.reseed_refines]) and nothing to any other object
      ([Store.local_next], [Store.local_reseed]); [iter(rand)] is an alias
      of [rand]; in a session on several objects each object ends in the
      state, and returns the values, of its own commands; two objects made
      with the same arguments are distinct and give the same values.
    - Width: with the default parameters [a * x + c] stays below [2^83];
      the step in 64-bit unsigned integers returns the values of the
      program, because [2^48] divides [2^64].
    - Frame: the statement-level body implements [Gen.send] on every
      session of sends; a resumption always ends; no statement reads an
      unbound local, and the only exception of the body is the
      [ZeroDivisionError] of line 99.
    - GenTree: the generator protocol over the tree gives the results and
      states of [Gen.send] in every session; for a positive modulus the tree
      is productive and in range for ever, whatever the consumer sends.
    - Equiv: both implement [Stream.spec_exec]; [n] plain pulls give the
      same list on both; every value of a session is in [[0, m)] for a
      positive modulus; consecutive values obey the recurrence.
    - Period: the printed lines are periodic after a pre-period, with
      pre-period plus period at most [m]; the enumeration test ends and what
      it returns is right about the lines that [next] prints.
    - FullPeriod: two printed lines are equal exactly when their positions
      differ by a multiple of [m]; with the default parameters the first
      [2^48] values from any seed are pairwise distinct.
    - LowBits: under the same parameters two values agree on their [j]
      low bits exactly when their positions differ by a multiple of [2^j];
      with the default parameters the values are alternately even and odd.
    - Loop: a loop over an [Aleat] object ends only by [break], because
      [__next__] never raises [StopIteration]; with the parameters of a full
      period the search for any value of [[0, m)] ends within [m] turns.
    - Doctest: the two sessions pass for every choice of parameters with a
      non-zero modulus, of loop lengths and of seed, when the expected
      lines are the values of the recurrence; the sessions of the source
      are two instances, so the run of [doctest.testmod] attempts eight
      examples and none fails ([testmod_passes]).

    ** Bounds and fuel

    In [Iterator] and [Generator] nothing needs fuel: each operation is one
    arithmetic step, and the infinite loop of [aleat] is observed one
    resumption at a time.  Loops over [n] pulls recurse on [n]; sessions
    and runs under a schedule recurse on the list of commands and on the
    schedule.  Four functions take fuel.  [Tree.peel] runs the silent
    steps of the tree up to its next event; [Tree.fuel_bound = 2] is
    enough because [iter]
    inserts one silent step between two turns ([Tree.peel_at_loop]).
    [Loop.turns] takes the number of turns as fuel, since the loop has no
    bound of its own: [None] means that it is still running, which
    [Loop.turns_cases] tells apart from an end of the loop, and
    [Loop.turns_search] gives the fuel [m] that is enough for a search
    under a full period.  [Frame.run] runs statements up to the next
    [yield]; [Frame.fuel_bound = 5] is the longest path between two yields
    (lines 99, 100, 101, 98, 99), and [Frame.run_total] shows that it is
    enough from any line, by the measure [Frame.dist].  The enumeration
    test [first_repeat] always returns with [m + 1] values of fuel
    ([Period.first_repeat_total]), because [m + 1] values in [[0, m)]
    cannot be distinct.

    ** Not modelled

    - Arguments of other types than [int], [bool] and [None] ([float],
      [str], user classes with operators of their own): [Dyn] stops at the
      three; everywhere else [m], [a], [c], [x0] are taken to be [int], as
      the docstrings say.  Memory exhaustion.  Positional arguments (the
      signatures are keyword-only, a call with positional arguments raises
      [TypeError] before any line of the body runs).
    - Generator objects by reference: two names bound to one generator
      are not modelled ([Store] does it for the class only, where line 53
      returns the object itself; the program binds no generator to a
      second name, and [iter] of a generator is the interpreter's).
    - Threads of the interpreter: their creation and the points where
      the interpreter switches between them.  The source starts no
      thread.  [Threads] takes the accesses of [self.x] as the steps that
      can interleave and interleaves calls of [__next__] only; among such
      calls this loses no outcome, since [__next__] writes no other
      attribute.  A call [rand(x0)] that interleaves with them is not
      modelled.
    - [close] and [throw] on a generator: the body of [aleat] has no
      handler, so both only close the generator.  Values sent to a
      generator other than integers and [None].
    - Of [doctest.testmod] (lines 104-106): the library itself is not
      under src.  How it finds the examples in the text of a docstring,
      the report it prints, its option flags and expected output that is a
      traceback are not modelled; the examples are given as statements of
      the five forms the sessions use.
    - The prose of the docstrings (lines 1-26 and 64-77).  What it
      promises of the code, the range [[0, m)] of line 74, is checked as a
      property of the code. *)

From Stdlib Require Import ZArith Lia List.
From stdpp Require Import prelude.

#[local] Open Scope Z_scope.

(** ** Exceptions and results *)

(** The built-in exceptions of the program and of the runtime around it:
    [%] raises [ZeroDivisionError]; a generator raises [TypeError] for a
    value sent before it has started, [StopIteration] once it is finished
    and [ValueError] when resumed while it runs; reading a local before its
    assignment raises [UnboundLocalError]; in a docstring session, a name
    that is not bound raises [NameError] and a method the object does not
    have raises [AttributeError]. *)
Inductive exn : Set :=
| ZeroDivisionError
| TypeError
| StopIteration
| UnboundLocalError
| ValueError
| NameError
| AttributeError.

(** The outcome of evaluating an expression: a value or a raised exception. *)
Inductive result (A : Type) : Type :=
| Ok (v : A)
| Raise (e : exn).

Arguments Ok {A} v.
Arguments Raise {A} e.

#[export] Instance exn_eq_dec : EqDecision exn.
Proof. solve_decision. Defined.

#[export] Instance result_eq_dec `{EqDecision A} : EqDecision (result A).
Proof. solve_decision. Defined.

#[export] Instance Ok_inj {A} : Inj (=) (=) (@Ok A).
Proof. by intros v1 v2 [= ->]. Qed.

Definition is_ok {A} (r : result A) : bool :=
  match r with Ok _ => true | Raise _ => false end.

Definition result_map {A B} (f : A -> B) (r : result A) : result B :=
  match r with Ok v => Ok (f v) | Raise e => Raise e end.

(** The values of a list of results, up to the first exception. *)
Fixpoint oks {A} (rs : list (result A)) : list A :=
  match rs with
  | Ok v :: rs' => v :: oks rs'
  | _ => []
  end.

(** ** The monad of stateful code that may raise *)

(** A computation over a state [St]: the result and the state reached.  An
    exception keeps the state as it was at the raise. *)
Definition py (St A : Type) : Type := St -> result A * St.

Definition ret {St A} (v : A) : py St A := fun s => (Ok v, s).

Definition raise {St A} (e : exn) : py St A := fun s => (Raise e, s).

Definition bind {St A B} (e : py St A) (k : A -> py St B) : py St B :=
  fun s =>
    match e s with
    | (Ok v, s') => k v s'
    | (Raise x, s') => (Raise x, s')
    end.

Definition get {St} : py St St := fun s => (Ok s, s).

Definition put {St} (s : St) : py St unit := fun _ => (Ok tt, s).

(** An expression without side effects, evaluated in the current state. *)
Definition of_result {St A} (r : result A) : py St A := fun s => (r, s).

Declare Scope py_scope.
Delimit Scope py_scope with py.

Notation "'let*' x := e 'in' k" := (bind e (fun x => k))
  (at level 10, x name, e at level 100, k at level 200) : py_scope.
Notation "e1 ;; e2" := (bind e1 (fun _ => e2))
  (at level 100, e2 at level 200, right associativity) : py_scope.

#[local] Open Scope py_scope.

(** Two computations are equivalent when they agree on every state. *)
Definition py_equiv {St A} (e1 e2 : py St A) : Prop := forall s, e1 s = e2 s.

Infix "=py=" := py_equiv (at level 70, no associativity) : py_scope.

(** [for _ in range(n): print(op())]: the outcomes of the calls in order.
    The loop stops at the first exception, which is the last outcome of the
    list; the state is the one reached there. *)
Fixpoint for_range {St A} (n : nat) (op : py St A) (s : St) : list (result A) * St :=
  match n with
  | O => ([], s)
  | S n' =>
      match op s with
      | (Ok v, s') => let (rs, s'') := for_range n' op s' in (Ok v :: rs, s'')
      | (Raise e, s') => ([Raise e], s')
      end
  end.

(** A session of calls [exec k1; exec k2; ...]: the outcomes in order, up to
    and including the first exception. *)
Fixpoint run_all {St A K} (exec : K -> py St A) (ks : list K) (s : St)
  : list (result A) * St :=
  match ks with
  | [] => ([], s)
  | k :: ks' =>
      match exec k s with
      | (Ok v, s') => let (rs, s'') := run_all exec ks' s' in (Ok v :: rs, s'')
      | (Raise e, s') => ([Raise e], s')
      end
  end.

(** ** Automation *)

Create HintDb py.
Create Rewrite HintDb py.

Ltac py_unfold :=
  unfold bind, ret, raise, get, put, of_result in *.

Ltac py_simpl :=
  py_unfold; simpl in *;
  repeat match goal with
         | |- context [match ?r with Ok _ => _ | Raise _ => _ end] =>
             destruct r eqn:?; simpl in *
         | |- context [let (_, _) := ?p in _] => destruct p eqn:?; simpl in *
         end.

(** Goals on [Z.modulo] with linear side conditions. *)
Ltac Zmod_solve :=
  intros; Z.div_mod_to_equations; nia.

(** ** Monad laws *)

Section Laws.
Context {St A B C : Type}.

#[export] Instance py_equiv_equivalence : Equivalence (@py_equiv St A).
Proof.
  split.
  - intros e s; reflexivity.
  - intros e1 e2 H s; symmetry; apply H.
  - intros e1 e2 e3 H1 H2 s; rewrite H1; apply H2.
Qed.

#[export] Instance bind_proper :
  Proper (py_equiv ==> pointwise_relation A py_equiv ==> py_equiv) (@bind St A B).
Proof.
  intros e1 e2 He k1 k2 Hk s. unfold bind. rewrite He.
  destruct (e2 s) as [[v|x] s']; [apply Hk | reflexivity].
Qed.

Lemma bind_ret_l (v : A) (k : A -> py St B) : bind (ret v) k =py= k v.
Proof. intros s; reflexivity. Qed.

Lemma bind_ret_r (e : py St A) : bind e ret =py= e.
Proof. intros s; unfold bind, ret. destruct (e s) as [[v|x] s']; reflexivity. Qed.

Lemma bind_assoc (e : py St A) (k : A -> py St B) (h : B -> py St C) :
  bind (bind e k) h =py= bind e (fun v => bind (k v) h).
Proof. intros s; unfold bind. destruct (e s) as [[v|x] s']; reflexivity. Qed.

Lemma bind_raise_l (x : exn) (k : A -> py St B) : bind (raise x) k =py= raise x.
Proof. intros s; reflexivity. Qed.

End Laws.

(** ** The bounded loop *)

Section ForRange.
Context {St A : Type}.
Implicit Types (op : py St A) (s : St) (n : nat).

#[export] Instance for_range_proper n :
  Proper (py_equiv ==> eq ==> eq) (@for_range St A n).
Proof.
  intros op1 op2 H s ? <-. revert s.
  induction n as [|n IH]; intros s; simpl; [reflexivity|].
  rewrite H. destruct (op2 s) as [[v|x] s']; [rewrite IH|]; reflexivity.
Qed.

Lemma for_range_length n op s : (length (for_range n op s).1 <= n)%nat.
Proof.
  revert s. induction n as [|n IH]; intros s; simpl; [lia|].
  destruct (op s) as [[v|x] s']; simpl; [|lia].
  specialize (IH s'). destruct (for_range n op s'); simpl in *; lia.
Qed.

(** One more iteration after [n] that all succeeded. *)
Lemma for_range_S_ok n op s v s' :
  op s = (Ok v, s') ->
  for_range (S n) op s = (Ok v :: (for_range n op s').1, (for_range n op s').2).
Proof. intros H; simpl. rewrite H. destruct (for_range n op s'); reflexivity. Qed.

Lemma for_range_S_raise n op s x s' :
  op s = (Raise x, s') -> for_range (S n) op s = ([Raise x], s').
Proof. intros H; simpl. rewrite H. reflexivity. Qed.

(** Splitting a loop of [n1 + n2] iterations when the first [n1] succeed. *)
Lemma for_range_add n1 n2 op s :
  length (oks (for_range n1 op s).1) = n1 ->
  for_range (n1 + n2) op s =
    ((for_range n1 op s).1 ++ (for_range n2 op (for_range n1 op s).2).1,
     (for_range n2 op (for_range n1 op s).2).2).
Proof.
  revert s. induction n1 as [|n1 IH]; intros s; simpl.
  - intros _. destruct (for_range n2 op s); reflexivity.
  - destruct (op s) as [[v|x] s']; simpl; [|discriminate].
    specialize (IH s'). destruct (for_range n1 op s') as [rs s1]; simpl in *.
    intros [= H]. rewrite (IH H). reflexivity.
Qed.

(** An invariant of the operation is an invariant of the loop. *)
Lemma for_range_invariant (I : St -> Prop) n op s :
  (forall s0, I s0 -> I (op s0).2) -> I s -> I (for_range n op s).2.
Proof.
  intros Hop. revert s. induction n as [|n IH]; intros s Hs; simpl; [done|].
  specialize (Hop s Hs). destruct (op s) as [[v|x] s']; simpl in *; [|done].
  specialize (IH s' Hop). destruct (for_range n op s'); done.
Qed.

(** The bounded loop is a session of [n] equal calls. *)
Lemma for_range_run_all n op s :
  for_range n op s = run_all (fun _ : unit => op) (replicate n ()) s.
Proof.
  revert s. induction n as [|n IH]; intros s; simpl; [done|].
  destruct (op s) as [[v|x] s']; [rewrite IH|]; reflexivity.
Qed.

End ForRange.

Section RunAll.
Context {St A K : Type}.
Implicit Types (exec : K -> py St A) (ks : list K) (s : St).

Lemma run_all_cons_ok exec k ks s v s' :
  exec k s = (Ok v, s') ->
  run_all exec (k :: ks) s = (Ok v :: (run_all exec ks s').1, (run_all exec ks s').2).
Proof. intros H; simpl. rewrite H. destruct (run_all exec ks s'); reflexivity. Qed.

Lemma run_all_cons_raise exec k ks s x s' :
  exec k s = (Raise x, s') -> run_all exec (k :: ks) s = ([Raise x], s').
Proof. intros H; simpl. rewrite H. reflexivity. Qed.

Lemma run_all_length exec ks s : (length (run_all exec ks s).1 <= length ks)%nat.
Proof.
  revert s. induction ks as [|k ks IH]; intros s; simpl; [lia|].
  destruct (exec k s) as [[v|x] s']; simpl; [|lia].
  specialize (IH s'). destruct (run_all exec ks s'); simpl in *; lia.
Qed.

(** A session in which every call succeeds, step by step: [spec] gives the value and the
    state after a call from the state before it, [I] is kept. *)
Lemma run_all_ok_ind (I : St -> Prop) (spec : K -> St -> A * St) exec ks s :
  (forall k s0, I s0 -> exec k s0 = (Ok (spec k s0).1, (spec k s0).2) /\ I (spec k s0).2) ->
  I s ->
  run_all exec ks s
    = run_all (fun k s0 => (Ok (spec k s0).1, (spec k s0).2)) ks s
  /\ I (run_all exec ks s).2.
Proof.
  intros Hstep. revert s. induction ks as [|k ks IH]; intros s Hs; simpl; [done|].
  destruct (Hstep k s Hs) as [-> HI]. specialize (IH _ HI).
  destruct IH as [-> IH2].
  destruct (run_all _ ks _); done.
Qed.

End RunAll.

(** ** Results *)

Lemma oks_app_ok {A} (vs : list A) (rs : list (result A)) :
  oks (map Ok vs ++ rs) = vs ++ oks rs.
Proof. induction vs as [|v vs IH]; simpl; [done|]. by rewrite IH. Qed.

Lemma oks_map_ok {A} (vs : list A) : oks (map Ok vs) = vs.
Proof. rewrite <- (app_nil_r (map Ok vs)), oks_app_ok. simpl. apply app_nil_r. Qed.

Lemma oks_length {A} (rs : list (result A)) : (length (oks rs) <= length rs)%nat.
Proof.
  induction rs as [|[v|x] rs IH]; simpl; lia.
Qed.

(** A list of results without exception is the image of its values. *)
Lemma oks_full {A} (rs : list (result A)) :
  length (oks rs) = length rs -> rs = map Ok (oks rs).
Proof.
  induction rs as [|[v|x] rs IH]; simpl; intros H; try done.
  f_equal. apply IH. lia.
Qed.

(** ** Integers *)

Lemma Zmod_affine_congr (m a c x y : Z) :
  x mod m = y mod m -> (a * x + c) mod m = (a * y + c) mod m.
Proof.
  intros H.
  rewrite (Zplus_mod (a * x)), (Zplus_mod (a * y)).
  rewrite (Zmult_mod a x), (Zmult_mod a y), H. reflexivity.
Qed.

Lemma Zmod_neg_range (n m : Z) : m < 0 -> m < n mod m <= 0.
Proof. intros H. apply Z.mod_neg_bound. exact H. Qed.

Lemma Zmod_pos_range (n m : Z) : 0 < m -> 0 <= n mod m < m.
Proof. intros H. apply Z.mod_pos_bound. exact H. Qed.

Lemma Zmod_range_abs (n m : Z) : m <> 0 -> Z.abs (n mod m) < Z.abs m.
Proof.
  intros H. destruct (Z.lt_trichotomy m 0) as [Hm|[Hm|Hm]]; [|lia|].
  - pose proof (Zmod_neg_range n m Hm). lia.
  - pose proof (Zmod_pos_range n m Hm). lia.
Qed.

#[export] Hint Resolve Zmod_pos_range Zmod_neg_range Zmod_range_abs : py.
#[export] Hint Rewrite @oks_map_ok @oks_app_ok : py.
