(* ===== verification/Engine.v ===== *)
(** * Engine: the arithmetic of the generator

    [py_mod] is Python's [%] on integers and [lcg] the expression
    [(a * x + c) % m] that line 56 (class [Aleat]) and line 99 (generator
    [aleat]) evaluate.  [lcg_step] is the recurrence of the specification, a
    total function used as the reference; [lcg_nth] and [lcg_list] are its
    iterates and [geom] the geometric sum of their closed form.  [kwargs] and
    the [default_*] constants are the keyword-only parameters that
    [Aleat.__init__] (line 46) and [aleat] (line 63) share. *)

From Stdlib Require Import ZArith Lia List Znumtheory.
From stdpp Require Import prelude.
From S2P Require Import Prelude.

#[local] Open Scope Z_scope.

(** ** Definitions *)

(** [n % d] on Python integers: the remainder of the floor division, of the
    sign of [d]; a zero divisor raises. *)
Definition py_mod (n d : Z) : result Z :=
  if d =? 0 then Raise ZeroDivisionError else Ok (n mod d).

(** [(a * x + c) % m]. *)
Definition lcg (m a c x : Z) : result Z := py_mod (a * x + c) m.

(** The recurrence [x' = (a x + c) mod m] as a total function. *)
Definition lcg_step (m a c x : Z) : Z := (a * x + c) mod m.

(** The state after [n] steps from [x0]. *)
Definition lcg_nth (m a c : Z) (n : nat) (x0 : Z) : Z :=
  Nat.iter n (lcg_step m a c) x0.

(** The first [n] values emitted from the state [x]. *)
Fixpoint lcg_list (m a c : Z) (n : nat) (x : Z) : list Z :=
  match n with
  | O => []
  | S n' => let y := lcg_step m a c x in y :: lcg_list m a c n' y
  end.

(** [1 + a + ... + a^(n-1)]. *)
Fixpoint geom (a : Z) (n : nat) : Z :=
  match n with
  | O => 0
  | S n' => 1 + a * geom a n'
  end.

(** [y] is a remainder modulo [m]: in [[0, m)] for a positive modulus, in
    [(m, 0]] for a negative one. *)
Definition reduced (m y : Z) : Prop := 0 <= y < m \/ m < y <= 0.

(** The state after [n] steps, before any reduction modulo [m]. *)
Definition affine_pow (a c : Z) (n : nat) (x : Z) : Z :=
  a ^ Z.of_nat n * x + c * geom a n.

(** The keyword arguments of a call: each may be absent. *)
Record kwargs : Set := Kwargs {
  kw_m : option Z;
  kw_a : option Z;
  kw_c : option Z;
  kw_x0 : option Z
}.

Definition no_kwargs : kwargs :=
  {| kw_m := None; kw_a := None; kw_c := None; kw_x0 := None |}.

(** The defaults of the signatures. *)
Definition default_m : Z := 2 ^ 48.
Definition default_a : Z := 25214903917.
Definition default_c : Z := 11.
Definition default_x0 : Z := 1212121.

Arguments lcg_step : simpl never.
Arguments lcg_nth : simpl never.

(** ** Python's remainder *)

Lemma py_mod_zero n : py_mod n 0 = Raise ZeroDivisionError.
Proof. reflexivity. Qed.

Lemma py_mod_nonzero n d : d <> 0 -> py_mod n d = Ok (n mod d).
Proof. intros H. unfold py_mod. destruct (Z.eqb_spec d 0); [done|reflexivity]. Qed.

Lemma py_mod_inv n d r : py_mod n d = Ok r -> d <> 0 /\ r = n mod d.
Proof.
  unfold py_mod. destruct (Z.eqb_spec d 0); [discriminate|].
  intros [= <-]. done.
Qed.

Lemma py_mod_raise_inv n d e : py_mod n d = Raise e -> d = 0 /\ e = ZeroDivisionError.
Proof.
  unfold py_mod. destruct (Z.eqb_spec d 0); [|discriminate].
  intros [= <-]. done.
Qed.

(** The remainder of a floor division is determined by its range and by
    the congruence. *)
Lemma floor_mod_unique n d q r :
  n = q * d + r -> (0 <= r < d \/ d < r <= 0) -> r = n mod d.
Proof.
  intros -> Hr. apply (Z.mod_unique _ d q); [exact Hr | ring].
Qed.

Lemma floor_mod_exists n d :
  d <> 0 -> n = (n / d) * d + n mod d /\ (0 <= n mod d < d \/ d < n mod d <= 0).
Proof.
  intros Hd. split.
  - rewrite Z.mul_comm. apply Z.div_mod. exact Hd.
  - destruct (Z.lt_trichotomy d 0) as [H|[H|H]]; [right|lia|left]; auto with py.
Qed.

(** ** One step *)

Section Step.
Context (m a c : Z).
Implicit Types (x y : Z) (n k : nat).

Lemma lcg_ok x : m <> 0 -> lcg m a c x = Ok (lcg_step m a c x).
Proof. apply py_mod_nonzero. Qed.

Lemma lcg_inv x y : lcg m a c x = Ok y -> m <> 0 /\ y = lcg_step m a c x.
Proof. apply py_mod_inv. Qed.

Lemma lcg_raise_inv x e : lcg m a c x = Raise e -> m = 0 /\ e = ZeroDivisionError.
Proof. apply py_mod_raise_inv. Qed.

Lemma lcg_step_congr x y : x mod m = y mod m -> lcg_step m a c x = lcg_step m a c y.
Proof. apply Zmod_affine_congr. Qed.

Lemma lcg_step_mod x : lcg_step m a c (x mod m) = lcg_step m a c x.
Proof. apply lcg_step_congr, Zmod_mod. Qed.

Lemma lcg_step_range x : 0 < m -> 0 <= lcg_step m a c x < m.
Proof. apply Zmod_pos_range. Qed.

Lemma lcg_step_reduced x : m <> 0 -> reduced m (lcg_step m a c x).
Proof. intros Hm. apply (floor_mod_exists (a * x + c) m Hm). Qed.

Lemma lcg_reduced x y : lcg m a c x = Ok y -> reduced m y.
Proof. intros [Hm ->]%lcg_inv. by apply lcg_step_reduced. Qed.

(** A reduced value is a fixed point of the reduction. *)
Lemma reduced_mod y : reduced m y -> y mod m = y.
Proof. intros Hy. symmetry. apply (floor_mod_unique y m 0 y); [ring|exact Hy]. Qed.

(** ** Iterates *)

Lemma lcg_nth_S n x : lcg_nth m a c (S n) x = lcg_step m a c (lcg_nth m a c n x).
Proof. reflexivity. Qed.

Lemma lcg_nth_S_r n x : lcg_nth m a c (S n) x = lcg_nth m a c n (lcg_step m a c x).
Proof. apply Nat.iter_succ_r. Qed.

Lemma lcg_nth_add n k x :
  lcg_nth m a c (n + k) x = lcg_nth m a c n (lcg_nth m a c k x).
Proof. apply Nat.iter_add. Qed.

Lemma lcg_nth_range n x : 0 < m -> 0 <= lcg_nth m a c (S n) x < m.
Proof. intros H. rewrite lcg_nth_S. by apply lcg_step_range. Qed.

Lemma lcg_nth_congr n x y :
  x mod m = y mod m -> lcg_nth m a c (S n) x = lcg_nth m a c (S n) y.
Proof.
  intros H. rewrite !lcg_nth_S_r. f_equal. by apply lcg_step_congr.
Qed.

Lemma lcg_list_length n x : length (lcg_list m a c n x) = n.
Proof. revert x. induction n as [|n IH]; intros x; simpl; [done|]. by rewrite IH. Qed.

Lemma lcg_list_lookup n x (i : nat) :
  (i < n)%nat -> lcg_list m a c n x !! i = Some (lcg_nth m a c (S i) x).
Proof.
  revert x i. induction n as [|n IH]; intros x i Hi; [lia|].
  destruct i as [|i]; simpl; [done|].
  rewrite IH by lia. f_equal. symmetry. apply (lcg_nth_S_r (S i)).
Qed.

Lemma lcg_list_app n k x :
  lcg_list m a c (n + k) x =
    lcg_list m a c n x ++ lcg_list m a c k (lcg_nth m a c n x).
Proof.
  revert x. induction n as [|n IH]; intros x; simpl; [done|].
  rewrite IH. do 3 f_equal. symmetry. apply lcg_nth_S_r.
Qed.

Lemma lcg_list_range n x : 0 < m -> Forall (fun y => 0 <= y < m) (lcg_list m a c n x).
Proof.
  intros Hm. revert x. induction n as [|n IH]; intros x; simpl; constructor.
  - by apply lcg_step_range.
  - apply IH.
Qed.

(** ** Closed form *)

Lemma geom_S_r n : geom a (S n) = geom a n + a ^ Z.of_nat n.
Proof.
  induction n as [|n IH]; [simpl; lia|].
  change (geom a (S (S n))) with (1 + a * geom a (S n)).
  rewrite IH at 1. rewrite (Nat2Z.inj_succ n), Z.pow_succ_r by lia.
  cbn [geom]. ring.
Qed.

Lemma geom_closed n : (a - 1) * geom a n = a ^ Z.of_nat n - 1.
Proof.
  induction n as [|n IH]; [simpl; lia|].
  rewrite geom_S_r, Nat2Z.inj_succ, Z.pow_succ_r by lia.
  rewrite Z.mul_add_distr_l, IH. ring.
Qed.

Lemma affine_pow_S n x : affine_pow a c (S n) x = a * affine_pow a c n x + c.
Proof.
  unfold affine_pow. cbn [geom]. rewrite Nat2Z.inj_succ, Z.pow_succ_r by lia. ring.
Qed.

Lemma lcg_nth_mod_closed n x : lcg_nth m a c n x mod m = affine_pow a c n x mod m.
Proof.
  induction n as [|n IH].
  - unfold affine_pow, lcg_nth. simpl. f_equal. lia.
  - rewrite lcg_nth_S, affine_pow_S. unfold lcg_step. rewrite Zmod_mod.
    by apply Zmod_affine_congr.
Qed.

Lemma lcg_nth_closed n x : lcg_nth m a c (S n) x = affine_pow a c (S n) x mod m.
Proof.
  rewrite <- lcg_nth_mod_closed, lcg_nth_S. unfold lcg_step. by rewrite Zmod_mod.
Qed.

End Step.

#[export] Hint Resolve lcg_step_range lcg_nth_range lcg_step_reduced lcg_reduced : py.
#[export] Hint Rewrite lcg_list_length : py.

(** ** Properties *)

(** C3: [lcg m a c x] is Python's [(a * x + c) % m] on integers.  It returns
    [y] exactly when the modulus is not zero, [y] differs from [a * x + c]
    by a multiple of [m], and [y] lies between zero and [m] on the side of
    [m]: in [[0, m)] when [m] is positive, in [(m, 0]] when it is negative. *)
Theorem lcg_floor_mod (m a c x y : Z) :
  lcg m a c x = Ok y <->
  m <> 0 /\ (exists q, a * x + c = q * m + y) /\ (0 <= y < m \/ m < y <= 0).
Proof.
  split.
  - intros [Hm ->]%lcg_inv. split; [done|].
    destruct (floor_mod_exists (a * x + c) m Hm) as [Hq Hr]. eauto.
  - intros (Hm & [q Hq] & Hr). rewrite lcg_ok by done. f_equal.
    symmetry. by apply (floor_mod_unique _ m q).
Qed.

(** The only exception of the recurrence is [ZeroDivisionError], and it
    is raised exactly when the modulus is zero. *)
Theorem lcg_raises_iff (m a c x : Z) (e : exn) :
  lcg m a c x = Raise e <-> m = 0 /\ e = ZeroDivisionError.
Proof.
  split; [apply lcg_raise_inv|]. by intros [-> ->].
Qed.

(** The recurrence reads its argument modulo [m] only, so a seed need
    not be reduced: two seeds that are congruent modulo [m] give the same
    result. *)
Theorem lcg_seed_congruent (m a c x x' : Z) :
  x mod m = x' mod m -> lcg m a c x = lcg m a c x'.
Proof.
  intros H. unfold lcg, py_mod. destruct (m =? 0); [done|].
  f_equal. by apply Zmod_affine_congr.
Qed.

Lemma lcg_seed_congruent_witness : lcg 32 9 13 11 = lcg 32 9 13 43.
Proof. apply (lcg_seed_congruent 32 9 13 11 43). reflexivity. Defined.
