(* ===== verification/Stream.v ===== *)
(** * Stream: the contract of a generator handle

    The specification describes one engine, the state (m, a, c, x) advanced
    by the recurrence, behind two interfaces.  This file states that
    contract once: [spec_exec] is the abstract machine over [lcg_state] with
    the commands [Pull] (advance and emit) and [Inject] (overwrite [x], then
    advance and emit); [spec_trace] is the list of values a session emits,
    as a total function of the recurrence.  The class [LcgHandle] says what
    an implementation owes: a view of its state as an [lcg_state] and the
    refinement of [spec_exec] by its own operations.  The theorems of the
    second half are proved against the class only; [Iterator] and
    [Generator] instantiate it. *)

From Stdlib Require Import ZArith Lia List.
From stdpp Require Import prelude.
From S2P Require Import Prelude Engine.

#[local] Open Scope Z_scope.
#[local] Open Scope py_scope.

(** ** The abstract machine *)

(** The state of the engine: modulus, multiplier, increment, current value. *)
Record lcg_state : Set := LcgState {
  st_m : Z;
  st_a : Z;
  st_c : Z;
  st_x : Z
}.

#[export] Instance lcg_state_eq_dec : EqDecision lcg_state.
Proof. solve_decision. Defined.

Definition st_set_x (v : Z) (st : lcg_state) : lcg_state :=
  {| st_m := st_m st; st_a := st_a st; st_c := st_c st; st_x := v |}.

(** The two ways to resume a handle. *)
Inductive cmd : Set :=
| Pull
| Inject (seed : Z).

#[export] Instance cmd_eq_dec : EqDecision cmd.
Proof. solve_decision. Defined.

(** advance(): one step of the recurrence; the new value is stored and
    returned.  For [m > 0] this is section 4.1 of the specification.  For
    [m <= 0] the specification defines nothing (section 7): the machine
    then does what the specification reports of the reference, a division
    by zero for [m = 0] and the remainder of the sign of [m] for [m < 0],
    so that it is not a second source of truth there; the range and
    recurrence theorems about the machine assume [m > 0] or [m <> 0]. *)
Definition spec_advance : py lcg_state Z :=
  let* st := get in
  let* y := of_result (lcg (st_m st) (st_a st) (st_c st) (st_x st)) in
  put (st_set_x y st) ;;
  ret y.

(** reset(seed): the seed is stored as it is; nothing is emitted. *)
Definition spec_reset (seed : Z) : py lcg_state unit :=
  let* st := get in put (st_set_x seed st).

Definition spec_exec (k : cmd) : py lcg_state Z :=
  match k with
  | Pull => spec_advance
  | Inject seed => spec_reset seed ;; spec_advance
  end.

(** The value a command starts the step from. *)
Definition cmd_base (k : cmd) (x : Z) : Z :=
  match k with Pull => x | Inject seed => seed end.

(** One command as a total function of the recurrence. *)
Definition spec_next (k : cmd) (st : lcg_state) : Z * lcg_state :=
  let y := lcg_step (st_m st) (st_a st) (st_c st) (cmd_base k (st_x st)) in
  (y, st_set_x y st).

(** The values a session emits. *)
Fixpoint spec_trace (ks : list cmd) (st : lcg_state) : list Z :=
  match ks with
  | [] => []
  | k :: ks' => (spec_next k st).1 :: spec_trace ks' (spec_next k st).2
  end.

(** The state a session ends in. *)
Fixpoint spec_final (ks : list cmd) (st : lcg_state) : lcg_state :=
  match ks with
  | [] => st
  | k :: ks' => spec_final ks' (spec_next k st).2
  end.

(** ** The interface *)

(** A handle of type [G]: its operations, the engine state it stands for
    ([None] when it stands for none), whether it accepts an injection, and
    the refinement of the abstract machine for a non-zero modulus. *)
Class LcgHandle (G : Type) : Type := {
  handle_exec : cmd -> py G Z;
  handle_view : G -> option lcg_state;
  handle_started : G -> bool;
  handle_refines k g st :
    handle_view g = Some st ->
    st_m st <> 0 ->
    handle_started g = true \/ k = Pull ->
    exists g',
      handle_exec k g = ((spec_exec k st).1, g')
      /\ handle_view g' = Some (spec_exec k st).2
      /\ handle_started g' = true
}.

(** A session may start on [g]: the handle accepts injections, or the
    session starts with a plain pull. *)
Definition startable `{LcgHandle G} (g : G) (ks : list cmd) : Prop :=
  handle_started g = true \/ head ks = Some Pull \/ ks = [].

(** ** The abstract machine and the recurrence *)

Lemma st_set_x_params v st :
  st_m (st_set_x v st) = st_m st /\ st_a (st_set_x v st) = st_a st
  /\ st_c (st_set_x v st) = st_c st /\ st_x (st_set_x v st) = v.
Proof. done. Qed.

Lemma spec_advance_ok st :
  st_m st <> 0 -> spec_advance st = (Ok (spec_next Pull st).1, (spec_next Pull st).2).
Proof.
  intros Hm. unfold spec_advance, spec_next. py_unfold.
  by rewrite lcg_ok.
Qed.

Lemma spec_advance_raise st :
  st_m st = 0 -> spec_advance st = (Raise ZeroDivisionError, st).
Proof.
  intros Hm. unfold spec_advance. py_unfold. unfold lcg. by rewrite Hm.
Qed.

Lemma spec_exec_ok k st :
  st_m st <> 0 -> spec_exec k st = (Ok (spec_next k st).1, (spec_next k st).2).
Proof.
  intros Hm. destruct k as [|seed]; [by apply spec_advance_ok|].
  unfold spec_exec, spec_reset, bind at 1, bind at 1, get, put.
  rewrite spec_advance_ok by done. reflexivity.
Qed.

Lemma spec_next_params k st :
  st_m (spec_next k st).2 = st_m st /\ st_a (spec_next k st).2 = st_a st
  /\ st_c (spec_next k st).2 = st_c st /\ st_x (spec_next k st).2 = (spec_next k st).1.
Proof. done. Qed.

Lemma spec_next_range k st :
  0 < st_m st -> 0 <= (spec_next k st).1 < st_m st.
Proof. intros H. unfold spec_next; simpl. auto with py. Qed.

Lemma spec_final_m ks st : st_m (spec_final ks st) = st_m st.
Proof. revert st. induction ks as [|k ks IH]; intros st; simpl; [done|]. by rewrite IH. Qed.

Lemma spec_trace_length ks st : length (spec_trace ks st) = length ks.
Proof. revert st. induction ks as [|k ks IH]; intros st; simpl; [done|]. by rewrite IH. Qed.

Lemma spec_trace_range ks st :
  0 < st_m st -> Forall (fun y => 0 <= y < st_m st) (spec_trace ks st).
Proof.
  intros Hm. revert st Hm. induction ks as [|k ks IH]; intros st Hm; simpl; constructor.
  - by apply spec_next_range.
  - apply (IH (spec_next k st).2). exact Hm.
Qed.

(** A session of plain pulls emits the iterates of the recurrence. *)
Lemma spec_trace_pulls n st :
  spec_trace (replicate n Pull) st = lcg_list (st_m st) (st_a st) (st_c st) n (st_x st).
Proof.
  revert st. induction n as [|n IH]; intros st; simpl; [done|].
  f_equal. by rewrite IH.
Qed.

Lemma spec_final_pulls n st :
  spec_final (replicate n Pull) st
  = match n with
    | O => st
    | S _ => st_set_x (lcg_nth (st_m st) (st_a st) (st_c st) n (st_x st)) st
    end.
Proof.
  revert st. induction n as [|n IH]; intros st; [done|].
  change (spec_final (replicate (S n) Pull) st)
    with (spec_final (replicate n Pull) (spec_next Pull st).2).
  rewrite IH. destruct n as [|n]; [done|].
  unfold spec_next, st_set_x; cbn [st_m st_a st_c st_x snd cmd_base].
  f_equal. symmetry. apply lcg_nth_S_r.
Qed.

(** The running of the abstract machine is the pure trace. *)
Lemma spec_run_all ks st :
  st_m st <> 0 ->
  run_all spec_exec ks st = (map Ok (spec_trace ks st), spec_final ks st).
Proof.
  revert st. induction ks as [|k ks IH]; intros st Hm; [done|].
  erewrite run_all_cons_ok by (by apply spec_exec_ok).
  rewrite IH by done. reflexivity.
Qed.

(** ** Clients of the interface *)

Section Client.
Context {G : Type} {HG : LcgHandle G}.
Implicit Types (g : G) (st : lcg_state) (k : cmd) (ks : list cmd).

(** One command on a handle, in terms of the recurrence. *)
Lemma handle_exec_ok k g st :
  handle_view g = Some st -> st_m st <> 0 ->
  handle_started g = true \/ k = Pull ->
  exists g', handle_exec k g = (Ok (spec_next k st).1, g')
             /\ handle_view g' = Some (spec_next k st).2
             /\ handle_started g' = true.
Proof.
  intros Hv Hm Hs. destruct (handle_refines k g st Hv Hm Hs) as (g' & He & Hv' & Hs').
  rewrite spec_exec_ok in He, Hv' by done. eauto.
Qed.

(** A session on a handle emits the trace of the abstract machine, and no
    call raises. *)
Lemma handle_run_all ks g st :
  handle_view g = Some st -> st_m st <> 0 -> startable g ks ->
  exists g', run_all handle_exec ks g = (map Ok (spec_trace ks st), g')
             /\ handle_view g' = Some (spec_final ks st).
Proof.
  revert g st. induction ks as [|k ks IH]; intros g st Hv Hm Hs; [by exists g|].
  assert (handle_started g = true \/ k = Pull) as Hk.
  { destruct Hs as [?|[[= ->]|?]]; [by left|by right|done]. }
  destruct (handle_exec_ok k g st Hv Hm Hk) as (g1 & He & Hv1 & Hs1).
  destruct (IH g1 _ Hv1 Hm (or_introl Hs1)) as (g' & Hr & Hv').
  exists g'. erewrite run_all_cons_ok by exact He. rewrite Hr. done.
Qed.

(** [n] plain pulls emit the first [n] iterates of the recurrence. *)
Lemma handle_for_range n g st :
  handle_view g = Some st -> st_m st <> 0 ->
  exists g', for_range n (handle_exec Pull) g
             = (map Ok (lcg_list (st_m st) (st_a st) (st_c st) n (st_x st)), g')
             /\ handle_view g' = Some (spec_final (replicate n Pull) st).
Proof.
  intros Hv Hm.
  destruct (handle_run_all (replicate n Pull) g st Hv Hm) as (g' & Hr & Hv').
  { right. destruct n; [by right|by left]. }
  exists g'. split; [|done]. rewrite <- spec_trace_pulls, <- Hr. clear.
  revert g. induction n as [|n IH]; intros g; simpl; [done|].
  destruct (handle_exec Pull g) as [[v|x] g1]; [rewrite IH|]; reflexivity.
Qed.

(** The [i]-th line of [n] plain pulls is the state after [i + 1] steps. *)
Lemma handle_for_range_lookup n (i : nat) g st :
  handle_view g = Some st -> st_m st <> 0 -> (i < n)%nat ->
  (for_range n (handle_exec Pull) g).1 !! i
  = Some (Ok (lcg_nth (st_m st) (st_a st) (st_c st) (S i) (st_x st))).
Proof.
  intros Hv Hm Hi. destruct (handle_for_range n g st Hv Hm) as (g' & -> & _).
  cbn [fst]. change (map Ok ?l) with (Ok <$> l).
  by rewrite list_lookup_fmap, lcg_list_lookup.
Qed.

(** Every value a session emits is in [[0, m)]. *)
Lemma handle_run_all_range ks g st :
  handle_view g = Some st -> 0 < st_m st -> startable g ks ->
  Forall (fun r => exists y, r = Ok y /\ 0 <= y < st_m st) (run_all handle_exec ks g).1.
Proof.
  intros Hv Hm Hs.
  destruct (handle_run_all ks g st Hv ltac:(lia) Hs) as (g' & -> & _).
  simpl. apply Forall_map. eapply Forall_impl; [by apply spec_trace_range|].
  intros y Hy. by exists y.
Qed.

End Client.

(** Two handles that stand for the same engine state emit the same values
    in every session both can start, and end in the same engine state. *)
Section TwoHandles.
Context {G1 G2 : Type} {HG1 : LcgHandle G1} {HG2 : LcgHandle G2}.

Lemma handles_agree (ks : list cmd) (g1 : G1) (g2 : G2) (st : lcg_state) :
  handle_view g1 = Some st -> handle_view g2 = Some st -> st_m st <> 0 ->
  startable g1 ks -> startable g2 ks ->
  (run_all handle_exec ks g1).1 = (run_all handle_exec ks g2).1
  /\ handle_view (run_all handle_exec ks g1).2 = handle_view (run_all handle_exec ks g2).2.
Proof.
  intros Hv1 Hv2 Hm Hs1 Hs2.
  destruct (handle_run_all ks g1 st Hv1 Hm Hs1) as (g1' & -> & Hv1').
  destruct (handle_run_all ks g2 st Hv2 Hm Hs2) as (g2' & -> & Hv2').
  simpl. by rewrite Hv1', Hv2'.
Qed.

End TwoHandles.
