(* ===== verification/Iterator.v ===== *)
(** * Iterator: the class [Aleat] (src/aleatorios.py, lines 13-60)

    [Aleat.t] is an instance of the class: the record of its attributes
    [m], [a], [c], [x].  Each method is a computation of the monad over
    [Aleat.t], written statement by statement.  [call] names a method call
    and [do_call] performs it; [reachable] is the set of objects that method
    calls can produce from a given one.  The theorems give the behaviour of
    every method on every branch, the invariants of [reachable], and the
    instance of [LcgHandle] that connects the class to the contract. *)

From Stdlib Require Import ZArith Lia List.
From stdpp Require Import prelude.
From S2P Require Import Prelude Engine Stream.

#[local] Open Scope Z_scope.
#[local] Open Scope py_scope.

Module Aleat.

(** ** The object *)

Record t : Set := mk {
  m : Z;
  a : Z;
  c : Z;
  x : Z
}.

#[export] Instance t_eq_dec : EqDecision t.
Proof. solve_decision. Defined.

(** The assignment [self.x = v]. *)
Definition set_x (v : Z) (self : t) : t :=
  {| m := m self; a := a self; c := c self; x := v |}.

(** ** The methods *)

(** [def __init__(self, *, m=2**48, a=25214903917, c=11, x0=1212121)]:
    the four attributes are set from the keyword arguments, each with its
    default. *)
Definition __init__ (kw : kwargs) : t :=
  {| m := default default_m (kw_m kw);
     a := default default_a (kw_a kw);
     c := default default_c (kw_c kw);
     x := default default_x0 (kw_x0 kw) |}.

(** [def __iter__(self): return self]. *)
Definition __iter__ : py t t := get.

(** [def __next__(self)]: [self.x = (self.a * self.x + self.c) % self.m],
    then [return self.x]. *)
Definition __next__ : py t Z :=
  let* self := get in
  let* v := of_result (lcg (m self) (a self) (c self) (x self)) in
  put (set_x v self) ;;
  let* self' := get in
  ret (x self').

(** [def __call__(self, x0): self.x = x0]; returns [None]. *)
Definition __call__ (x0 : Z) : py t unit :=
  let* self := get in
  put (set_x x0 self).

(** ** Sessions *)

(** A method call on an object. *)
Inductive call : Set :=
| CallNext
| CallCall (x0 : Z)
| CallIter.

(** The value a call returns: an integer, [None], or the object. *)
Inductive value : Set :=
| VInt (v : Z)
| VNone
| VSelf (self : t).

Definition do_call (k : call) : py t value :=
  match k with
  | CallNext => let* v := __next__ in ret (VInt v)
  | CallCall x0 => __call__ x0 ;; ret VNone
  | CallIter => let* self := __iter__ in ret (VSelf self)
  end.

(** The objects that method calls produce from [s0]. *)
Inductive reachable (s0 : t) : t -> Prop :=
| reach_init : reachable s0 s0
| reach_call k s : reachable s0 s -> reachable s0 (do_call k s).2.

(** The commands of the contract on the class: a plain pull is [next(rand)],
    an injection is [rand(seed)] followed by [next(rand)]. *)
Definition exec (k : cmd) : py t Z :=
  match k with
  | Pull => __next__
  | Inject seed => __call__ seed ;; __next__
  end.

(** The engine state an object stands for. *)
Definition view (self : t) : lcg_state :=
  {| st_m := m self; st_a := a self; st_c := c self; st_x := x self |}.

(** The attributes [m], [a], [c] of two objects agree. *)
Definition same_params (s1 s2 : t) : Prop :=
  m s1 = m s2 /\ a s1 = a s2 /\ c s1 = c s2.

(** The current value is a value of the sequence. *)
Definition in_range (self : t) : Prop := 0 <= x self < m self.

(** ** The methods, branch by branch *)

Lemma init_full vm va vc vx :
  __init__ (Kwargs (Some vm) (Some va) (Some vc) (Some vx)) = mk vm va vc vx.
Proof. reflexivity. Qed.

Lemma init_defaults :
  __init__ no_kwargs = mk (2 ^ 48) 25214903917 11 1212121.
Proof. reflexivity. Qed.

Lemma iter_self self : __iter__ self = (Ok self, self).
Proof. reflexivity. Qed.

Lemma next_ok self :
  m self <> 0 ->
  __next__ self
  = (Ok (lcg_step (m self) (a self) (c self) (x self)),
     set_x (lcg_step (m self) (a self) (c self) (x self)) self).
Proof. intros Hm. unfold __next__. py_unfold. by rewrite lcg_ok. Qed.

Lemma next_raise self :
  m self = 0 -> __next__ self = (Raise ZeroDivisionError, self).
Proof. intros Hm. unfold __next__. py_unfold. unfold lcg. by rewrite Hm. Qed.

Lemma call_ok x0 self : __call__ x0 self = (Ok (), set_x x0 self).
Proof. reflexivity. Qed.

(** [__next__] in one statement: it is the step of the abstract machine. *)
Lemma next_spec_advance self :
  __next__ self = ((spec_advance (view self)).1, set_x (st_x (spec_advance (view self)).2) self).
Proof.
  destruct (decide (m self = 0)) as [Hm|Hm].
  - rewrite next_raise, spec_advance_raise by done. by destruct self.
  - rewrite next_ok, spec_advance_ok by done. reflexivity.
Qed.

Lemma exec_step k self :
  m self <> 0 ->
  exec k self = (Ok (spec_next k (view self)).1,
                 set_x (spec_next k (view self)).1 self).
Proof.
  intros Hm. destruct k as [|seed]; simpl.
  - by apply next_ok.
  - unfold bind. rewrite call_ok. by rewrite next_ok.
Qed.

Lemma view_set_x v self : view (set_x v self) = st_set_x v (view self).
Proof. reflexivity. Qed.

Lemma view_inj s1 s2 : view s1 = view s2 -> s1 = s2.
Proof. destruct s1, s2. by intros [= -> -> -> ->]. Qed.

(** ** Invariants *)

#[export] Instance same_params_equiv : Equivalence same_params.
Proof.
  split.
  - by intros s.
  - by intros s1 s2 (? & ? & ?).
  - intros s1 s2 s3 (? & ? & ?) (? & ? & ?). repeat split; congruence.
Qed.

Lemma same_params_set_x v self : same_params (set_x v self) self.
Proof. done. Qed.

Lemma next_same_params self : same_params (__next__ self).2 self.
Proof.
  destruct (decide (m self = 0)) as [Hm|Hm].
  - by rewrite next_raise.
  - by rewrite next_ok.
Qed.

Lemma do_call_same_params k self : same_params (do_call k self).2 self.
Proof.
  destruct k as [|x0|]; simpl; unfold bind; [|done..].
  pose proof (next_same_params self). by destruct (__next__ self) as [[v|e] s'].
Qed.

Lemma reachable_same_params s0 s : reachable s0 s -> same_params s s0.
Proof.
  induction 1 as [|k s _ IH]; [reflexivity|].
  etransitivity; [apply do_call_same_params | exact IH].
Qed.

Lemma reachable_compose s0 s1 s2 : reachable s0 s1 -> reachable s1 s2 -> reachable s0 s2.
Proof. intros H1 H2. induction H2; [done|by constructor]. Qed.

End Aleat.

(** ** The class as a handle of the contract *)

#[export] Program Instance aleat_handle : LcgHandle Aleat.t := {|
  handle_exec := Aleat.exec;
  handle_view := Some ∘ Aleat.view;
  handle_started := fun _ => true
|}.
Next Obligation.
  intros k g st [= <-] Hm _. simpl in Hm.
  exists (Aleat.set_x (spec_next k (Aleat.view g)).1 g).
  rewrite spec_exec_ok, Aleat.exec_step by done. done.
Qed.

(** ** Properties *)

(** C1: [__next__] with a non-zero modulus stores [(a * x + c) % m] in
    [self.x] and returns it; [m], [a] and [c] keep their values. *)
Theorem next_advances (self : Aleat.t) :
  Aleat.m self <> 0 ->
  let y := (Aleat.a self * Aleat.x self + Aleat.c self) mod Aleat.m self in
  Aleat.__next__ self
  = (Ok y, Aleat.mk (Aleat.m self) (Aleat.a self) (Aleat.c self) y).
Proof. intros Hm. by rewrite Aleat.next_ok. Qed.

Lemma next_advances_witness :
  Aleat.__next__ (Aleat.mk 32 9 13 11) = (Ok 16, Aleat.mk 32 9 13 16).
Proof. apply (next_advances (Aleat.mk 32 9 13 11)). discriminate. Defined.

(** C5: an object made with a zero modulus is never repaired.  After any
    method calls on it, a reseed included, [__next__] raises
    [ZeroDivisionError] before the assignment of line 56 and leaves the
    object as it was, so that the same call raises again. *)
Theorem next_zero_modulus (self s : Aleat.t) :
  Aleat.m self = 0 -> Aleat.reachable self s ->
  Aleat.__next__ s = (Raise ZeroDivisionError, s).
Proof.
  intros Hm (Hs & _)%Aleat.reachable_same_params.
  apply Aleat.next_raise. congruence.
Qed.

Lemma next_zero_modulus_witness :
  Aleat.__next__ (Aleat.do_call (Aleat.CallCall 5) (Aleat.mk 0 9 13 11)).2
  = (Raise ZeroDivisionError, (Aleat.do_call (Aleat.CallCall 5) (Aleat.mk 0 9 13 11)).2).
Proof.
  apply (next_zero_modulus (Aleat.mk 0 9 13 11)); [reflexivity|].
  apply Aleat.reach_call, Aleat.reach_init.
Defined.

(** C8: reset semantics.  [rand(seed)] stores the seed as it is and emits
    nothing; the next [__next__] returns [(a * seed + c) % m], whatever the
    value of [x] before the reset. *)
Theorem call_then_next (self : Aleat.t) (seed : Z) :
  Aleat.m self <> 0 ->
  let y := (Aleat.a self * seed + Aleat.c self) mod Aleat.m self in
  Aleat.__call__ seed self
    = (Ok (), Aleat.mk (Aleat.m self) (Aleat.a self) (Aleat.c self) seed)
  /\ (Aleat.__call__ seed ;; Aleat.__next__)%py self
    = (Ok y, Aleat.mk (Aleat.m self) (Aleat.a self) (Aleat.c self) y).
Proof.
  intros Hm. split; [done|].
  unfold bind. rewrite Aleat.call_ok. by rewrite Aleat.next_ok.
Qed.

Lemma call_then_next_witness :
  Aleat.__call__ 29 (Aleat.mk 32 9 13 15) = (Ok (), Aleat.mk 32 9 13 29)
  /\ (Aleat.__call__ 29 ;; Aleat.__next__)%py (Aleat.mk 32 9 13 15)
     = (Ok 18, Aleat.mk 32 9 13 18).
Proof. apply (call_then_next (Aleat.mk 32 9 13 15) 29). discriminate. Defined.

(** C9: whatever methods are called on an object, in any order and
    whether they raise or not, [m], [a] and [c] keep the values
    [__init__] gave them. *)
Theorem reachable_params (kw : kwargs) (s : Aleat.t) :
  Aleat.reachable (Aleat.__init__ kw) s ->
  Aleat.m s = default default_m (kw_m kw)
  /\ Aleat.a s = default default_a (kw_a kw)
  /\ Aleat.c s = default default_c (kw_c kw).
Proof. intros H. by apply Aleat.reachable_same_params in H. Qed.

Lemma reachable_params_witness :
  Aleat.m (Aleat.do_call Aleat.CallNext
             (Aleat.do_call (Aleat.CallCall 5) (Aleat.__init__ no_kwargs)).2).2
    = default default_m (kw_m no_kwargs)
  /\ Aleat.a (Aleat.do_call Aleat.CallNext
             (Aleat.do_call (Aleat.CallCall 5) (Aleat.__init__ no_kwargs)).2).2
    = default default_a (kw_a no_kwargs)
  /\ Aleat.c (Aleat.do_call Aleat.CallNext
             (Aleat.do_call (Aleat.CallCall 5) (Aleat.__init__ no_kwargs)).2).2
    = default default_c (kw_c no_kwargs).
Proof.
  apply (reachable_params no_kwargs).
  apply Aleat.reach_call, Aleat.reach_call, Aleat.reach_init.
Defined.
