(* ===== verification/Threads.v ===== *)
(** * Threads: calls of [__next__] that interleave
    (src/aleatorios.py, lines 55-57)

    [__next__] is two statements: line 56 reads [self.x], computes
    [(self.a * self.x + self.c) % self.m] and writes the result to
    [self.x]; line 57 reads [self.x] again and returns it.  The object has
    no lock, and the specification (section 5) supports no concurrent
    access.  This file says what happens without that support: calls of
    [next] on one object from several threads, interleaved between the
    read of line 56, its write, and the read of line 57.

    A configuration is the shared object and, for each call, the point it
    has reached ([pc]).  [step i] runs thread [i] for one access of
    [self.x]; [run] follows a schedule, the list of the threads that run,
    in order.  The reads of [m], [a] and [c] need no step of their own,
    since no method writes them.  Only calls of [__next__] are
    interleaved: a call [rand(x0)] among them would be one more write of
    [self.x], which the configurations of this file do not hold.  The
    source starts no thread; the schedule stands for what callers of the
    class may do, and the granularity (one access of [self.x] per step) is
    an assumption on the interpreter, not a line of the source.

    The theorems: one call run alone is [Aleat.__next__], and calls run
    one after the other are the loop of [next]; under every schedule the
    parameters are kept and every value returned is one of the first [n]
    values of the sequence, [n] the number of calls; but two calls that
    interleave can return the same value, and the sequence can lose a
    step or a value. *)

From Stdlib Require Import ZArith Lia List.
From stdpp Require Import prelude.
From S2P Require Import Prelude Engine Stream Iterator.

#[local] Open Scope Z_scope.

Module Threads.

(** ** Configurations *)

(** Where a call of [__next__] is: before the read of [self.x] in line 56;
    after it, holding the value read; at line 57; or returned. *)
Inductive pc : Set :=
| Read
| Write (t : Z)
| Return
| Done (r : result Z).

#[export] Instance pc_eq_dec : EqDecision pc.
Proof. solve_decision. Defined.

Record config : Set := mk {
  shared : Aleat.t;
  threads : list pc
}.

(** [n] calls of [next] on [self], none started. *)
Definition start (n : nat) (self : Aleat.t) : config :=
  {| shared := self; threads := replicate n Read |}.

(** ** Steps *)

(** One access of [self.x] by a call: the read of line 56; the write of
    line 56, which raises instead when the remainder does; the read of
    line 57. *)
Definition access (self : Aleat.t) (p : pc) : Aleat.t * pc :=
  match p with
  | Read => (self, Write (Aleat.x self))
  | Write t =>
      match lcg (Aleat.m self) (Aleat.a self) (Aleat.c self) t with
      | Ok y => (Aleat.set_x y self, Return)
      | Raise e => (self, Done (Raise e))
      end
  | Return => (self, Done (Ok (Aleat.x self)))
  | Done r => (self, Done r)
  end.

(** Thread [i] runs for one access. *)
Definition step (i : nat) (cf : config) : config :=
  match threads cf !! i with
  | Some p =>
      let '(self', p') := access (shared cf) p in
      {| shared := self'; threads := <[i := p']> (threads cf) |}
  | None => cf
  end.

(** The threads of a schedule run in its order. *)
Definition run (sched : list nat) (cf : config) : config :=
  foldl (fun cf i => step i cf) cf sched.

(** The schedule without interleaving: each call runs to its end before
    the next starts. *)
Definition in_turn (n : nat) : list nat := i ← seq 0 n; [i; i; i].

(** ** Observations *)

(** The call has written [self.x]. *)
Definition wrote (p : pc) : bool :=
  match p with
  | Return | Done (Ok _) => true
  | _ => false
  end.

(** The number of calls that have written. *)
Definition writes (ths : list pc) : nat := length (filter (fun p => wrote p = true) ths).

(** [v] is one of the values [x0, x1, ..., xw] of the sequence of the
    object [s0], at an index from [lo] on. *)
Definition among (s0 : Aleat.t) (lo w : nat) (v : Z) : Prop :=
  exists j, (lo <= j <= w)%nat
            /\ v = lcg_nth (Aleat.m s0) (Aleat.a s0) (Aleat.c s0) j (Aleat.x s0).

(** What holds of a call in a configuration reached from [s0] with [w]
    writes: a value read is a value of the sequence, and a value returned
    or about to be is one of [x1, ..., xw]. *)
Definition pc_ok (s0 : Aleat.t) (w : nat) (self : Aleat.t) (p : pc) : Prop :=
  match p with
  | Read => True
  | Write t => among s0 0 w t
  | Return => among s0 1 w (Aleat.x self)
  | Done (Ok v) => among s0 1 w v
  | Done (Raise e) => e = ZeroDivisionError
  end.

(** The invariant of the configurations reached from [start n s0]. *)
Definition inv (s0 : Aleat.t) (cf : config) : Prop :=
  Aleat.same_params (shared cf) s0
  /\ among s0 0 (writes (threads cf)) (Aleat.x (shared cf))
  /\ Forall (pc_ok s0 (writes (threads cf)) (shared cf)) (threads cf).

(** The accesses a call has left. *)
Definition remaining (p : pc) : nat :=
  match p with
  | Read => 3
  | Write _ => 2
  | Return => 1
  | Done _ => 0
  end.

(** ** The invariant *)

Section Invariant.
Context (s0 : Aleat.t).
Implicit Types (cf : config) (p : pc) (ths : list pc) (w lo : nat).

Lemma among_mono lo lo' w w' v :
  (lo' <= lo)%nat -> (w <= w')%nat -> among s0 lo w v -> among s0 lo' w' v.
Proof. intros Hlo Hw (j & Hj & ->). exists j. split; [lia|done]. Qed.

Lemma among_step lo w t y :
  among s0 lo w t -> lcg (Aleat.m s0) (Aleat.a s0) (Aleat.c s0) t = Ok y ->
  among s0 1 (S w) y.
Proof.
  intros (j & Hj & ->) [_ ->]%lcg_inv. exists (S j). split; [lia|].
  by rewrite lcg_nth_S.
Qed.

Lemma pc_ok_mono w w' self p : (w <= w')%nat -> pc_ok s0 w self p -> pc_ok s0 w' self p.
Proof. intros Hw. destruct p as [|t| |[v|e]]; cbn; eauto using among_mono. Qed.

Lemma pc_ok_write w self y p :
  among s0 1 (S w) y -> pc_ok s0 w self p -> pc_ok s0 (S w) (Aleat.set_x y self) p.
Proof. intros Hy. destruct p as [|t| |[v|e]]; cbn; eauto using among_mono. Qed.

Lemma writes_cons p ths : writes (p :: ths) = ((if wrote p then 1 else 0) + writes ths)%nat.
Proof.
  unfold writes. destruct (wrote p) eqn:Hp.
  - by rewrite filter_cons_True.
  - by rewrite filter_cons_False by by rewrite Hp.
Qed.

Lemma writes_insert ths i p p' :
  ths !! i = Some p ->
  (writes (<[i := p']> ths) + (if wrote p then 1 else 0)
   = writes ths + (if wrote p' then 1 else 0))%nat.
Proof.
  revert i. induction ths as [|q ths IH]; intros [|i] Hi; try done; cbn in Hi;
    simpl; rewrite !writes_cons.
  - injection Hi as ->. destruct (wrote p), (wrote p'); lia.
  - specialize (IH i Hi). destruct (wrote p), (wrote p'), (wrote q); lia.
Qed.

Lemma writes_insert_same ths i p p' :
  ths !! i = Some p -> wrote p' = wrote p -> writes (<[i := p']> ths) = writes ths.
Proof. intros Hi Hp. pose proof (writes_insert ths i p p' Hi) as Hw. rewrite Hp in Hw. lia. Qed.

Lemma writes_insert_write ths i t :
  ths !! i = Some (Write t) -> writes (<[i := Return]> ths) = S (writes ths).
Proof. intros Hi. pose proof (writes_insert ths i _ Return Hi) as Hw. cbn in Hw. lia. Qed.

Lemma writes_length ths : (writes ths <= length ths)%nat.
Proof. apply length_filter. Qed.

Lemma inv_start n : inv s0 (start n s0).
Proof.
  assert (writes (replicate n Read) = 0%nat) as Hw.
  { induction n as [|n IH]; [done|]. cbn [replicate]. by rewrite writes_cons, IH. }
  unfold inv, start. cbn [shared threads]. rewrite Hw. split; [done|]. split.
  - by exists 0%nat.
  - by apply Forall_replicate.
Qed.

Lemma step_inv i cf : inv s0 cf -> inv s0 (step i cf).
Proof.
  intros (Hp & Hx & Hths). unfold step.
  destruct (threads cf !! i) as [p|] eqn:Hi; [|done].
  pose proof (proj1 (Forall_lookup _ _) Hths i p Hi) as Hpi.
  pose proof Hp as (Hm & Ha & Hc).
  destruct p as [|t| |r]; cbn [access]; [| rewrite Hm, Ha, Hc;
    destruct (lcg _ _ _ t) as [y|e] eqn:Hy |..]; unfold inv; cbn [shared threads].
  - rewrite (writes_insert_same _ _ _ _ Hi) by done.
    split; [done|]. split; [done|]. by apply Forall_insert.
  - rewrite (writes_insert_write _ _ _ Hi).
    pose proof (among_step _ _ _ _ Hpi Hy) as Hay.
    split; [done|]. split; [eapply among_mono; [| |exact Hay]; lia|].
    apply Forall_insert; [|done]. eapply Forall_impl; [exact Hths|].
    intros q. by apply pc_ok_write.
  - rewrite (writes_insert_same _ _ _ _ Hi) by done.
    split; [done|]. split; [done|]. apply Forall_insert; [done|].
    by apply lcg_raise_inv in Hy as [_ ->].
  - rewrite (writes_insert_same _ _ _ _ Hi) by done.
    split; [done|]. split; [done|]. by apply Forall_insert.
  - by rewrite list_insert_id.
Qed.

Lemma run_inv sched cf : inv s0 cf -> inv s0 (run sched cf).
Proof.
  revert cf. induction sched as [|i sched IH]; intros cf Hcf; [done|].
  apply IH. by apply step_inv.
Qed.

Lemma step_length i cf : length (threads (step i cf)) = length (threads cf).
Proof.
  unfold step. destruct (threads cf !! i) as [p|]; [|done].
  destruct (access _ _). cbn. by rewrite length_insert.
Qed.

Lemma run_length sched cf : length (threads (run sched cf)) = length (threads cf).
Proof.
  revert cf. induction sched as [|i sched IH]; intros cf; [done|].
  cbn. unfold run in IH. by rewrite IH, step_length.
Qed.

End Invariant.

(** ** Calls that do not interleave *)

(** A call run alone is [__next__]. *)
Lemma run_one_call self ths i :
  ths !! i = Some Read ->
  run [i; i; i] (mk self ths)
  = mk (Aleat.__next__ self).2 (<[i := Done (Aleat.__next__ self).1]> ths).
Proof.
  intros Hi. pose proof (lookup_lt_Some _ _ _ Hi) as Hlt.
  unfold run. cbn [foldl]. unfold step at 3. cbn [threads shared]. rewrite Hi. cbn [access].
  unfold step at 2. cbn [threads shared]. rewrite list_lookup_insert_eq by done. cbn [access].
  destruct (decide (Aleat.m self = 0)) as [Hm|Hm].
  - rewrite Aleat.next_raise by done. unfold lcg. rewrite Hm, py_mod_zero.
    unfold step. cbn [threads shared].
    rewrite list_lookup_insert_eq by by rewrite length_insert.
    cbn [access fst snd]. by rewrite !list_insert_insert_eq.
  - rewrite Aleat.next_ok, lcg_ok by done.
    unfold step. cbn [threads shared].
    rewrite list_lookup_insert_eq by by rewrite length_insert.
    cbn [access fst snd]. by rewrite !list_insert_insert_eq.
Qed.

Lemma run_app sched1 sched2 cf : run (sched1 ++ sched2) cf = run sched2 (run sched1 cf).
Proof. apply foldl_app. Qed.

(** Calls run in turn are the loop of [next]. *)
Lemma run_in_turn_from k n self pre :
  length pre = k -> Aleat.m self <> 0 ->
  run (i ← seq k n; [i; i; i]) (mk self (pre ++ replicate n Read))
  = mk (for_range n Aleat.__next__ self).2
       (pre ++ (Done <$> (for_range n Aleat.__next__ self).1)).
Proof.
  revert k self pre. induction n as [|n IH]; intros k self pre Hk Hm; [done|].
  cbn [seq replicate]. rewrite bind_cons, run_app, run_one_call
    by by rewrite lookup_app_r, Hk, Nat.sub_diag by lia.
  rewrite Aleat.next_ok by done. cbn [fst snd].
  rewrite (for_range_S_ok n _ self _ _ (Aleat.next_ok self Hm)). cbn [fst snd].
  rewrite insert_app_r_alt, Hk, Nat.sub_diag by lia. cbn [insert list_insert].
  rewrite (cons_middle (Done _)), (assoc_L (++)), IH; [|rewrite length_app; cbn; lia|done].
  by rewrite <- (assoc_L (++)).
Qed.

(** ** Progress *)

Lemma access_remaining self p : (remaining (access self p).2 <= remaining p - 1)%nat.
Proof. destruct p as [|t| |r]; cbn; [lia| |lia..]. destruct (lcg _ _ _ _); cbn; lia. Qed.

Lemma step_other i j cf : i <> j -> threads (step j cf) !! i = threads cf !! i.
Proof.
  intros Hij. unfold step. destruct (threads cf !! j) as [p|]; [|done].
  destruct (access _ _). cbn. by rewrite list_lookup_insert_ne.
Qed.

Lemma step_progress i cf p :
  threads cf !! i = Some p ->
  exists p', threads (step i cf) !! i = Some p' /\ (remaining p' <= remaining p - 1)%nat.
Proof.
  intros Hi. pose proof (access_remaining (shared cf) p) as Hr.
  unfold step. rewrite Hi. destruct (access _ _) as [self' p']. cbn in *.
  exists p'. split; [|done]. apply list_lookup_insert_eq. by eapply lookup_lt_Some.
Qed.

(** A call has at most as many accesses left as it had, less the number
    of times its thread ran. *)
Lemma run_progress sched cf i p :
  threads cf !! i = Some p ->
  exists p', threads (run sched cf) !! i = Some p'
             /\ (remaining p' <= remaining p - length (filter (eq i) sched))%nat.
Proof.
  revert cf p. induction sched as [|j sched IH]; intros cf p Hi.
  { exists p. split; [done|]. cbn. lia. }
  destruct (decide (i = j)) as [<-|Hij].
  - destruct (step_progress i cf p Hi) as (p1 & H1 & Hr1).
    destruct (IH _ _ H1) as (p' & Hp' & Hr). exists p'. split; [done|].
    rewrite filter_cons_True by done. cbn [length]. lia.
  - destruct (IH (step j cf) p) as (p' & Hp' & Hr); [by rewrite step_other|].
    exists p'. split; [done|]. by rewrite filter_cons_False.
Qed.

End Threads.

(** ** Properties *)

(** C13: safety under every schedule.  Whatever the interleaving of [n]
    calls of [next] on one object, the attributes [m], [a] and [c] keep
    their values, a call that returns a value returns one of the first
    [n] values of the sequence of the object, [x1, ..., xn], and a call
    that raises raises [ZeroDivisionError]. *)
Theorem interleaving_safe (n : nat) (self : Aleat.t) (sched : list nat) (i : nat)
    (r : result Z) :
  Threads.threads (Threads.run sched (Threads.start n self)) !! i = Some (Threads.Done r) ->
  Aleat.same_params (Threads.shared (Threads.run sched (Threads.start n self))) self
  /\ match r with
     | Ok v => exists j, (1 <= j <= n)%nat
                 /\ v = lcg_nth (Aleat.m self) (Aleat.a self) (Aleat.c self) j (Aleat.x self)
     | Raise e => e = ZeroDivisionError
     end.
Proof.
  intros Hi.
  destruct (Threads.run_inv self sched _ (Threads.inv_start self n)) as (Hp & _ & Hths).
  split; [done|]. rewrite Forall_lookup in Hths. specialize (Hths i _ Hi).
  destruct r as [v|e]; [|done]. destruct Hths as (j & Hj & ->). exists j. split; [|done].
  pose proof (Threads.writes_length (Threads.threads (Threads.run sched (Threads.start n self)))) as Hw.
  rewrite Threads.run_length in Hw. cbn in Hw. rewrite length_replicate in Hw. lia.
Qed.

Lemma interleaving_safe_witness :
  Aleat.same_params
    (Threads.shared (Threads.run [0; 1; 0; 1; 0; 1]%nat (Threads.start 2 (Aleat.mk 32 9 13 11))))
    (Aleat.mk 32 9 13 11)
  /\ exists j, (1 <= j <= 2)%nat /\ 16 = lcg_nth 32 9 13 j 11.
Proof.
  by apply (interleaving_safe 2 (Aleat.mk 32 9 13 11) [0; 1; 0; 1; 0; 1]%nat 1 (Ok 16)).
Defined.

(** C34: what interleaving loses.  Two calls of [next] on one object with
    a non-zero modulus, run in turn, return the next two values of the
    sequence.  When both read [self.x] before either writes it, both
    return the first of these and the object advances by one step only;
    when the second call writes before the first reads [self.x] back, both
    return the second value and the first is returned by no call. *)
Theorem race_loses_values (self : Aleat.t) :
  Aleat.m self <> 0 ->
  let y1 := lcg_step (Aleat.m self) (Aleat.a self) (Aleat.c self) (Aleat.x self) in
  let y2 := lcg_step (Aleat.m self) (Aleat.a self) (Aleat.c self) y1 in
  Threads.run [0; 0; 0; 1; 1; 1]%nat (Threads.start 2 self)
  = Threads.mk (Aleat.set_x y2 self) [Threads.Done (Ok y1); Threads.Done (Ok y2)]
  /\ Threads.run [0; 1; 0; 1; 0; 1]%nat (Threads.start 2 self)
     = Threads.mk (Aleat.set_x y1 self) [Threads.Done (Ok y1); Threads.Done (Ok y1)]
  /\ Threads.run [0; 0; 1; 1; 0; 1]%nat (Threads.start 2 self)
     = Threads.mk (Aleat.set_x y2 self) [Threads.Done (Ok y2); Threads.Done (Ok y2)].
Proof.
  intros Hm. unfold Threads.run, Threads.step, Threads.start. cbn.
  rewrite !lcg_ok by done. cbn. by rewrite !lcg_ok by done.
Qed.

Lemma race_loses_values_witness :
  Threads.run [0; 0; 0; 1; 1; 1]%nat (Threads.start 2 (Aleat.mk 32 9 13 11))
  = Threads.mk (Aleat.mk 32 9 13 29) [Threads.Done (Ok 16); Threads.Done (Ok 29)]
  /\ Threads.run [0; 1; 0; 1; 0; 1]%nat (Threads.start 2 (Aleat.mk 32 9 13 11))
     = Threads.mk (Aleat.mk 32 9 13 16) [Threads.Done (Ok 16); Threads.Done (Ok 16)]
  /\ Threads.run [0; 0; 1; 1; 0; 1]%nat (Threads.start 2 (Aleat.mk 32 9 13 11))
     = Threads.mk (Aleat.mk 32 9 13 29) [Threads.Done (Ok 29); Threads.Done (Ok 29)].
Proof. apply (race_loses_values (Aleat.mk 32 9 13 11)). discriminate. Defined.

(** C38: calls that do not interleave are the loop of [next]: the schedule
    [in_turn] gives the values and the object of
    [for _ in range(n): next(rand)]. *)
Theorem in_turn_is_loop (n : nat) (self : Aleat.t) :
  Aleat.m self <> 0 ->
  Threads.run (Threads.in_turn n) (Threads.start n self)
  = Threads.mk (for_range n Aleat.__next__ self).2
               (Threads.Done <$> (for_range n Aleat.__next__ self).1).
Proof. intros Hm. by apply (Threads.run_in_turn_from 0 n self []). Qed.

Lemma in_turn_is_loop_witness :
  Threads.run (Threads.in_turn 2) (Threads.start 2 (Aleat.mk 32 9 13 11))
  = Threads.mk (for_range 2 Aleat.__next__ (Aleat.mk 32 9 13 11)).2
               (Threads.Done <$> (for_range 2 Aleat.__next__ (Aleat.mk 32 9 13 11)).1).
Proof. apply (in_turn_is_loop 2 (Aleat.mk 32 9 13 11)). discriminate. Defined.

(** Every call returns or raises once its thread has run three times,
    whatever the other threads do in between. *)
Theorem scheduled_call_finishes (n : nat) (self : Aleat.t) (sched : list nat) (i : nat) :
  (i < n)%nat -> (3 <= length (filter (eq i) sched))%nat ->
  exists r, Threads.threads (Threads.run sched (Threads.start n self)) !! i
            = Some (Threads.Done r).
Proof.
  intros Hi Hs.
  destruct (Threads.run_progress sched (Threads.start n self) i Threads.Read)
    as (p & Hp & Hr); [by apply lookup_replicate_2|].
  destruct p as [|t| |r]; cbn in Hr; try lia. by exists r.
Qed.
