(* ===== verification/Dyn.v ===== *)
(** * Dyn: the class on Python values (src/aleatorios.py, lines 18-21, 46-60)

    The docstring of [Aleat] declares [m], [a], [c] and [x] as [int], but
    [__init__] and [__call__] store whatever they are given, and Python
    checks the operands only when line 56 runs.  This file models the class
    over the values [int], [bool] and [None]: the operators of line 56 raise
    [TypeError] on [None], and a [bool] counts as the integer 0 or 1.  The
    theorems show that objects whose attributes are integers stay so and
    never raise [TypeError], that on such objects the class is the class of
    [Iterator], and what a seed [None] does to an object. *)

From Stdlib Require Import ZArith Lia List.
From stdpp Require Import prelude.
From S2P Require Import Prelude Engine Stream Iterator.

#[local] Open Scope Z_scope.
#[local] Open Scope py_scope.

Module Dyn.

(** ** Values and operators *)

(** The Python values of the model. *)
Inductive val : Set :=
| VInt (n : Z)
| VBool (b : bool)
| VNone.

#[export] Instance val_eq_dec : EqDecision val.
Proof. solve_decision. Defined.

(** The integer an operand stands for: [bool] is a subclass of [int]. *)
Definition as_int (v : val) : option Z :=
  match v with
  | VInt n => Some n
  | VBool b => Some (if b then 1 else 0)
  | VNone => None
  end.

(** [isinstance(v, int)]. *)
Definition is_int (v : val) : bool := bool_decide (is_Some (as_int v)).

(** An arithmetic operator on two operands: [TypeError] unless both are
    integers. *)
Definition binop (f : Z -> Z -> result Z) (u v : val) : result val :=
  match as_int u, as_int v with
  | Some p, Some q => result_map VInt (f p q)
  | _, _ => Raise TypeError
  end.

(** [u * v], [u + v] and [u % v]. *)
Definition py_mul : val -> val -> result val := binop (fun p q => Ok (p * q)).

Definition py_add : val -> val -> result val := binop (fun p q => Ok (p + q)).

Definition py_rem : val -> val -> result val := binop py_mod.

(** ** The object and its methods *)

Record t : Set := mk {
  m : val;
  a : val;
  c : val;
  x : val
}.

#[export] Instance t_eq_dec : EqDecision t.
Proof. solve_decision. Defined.

Definition set_x (v : val) (self : t) : t :=
  {| m := m self; a := a self; c := c self; x := v |}.

(** [__init__]: each attribute is the argument given, or the default. *)
Definition __init__ (vm va vc vx0 : option val) : t :=
  {| m := default (VInt default_m) vm;
     a := default (VInt default_a) va;
     c := default (VInt default_c) vc;
     x := default (VInt default_x0) vx0 |}.

(** [__next__]: line 56 evaluates [self.a * self.x], then [+ self.c], then
    [% self.m]; the assignment happens only if none of them raised. *)
Definition __next__ : py t val :=
  let* self := get in
  let* p := of_result (py_mul (a self) (x self)) in
  let* s := of_result (py_add p (c self)) in
  let* v := of_result (py_rem s (m self)) in
  put (set_x v self) ;;
  let* self' := get in
  ret (x self').

(** [__call__]: the seed is stored as it is, whatever it is. *)
Definition __call__ (x0 : val) : py t unit :=
  let* self := get in
  put (set_x x0 self).

(** ** Types *)

(** The attributes are integers, as the docstring declares them. *)
Definition well_typed (self : t) : bool :=
  is_int (m self) && is_int (a self) && is_int (c self) && is_int (x self).

(** The object of [Iterator] that an object with integer attributes stands
    for. *)
Definition erase (self : t) : option Aleat.t :=
  vm ← as_int (m self); va ← as_int (a self);
  vc ← as_int (c self); vx ← as_int (x self);
  Some (Aleat.mk vm va vc vx).

(** The object of this file that an object of [Iterator] stands for. *)
Definition inject (s : Aleat.t) : t :=
  {| m := VInt (Aleat.m s); a := VInt (Aleat.a s);
     c := VInt (Aleat.c s); x := VInt (Aleat.x s) |}.

(** A method call with its argument. *)
Inductive call : Set :=
| CallNext
| CallCall (x0 : val).

Definition do_call (k : call) (self : t) : t :=
  match k with
  | CallNext => (__next__ self).2
  | CallCall x0 => (__call__ x0 self).2
  end.

(** The seed of a call, if it has one, is an integer. *)
Definition int_call (k : call) : bool :=
  match k with
  | CallNext => true
  | CallCall x0 => is_int x0
  end.

(** ** Operators *)

Lemma is_int_as_int v : is_int v = true <-> exists n, as_int v = Some n.
Proof. unfold is_int. rewrite bool_decide_eq_true. reflexivity. Qed.

Lemma binop_int f u v p q :
  as_int u = Some p -> as_int v = Some q -> binop f u v = result_map VInt (f p q).
Proof. unfold binop. by intros -> ->. Qed.

Lemma binop_raise_l f u v : as_int u = None -> binop f u v = Raise TypeError.
Proof. unfold binop. by intros ->. Qed.

Lemma binop_raise_r f u v : as_int v = None -> binop f u v = Raise TypeError.
Proof. unfold binop. intros ->. by destruct (as_int u). Qed.

(** ** The methods on integers *)

(** On an object with integer attributes [__next__] is the [__next__] of
    [Iterator]: same outcome, and the object left stands for the same
    object. *)
Lemma next_erase self s :
  erase self = Some s ->
  (__next__ self).1 = result_map VInt (Aleat.__next__ s).1
  /\ erase (__next__ self).2 = Some (Aleat.__next__ s).2.
Proof.
  destruct self as [vm va vc vx]. unfold erase. cbn [m a c x].
  destruct (as_int vm) as [zm|] eqn:Em; [|done].
  destruct (as_int va) as [za|] eqn:Ea; [|done].
  destruct (as_int vc) as [zc|] eqn:Ec; [|done].
  destruct (as_int vx) as [zx|] eqn:Ex; [|done].
  intros [= <-]. unfold __next__, py_mul, py_add, py_rem. py_unfold. cbn [m a c x].
  rewrite (binop_int _ va vx za zx Ea Ex). cbn [result_map].
  rewrite (binop_int _ (VInt _) vc _ zc eq_refl Ec). cbn [result_map].
  rewrite (binop_int _ (VInt _) vm _ zm eq_refl Em).
  destruct (decide (zm = 0)) as [->|Hm].
  - rewrite Aleat.next_raise by done. cbn. by rewrite Em, Ea, Ec, Ex.
  - rewrite Aleat.next_ok by done. rewrite py_mod_nonzero by done.
    cbn. by rewrite Em, Ea, Ec.
Qed.

Lemma erase_well_typed self : well_typed self = true <-> is_Some (erase self).
Proof.
  destruct self as [vm va vc vx]. unfold well_typed, erase, is_int. cbn [m a c x].
  rewrite !andb_true_iff, !bool_decide_eq_true.
  destruct (as_int vm), (as_int va), (as_int vc), (as_int vx); cbn;
    split; try (intros [[[[? ?] [? ?]] [? ?]] [? ?]]); try (intros [? ?]); eauto; done.
Qed.

Lemma erase_inject s : erase (inject s) = Some s.
Proof. by destruct s. Qed.

Lemma call_erase x0 n self s :
  as_int x0 = Some n -> erase self = Some s ->
  erase (__call__ x0 self).2 = Some (Aleat.__call__ n s).2.
Proof.
  intros Hx. destruct self as [vm va vc vx]. unfold erase. cbn.
  destruct (as_int vm), (as_int va), (as_int vc), (as_int vx); try done.
  intros [= <-]. by rewrite Hx.
Qed.

(** Calls with integer seeds keep the attributes integers. *)
Lemma do_call_well_typed k self :
  int_call k = true -> well_typed self = true -> well_typed (do_call k self) = true.
Proof.
  rewrite !erase_well_typed. intros Hk [s Hs]. destruct k as [|x0]; cbn [do_call int_call] in *.
  - destruct (next_erase self s Hs) as [_ ->]. eauto.
  - apply is_int_as_int in Hk as [n Hn]. rewrite (call_erase x0 n self s Hn Hs). eauto.
Qed.

(** ** A seed that is not an integer *)

(** With [x] set to [None] the product of line 56 raises [TypeError] and
    the object keeps its attributes. *)
Lemma next_none self :
  x self = VNone -> __next__ self = (Raise TypeError, self).
Proof.
  intros Hx. unfold __next__, py_mul. py_unfold.
  by rewrite binop_raise_r by (by rewrite Hx).
Qed.

End Dyn.

(** ** Properties *)

(** C7: the attributes stay integers.  If [__init__] is given integers
    (or nothing) and every seed passed to [__call__] is an integer, then
    after any sequence of calls the attributes are integers, [__next__]
    does not raise [TypeError], and the value it returns is an [int], never
    a [bool] or [None]. *)
Theorem attributes_stay_int (vm va vc vx0 : option Dyn.val) (ks : list Dyn.call) :
  Dyn.well_typed (Dyn.__init__ vm va vc vx0) = true ->
  forallb Dyn.int_call ks = true ->
  let self := foldl (fun s k => Dyn.do_call k s) (Dyn.__init__ vm va vc vx0) ks in
  Dyn.well_typed self = true
  /\ (Dyn.__next__ self).1 <> Raise TypeError
  /\ forall v, (Dyn.__next__ self).1 = Ok v -> exists n, v = Dyn.VInt n.
Proof.
  intros H0 Hks self.
  assert (Dyn.well_typed self = true) as Hwt.
  { subst self. revert H0. generalize (Dyn.__init__ vm va vc vx0).
    induction ks as [|k ks IH]; intros s Hs; [done|].
    cbn in Hks. apply andb_true_iff in Hks as [Hk Hks].
    cbn [foldl]. apply IH; [done|]. by apply Dyn.do_call_well_typed. }
  split; [done|].
  apply Dyn.erase_well_typed in Hwt as [s Hs].
  destruct (Dyn.next_erase self s Hs) as [-> _].
  destruct (decide (Aleat.m s = 0)) as [Hm|Hm].
  - rewrite Aleat.next_raise by done. by split.
  - rewrite Aleat.next_ok by done. split; [done|]. intros v [= <-]. by eexists.
Qed.

Lemma attributes_stay_int_witness :
  Dyn.well_typed
    (foldl (fun s k => Dyn.do_call k s)
       (Dyn.__init__ (Some (Dyn.VInt 32)) (Some (Dyn.VInt 9)) (Some (Dyn.VBool true)) None)
       [Dyn.CallNext; Dyn.CallCall (Dyn.VInt 29)]) = true
  /\ (Dyn.__next__
        (foldl (fun s k => Dyn.do_call k s)
           (Dyn.__init__ (Some (Dyn.VInt 32)) (Some (Dyn.VInt 9)) (Some (Dyn.VBool true)) None)
           [Dyn.CallNext; Dyn.CallCall (Dyn.VInt 29)])).1 <> Raise TypeError
  /\ forall v,
       (Dyn.__next__
          (foldl (fun s k => Dyn.do_call k s)
             (Dyn.__init__ (Some (Dyn.VInt 32)) (Some (Dyn.VInt 9)) (Some (Dyn.VBool true)) None)
             [Dyn.CallNext; Dyn.CallCall (Dyn.VInt 29)])).1 = Ok v ->
       exists n, v = Dyn.VInt n.
Proof.
  apply (attributes_stay_int (Some (Dyn.VInt 32)) (Some (Dyn.VInt 9)) (Some (Dyn.VBool true))
           None [Dyn.CallNext; Dyn.CallCall (Dyn.VInt 29)]); reflexivity.
Defined.

(** C40: a seed [None] disables the object.  [rand(None)] is accepted and
    stored; from then on every [next(rand)] raises [TypeError] and leaves
    the object as it is, until another seed is given.  (On the generator,
    [send(None)] is [next].) *)
Theorem none_seed_disables (self : Dyn.t) (n : nat) :
  (Dyn.__call__ Dyn.VNone self).1 = Ok ()
  /\ for_range (S n) Dyn.__next__ (Dyn.__call__ Dyn.VNone self).2
     = ([Raise TypeError], Dyn.set_x Dyn.VNone self).
Proof.
  split; [done|].
  by rewrite (for_range_S_raise n _ _ TypeError (Dyn.set_x Dyn.VNone self))
    by (by apply Dyn.next_none).
Qed.
