(* ===== verification/Store.v ===== *)
(** * Store: [Aleat] objects by reference (src/aleatorios.py, lines 46-60)

    In [Iterator] an object is the value of its attributes.  Python passes
    objects by reference: a method receives [self], a reference, and reads
    and writes the attributes of the object it refers to.  [iter(rand)]
    returns what [__iter__] returns, which is [self] (line 53), so the
    iterator a [for] loop draws from and the object the caller holds are
    one object, while two calls of [Aleat(...)] give two objects.

    The heap is a finite map from references to attribute records.  The
    methods are written against the heap with the reference [self], from
    [getattr], [setattr_x] and [lift], statement by statement as in the
    source; a computation of this kind can read and write any object of
    the heap, so that a method touches its own object only is a property
    of its body ([local]), not of its type.  A call on a reference that is
    not in the heap has no result ([None]).

    The lemmas show that each method does on the object of [self] what the
    method of [Iterator] does on the record, and nothing else; the theorems
    that [iter(rand)] is [rand], that objects are independent, that in a
    session of commands on several objects ([session]) each object sees
    its own commands only, and that objects made with the same arguments
    give the same values. *)

From Stdlib Require Import ZArith Lia List.
From stdpp Require Import prelude gmap.
From S2P Require Import Prelude Engine Stream Iterator.

#[local] Open Scope Z_scope.

Module Store.

(** ** The heap *)

(** References are positive numbers; the heap maps a reference to the
    attributes of its object. *)
Abbreviation loc := positive.

Abbreviation heap := (gmap loc Aleat.t).

(** A computation on the heap: no result on a dangling reference, otherwise
    a value or an exception and the heap reached. *)
Definition hp (A : Type) : Type := heap -> option (result A * heap).

Definition hret {A} (v : A) : hp A := fun h => Some (Ok v, h).

Definition hbind {A B} (e : hp A) (k : A -> hp B) : hp B :=
  fun h =>
    match e h with
    | None => None
    | Some (Ok v, h') => k v h'
    | Some (Raise x, h') => Some (Raise x, h')
    end.

(** An expression that may raise and does not touch the heap. *)
Definition lift {A} (r : result A) : hp A := fun h => Some (r, h).

(** ** Attributes *)

(** [self.f], for [f] one of [m], [a], [c], [x]. *)
Definition getattr {A} (f : Aleat.t -> A) (self : loc) : hp A :=
  fun h => s ← h !! self; Some (Ok (f s), h).

(** [self.x = v]. *)
Definition setattr_x (self : loc) (v : Z) : hp unit :=
  fun h => s ← h !! self; Some (Ok (), <[self := Aleat.set_x v s]> h).

(** ** The methods *)

(** [def __iter__(self): return self]. *)
Definition __iter__ (self : loc) : hp loc := hret self.

(** [def __next__(self)]: [self.x = (self.a * self.x + self.c) % self.m],
    then [return self.x]. *)
Definition __next__ (self : loc) : hp Z :=
  hbind (getattr Aleat.a self) (fun a =>
  hbind (getattr Aleat.x self) (fun x =>
  hbind (getattr Aleat.c self) (fun c =>
  hbind (getattr Aleat.m self) (fun m =>
  hbind (lift (lcg m a c x)) (fun v =>
  hbind (setattr_x self v) (fun _ =>
  getattr Aleat.x self)))))).

(** [def __call__(self, x0): self.x = x0]. *)
Definition __call__ (self : loc) (x0 : Z) : hp unit := setattr_x self x0.

(** ** Calls *)

(** A method called on the object that [l] refers to: the method is found
    on the object, and receives [l] as [self]. *)
Definition call_on {A} (l : loc) (meth : loc -> hp A) : hp A :=
  fun h => if h !! l is Some _ then meth l h else None.

(** [Aleat(...)]: a new object, at a reference the heap does not hold. *)
Definition new (kw : kwargs) : hp loc :=
  fun h => let l := fresh (dom h) in Some (Ok l, <[l := Aleat.__init__ kw]> h).

(** [iter(rand)]: what [__iter__] returns. *)
Definition iter (l : loc) : hp loc := call_on l __iter__.

(** [next(rand)]. *)
Definition next (l : loc) : hp Z := call_on l __next__.

(** [rand(x0)]. *)
Definition reseed (l : loc) (x0 : Z) : hp unit := call_on l (fun self => __call__ self x0).

(** [for _ in range(n): next(rand)], the values collected. *)
Fixpoint pulls (n : nat) (l : loc) : hp (list Z) :=
  match n with
  | O => hret []
  | S n' => hbind (next l) (fun v => hbind (pulls n' l) (fun vs => hret (v :: vs)))
  end.

(** ** Sessions on several objects *)

(** The commands of the contract on a reference: a plain pull is
    [next(l)], an injection is [l(seed)] followed by [next(l)]. *)
Definition exec (l : loc) (k : cmd) : hp Z :=
  match k with
  | Pull => next l
  | Inject seed => hbind (reseed l seed) (fun _ => next l)
  end.

(** A caller that holds several references and runs commands on them in
    any order: the values returned, in the order of the commands.  An
    exception ends the session. *)
Fixpoint session (ks : list (loc * cmd)) : hp (list Z) :=
  match ks with
  | [] => hret []
  | (l, k) :: ks' =>
      hbind (exec l k) (fun v => hbind (session ks') (fun vs => hret (v :: vs)))
  end.

(** The commands of a session that are run on [l], and the values that
    these commands returned. *)
Definition on (l : loc) (ks : list (loc * cmd)) : list cmd :=
  (filter (fun p => p.1 = l) ks).*2.

Definition values_on (l : loc) (ks : list (loc * cmd)) (vs : list Z) : list Z :=
  (filter (fun p => p.1.1 = l) (zip ks vs)).*2.

(** ** Observations *)

(** The reference is an object of the heap. *)
Definition valid (h : heap) (l : loc) : Prop := is_Some (h !! l).

(** The computation allocates nothing and leaves every object but that of
    [l] as it was. *)
Definition local {A} (l : loc) (e : hp A) : Prop :=
  forall h r h', e h = Some (r, h') ->
    dom h' = dom h /\ forall l', l' <> l -> h' !! l' = h !! l'.

(** ** Locality *)

Lemma local_hret {A} l (v : A) : local l (hret v).
Proof. by intros h r h' [= _ <-]. Qed.

Lemma local_lift {A} l (r : result A) : local l (lift r).
Proof. by intros h r' h' [= _ <-]. Qed.

Lemma local_getattr {A} l (f : Aleat.t -> A) : local l (getattr f l).
Proof.
  intros h r h'. unfold getattr. destruct (h !! l); [|done]. by intros [= _ <-].
Qed.

Lemma local_setattr_x l v : local l (setattr_x l v).
Proof.
  intros h r h'. unfold setattr_x. destruct (h !! l) as [s|] eqn:Hl; [|done].
  intros [= _ <-]. split.
  - apply dom_insert_lookup_L. eauto.
  - intros l' Hne. by rewrite lookup_insert_ne.
Qed.

Lemma local_hbind {A B} l (e : hp A) (k : A -> hp B) :
  local l e -> (forall v, local l (k v)) -> local l (hbind e k).
Proof.
  intros He Hk h r h'. unfold hbind.
  destruct (e h) as [[[v|x] h1]|] eqn:E; [| |done].
  - intros Hkv. destruct (He _ _ _ E) as [Hd Hf], (Hk v _ _ _ Hkv) as [Hd' Hf'].
    split; [congruence|]. intros l' Hne. by rewrite Hf', Hf.
  - intros [= <- <-]. by apply (He _ _ _ E).
Qed.

Lemma local_call_on {A} l (meth : loc -> hp A) : local l (meth l) -> local l (call_on l meth).
Proof. intros Hm h r h'. unfold call_on. destruct (h !! l); [apply Hm|done]. Qed.

#[export] Hint Resolve local_hret local_lift local_getattr local_setattr_x : py.

(** The bodies read and write the object of [self] only. *)
Lemma local_next_body self : local self (__next__ self).
Proof. unfold __next__. repeat (apply local_hbind; [auto with py|intros ?]). auto with py. Qed.

Lemma local_call_body self x0 : local self (__call__ self x0).
Proof. apply local_setattr_x. Qed.

Lemma local_next l : local l (next l).
Proof. apply local_call_on, local_next_body. Qed.

Lemma local_reseed l x0 : local l (reseed l x0).
Proof. apply local_call_on, local_call_body. Qed.

Lemma local_iter l : local l (iter l).
Proof. apply local_call_on, local_hret. Qed.

(** ** The methods against the methods of [Iterator] *)

Lemma getattr_Some {A} (f : Aleat.t -> A) l (h : heap) s :
  h !! l = Some s -> getattr f l h = Some (Ok (f s), h).
Proof. unfold getattr. by intros ->. Qed.

Lemma setattr_x_Some l v (h : heap) s :
  h !! l = Some s -> setattr_x l v h = Some (Ok (), <[l := Aleat.set_x v s]> h).
Proof. unfold setattr_x. by intros ->. Qed.

(** A method on a reference does on the object what the method of
    [Iterator] does on the record of its attributes, raising included. *)
Lemma next_refines l (h : heap) s :
  h !! l = Some s ->
  next l h = Some ((Aleat.__next__ s).1, <[l := (Aleat.__next__ s).2]> h).
Proof.
  intros Hl. unfold next, call_on, __next__, hbind, lift.
  rewrite Hl, !(getattr_Some _ l h s Hl).
  destruct (decide (Aleat.m s = 0)) as [Hm|Hm].
  - rewrite Aleat.next_raise by done. unfold lcg. rewrite Hm, py_mod_zero.
    cbn [fst snd]. by rewrite insert_id.
  - rewrite Aleat.next_ok, lcg_ok, (setattr_x_Some l _ h s Hl) by done.
    erewrite getattr_Some by apply lookup_insert_eq.
    cbn [fst snd]. by destruct s.
Qed.

Lemma reseed_refines l x0 (h : heap) s :
  h !! l = Some s ->
  reseed l x0 h = Some ((Aleat.__call__ x0 s).1, <[l := (Aleat.__call__ x0 s).2]> h).
Proof.
  intros Hl. unfold reseed, call_on, __call__. by rewrite Hl, (setattr_x_Some l x0 h s Hl).
Qed.

(** ** The calls, branch by branch *)

Lemma iter_Some l (h : heap) s : h !! l = Some s -> iter l h = Some (Ok l, h).
Proof. intros Hl. unfold iter, call_on. by rewrite Hl. Qed.

Lemma call_on_None {A} l (meth : loc -> hp A) (h : heap) :
  h !! l = None -> call_on l meth h = None.
Proof. unfold call_on. by intros ->. Qed.

Lemma next_Some l (h : heap) s :
  h !! l = Some s -> Aleat.m s <> 0 ->
  next l h
  = Some (Ok (lcg_step (Aleat.m s) (Aleat.a s) (Aleat.c s) (Aleat.x s)),
          <[l := Aleat.set_x (lcg_step (Aleat.m s) (Aleat.a s) (Aleat.c s) (Aleat.x s)) s]> h).
Proof. intros Hl Hm. by rewrite (next_refines l h s Hl), Aleat.next_ok. Qed.

Lemma next_raises_heap l (h : heap) s :
  h !! l = Some s -> Aleat.m s = 0 -> next l h = Some (Raise ZeroDivisionError, h).
Proof.
  intros Hl Hm. rewrite (next_refines l h s Hl), Aleat.next_raise by done.
  cbn [fst snd]. by rewrite insert_id.
Qed.

Lemma reseed_Some l x0 (h : heap) s :
  h !! l = Some s -> reseed l x0 h = Some (Ok (), <[l := Aleat.set_x x0 s]> h).
Proof. intros Hl. by rewrite (reseed_refines l x0 h s Hl). Qed.

Lemma new_fresh (h : heap) : h !! fresh (dom h) = None.
Proof. apply not_elem_of_dom, is_fresh. Qed.

(** A call on a valid reference has a result. *)
Lemma next_valid l (h : heap) : valid h l -> is_Some (next l h).
Proof. intros [s Hl]. rewrite (next_refines l h s Hl). eauto. Qed.

Lemma reseed_valid l x0 (h : heap) : valid h l -> is_Some (reseed l x0 h).
Proof. intros [s Hl]. rewrite (reseed_refines l x0 h s Hl). eauto. Qed.

(** An assignment to an attribute keeps every reference valid. *)
Lemma valid_insert l s (h : heap) (p : loc * cmd) :
  is_Some (h !! p.1) -> is_Some (<[l := s]> h !! p.1).
Proof.
  intros Hp. destruct (decide (p.1 = l)) as [->|Hne];
    [rewrite lookup_insert_eq|rewrite lookup_insert_ne]; eauto.
Qed.

(** [n] calls of [next] on a reference are the first [n] values of the
    recurrence from the current value of its object. *)
Lemma pulls_Some n l (h : heap) s :
  h !! l = Some s -> Aleat.m s <> 0 ->
  pulls n l h
  = Some (Ok (lcg_list (Aleat.m s) (Aleat.a s) (Aleat.c s) n (Aleat.x s)),
          <[l := Aleat.set_x (lcg_nth (Aleat.m s) (Aleat.a s) (Aleat.c s) n (Aleat.x s)) s]> h).
Proof.
  revert h s. induction n as [|n IH]; intros h s Hl Hm.
  { cbn [pulls lcg_list]. unfold hret. rewrite insert_id; [done|]. by destruct s. }
  cbn [pulls]. unfold hbind at 1. rewrite (next_Some l h s Hl Hm).
  unfold hbind, hret. erewrite IH; [|by rewrite lookup_insert_eq|done].
  cbn [Aleat.m Aleat.a Aleat.c Aleat.x Aleat.set_x lcg_list].
  rewrite insert_insert_eq, <- lcg_nth_S_r. reflexivity.
Qed.

(** [new] returns a reference that was not in the heap, bound to the
    object [__init__] makes, and keeps every other object. *)
Lemma new_Some kw (h : heap) :
  exists l, new kw h = Some (Ok l, <[l := Aleat.__init__ kw]> h) /\ h !! l = None.
Proof. exists (fresh (dom h)). split; [done|apply new_fresh]. Qed.

(** The values of [n] calls of [next] depend on the object only. *)
Lemma pulls_values n l (h h' : heap) s :
  h !! l = Some s -> h' !! l = Some s -> Aleat.m s <> 0 ->
  fst <$> pulls n l h' = fst <$> pulls n l h.
Proof. intros Hl Hl' Hm. by rewrite !(pulls_Some n l _ s). Qed.

(** ** Sessions on several objects *)

Lemma exec_refines l k (h : heap) s :
  h !! l = Some s ->
  exec l k h = Some ((Aleat.exec k s).1, <[l := (Aleat.exec k s).2]> h).
Proof.
  intros Hl. destruct k as [|seed]; [by apply next_refines|].
  unfold exec, hbind. rewrite (reseed_Some l seed h s Hl).
  rewrite (next_refines l _ (Aleat.set_x seed s)) by apply lookup_insert_eq.
  by rewrite insert_insert_eq.
Qed.

Lemma exec_Some l k (h : heap) s :
  h !! l = Some s -> Aleat.m s <> 0 ->
  exec l k h = Some (Ok (spec_next k (Aleat.view s)).1,
                     <[l := Aleat.set_x (spec_next k (Aleat.view s)).1 s]> h).
Proof. intros Hl Hm. by rewrite (exec_refines l k h s Hl), Aleat.exec_step. Qed.

Lemma on_cons_eq l k ks : on l ((l, k) :: ks) = k :: on l ks.
Proof. unfold on. by rewrite filter_cons_True. Qed.

Lemma on_cons_ne l l' k ks : l' <> l -> on l ((l', k) :: ks) = on l ks.
Proof. intros Hne. unfold on. by rewrite filter_cons_False. Qed.

Lemma values_on_cons_eq l k ks v vs :
  values_on l ((l, k) :: ks) (v :: vs) = v :: values_on l ks vs.
Proof. unfold values_on. cbn [zip zip_with]. by rewrite filter_cons_True. Qed.

Lemma values_on_cons_ne l l' k ks v vs :
  l' <> l -> values_on l ((l', k) :: ks) (v :: vs) = values_on l ks vs.
Proof. intros Hne. unfold values_on. cbn [zip zip_with]. by rewrite filter_cons_False. Qed.

Lemma session_cons l k ks (h h1 : heap) v vs h' :
  exec l k h = Some (Ok v, h1) -> session ks h1 = Some (Ok vs, h') ->
  session ((l, k) :: ks) h = Some (Ok (v :: vs), h').
Proof. intros He Hs. cbn [session]. unfold hbind, hret. by rewrite He, Hs. Qed.

End Store.

(** ** Properties *)

(** C24: [iter(rand)] is [rand].  After [it = iter(rand)], a call
    [next(it)] advances the object that [rand] refers to: [next(it)]
    followed by [next(rand)] returns two consecutive values of the
    sequence, and the heap holds one object, advanced twice. *)
Theorem iter_is_alias (h : gmap positive Aleat.t) (rand : positive) (s : Aleat.t) :
  h !! rand = Some s -> Aleat.m s <> 0 ->
  let y1 := lcg_step (Aleat.m s) (Aleat.a s) (Aleat.c s) (Aleat.x s) in
  let y2 := lcg_step (Aleat.m s) (Aleat.a s) (Aleat.c s) y1 in
  Store.hbind (Store.iter rand) (fun it =>
    Store.hbind (Store.next it) (fun v1 =>
      Store.hbind (Store.next rand) (fun v2 => Store.hret (it, v1, v2)))) h
  = Some (Ok (rand, y1, y2), <[rand := Aleat.set_x y2 s]> h).
Proof.
  intros Hl Hm y1 y2. unfold Store.hbind at 1. rewrite (Store.iter_Some rand h s Hl).
  unfold Store.hbind at 1. rewrite (Store.next_Some rand h s Hl Hm).
  unfold Store.hbind, Store.hret.
  rewrite (Store.next_Some rand _ (Aleat.set_x y1 s)); [|by rewrite lookup_insert_eq|done].
  by rewrite insert_insert_eq.
Qed.

Lemma iter_is_alias_witness :
  Store.hbind (Store.iter 1%positive) (fun it =>
    Store.hbind (Store.next it) (fun v1 =>
      Store.hbind (Store.next 1%positive) (fun v2 => Store.hret (it, v1, v2))))
    {[ 1%positive := Aleat.mk 32 9 13 11 ]}
  = Some (Ok (1%positive, lcg_step 32 9 13 11, lcg_step 32 9 13 (lcg_step 32 9 13 11)),
          <[1%positive := Aleat.set_x (lcg_step 32 9 13 (lcg_step 32 9 13 11))
                            (Aleat.mk 32 9 13 11)]>
            {[ 1%positive := Aleat.mk 32 9 13 11 ]}).
Proof.
  apply (iter_is_alias {[ 1%positive := Aleat.mk 32 9 13 11 ]} 1%positive
           (Aleat.mk 32 9 13 11)); [reflexivity|discriminate].
Defined.

(** C25: two objects share nothing.  [next(r1)] and [r1(x0)] on an
    object of the heap have a result, a value or an exception; they
    allocate nothing and leave every other object of the heap as it was:
    the bodies of [__next__] and [__call__] read and write the attributes
    of [self] only.  The values that [next] then draws from another
    reference are those it would have drawn without the call. *)
Theorem instances_independent (h : gmap positive Aleat.t) (l1 l2 : positive)
    (s1 s2 : Aleat.t) (x0 : Z) (n : nat) :
  l1 <> l2 -> h !! l1 = Some s1 -> h !! l2 = Some s2 -> Aleat.m s2 <> 0 ->
  (exists r h', Store.next l1 h = Some (r, h')
     /\ dom h' = dom h /\ h' !! l2 = Some s2
     /\ fst <$> Store.pulls n l2 h' = fst <$> Store.pulls n l2 h)
  /\ (exists r h', Store.reseed l1 x0 h = Some (r, h')
     /\ dom h' = dom h /\ h' !! l2 = Some s2
     /\ fst <$> Store.pulls n l2 h' = fst <$> Store.pulls n l2 h).
Proof.
  intros Hne Hl1 Hl2 Hm.
  assert (forall A (e : Store.hp A), Store.local l1 e -> is_Some (e h) ->
            exists r h', e h = Some (r, h') /\ dom h' = dom h /\ h' !! l2 = Some s2
              /\ fst <$> Store.pulls n l2 h' = fst <$> Store.pulls n l2 h) as Hframe.
  { intros A e He [[r h'] Hr]. destruct (He _ _ _ Hr) as [Hd Hf].
    assert (h' !! l2 = Some s2) as Hl2' by (by rewrite Hf).
    exists r, h'. eauto using Store.pulls_values. }
  assert (Store.valid h l1) as Hv by (by exists s1).
  split; apply Hframe;
    auto using Store.local_next, Store.local_reseed, Store.next_valid, Store.reseed_valid.
Qed.

Lemma instances_independent_witness :
  (exists r h',
     Store.next 1%positive
       ({[ 1%positive := Aleat.mk 32 9 13 11; 2%positive := Aleat.mk 64 5 46 36 ]}
          : gmap positive Aleat.t) = Some (r, h')
     /\ dom h' = dom ({[ 1%positive := Aleat.mk 32 9 13 11; 2%positive := Aleat.mk 64 5 46 36 ]}
                     : gmap positive Aleat.t)
     /\ h' !! 2%positive = Some (Aleat.mk 64 5 46 36)
     /\ fst <$> Store.pulls 4 2%positive h'
        = fst <$> Store.pulls 4 2%positive
            ({[ 1%positive := Aleat.mk 32 9 13 11; 2%positive := Aleat.mk 64 5 46 36 ]}
               : gmap positive Aleat.t))
  /\ (exists r h',
     Store.reseed 1%positive 29
       ({[ 1%positive := Aleat.mk 32 9 13 11; 2%positive := Aleat.mk 64 5 46 36 ]}
          : gmap positive Aleat.t) = Some (r, h')
     /\ dom h' = dom ({[ 1%positive := Aleat.mk 32 9 13 11; 2%positive := Aleat.mk 64 5 46 36 ]}
                     : gmap positive Aleat.t)
     /\ h' !! 2%positive = Some (Aleat.mk 64 5 46 36)
     /\ fst <$> Store.pulls 4 2%positive h'
        = fst <$> Store.pulls 4 2%positive
            ({[ 1%positive := Aleat.mk 32 9 13 11; 2%positive := Aleat.mk 64 5 46 36 ]}
               : gmap positive Aleat.t)).
Proof.
  apply (instances_independent
           ({[ 1%positive := Aleat.mk 32 9 13 11; 2%positive := Aleat.mk 64 5 46 36 ]}
              : gmap positive Aleat.t)
           1%positive 2%positive (Aleat.mk 32 9 13 11) (Aleat.mk 64 5 46 36) 29 4);
    [discriminate|reflexivity|reflexivity|discriminate].
Defined.

(** C32: a caller that holds several [Aleat] objects and runs [next] and
    reseed-then-[next] on them in any order.  When every object has a
    non-zero modulus and every reference is an object of the heap, each
    command returns, and each object sees the commands run on it and no
    other: its attributes at the end, and the values returned from it, are
    those of its own commands run in their order by the methods of
    [Iterator] on the record of its attributes. *)
Theorem session_refines_objects (ks : list (positive * cmd)) (h : gmap positive Aleat.t) :
  map_Forall (fun _ s => Aleat.m s <> 0) h ->
  Forall (fun p => is_Some (h !! p.1)) ks ->
  exists vs h',
    Store.session ks h = Some (Ok vs, h')
    /\ forall l s, h !! l = Some s ->
         h' !! l = Some (run_all Aleat.exec (Store.on l ks) s).2
         /\ Ok <$> Store.values_on l ks vs = (run_all Aleat.exec (Store.on l ks) s).1.
Proof.
  revert h. induction ks as [|[l k] ks IH]; intros h Hm Hv.
  { exists [], h. by split. }
  apply Forall_cons in Hv as [[s Hl] Hv]. cbn [fst] in Hl.
  pose proof (Hm l s Hl) as Hms.
  destruct (IH (<[l := Aleat.set_x (spec_next k (Aleat.view s)).1 s]> h))
    as (vs & h' & Hs & Hobj);
    [by apply map_Forall_insert_2|by eapply Forall_impl, Store.valid_insert|].
  eexists _, h'. split; [eapply Store.session_cons; [by apply Store.exec_Some|exact Hs]|].
  intros l0 s0 Hl0. destruct (decide (l0 = l)) as [->|Hne].
  - assert (s0 = s) as -> by congruence.
    destruct (Hobj l _ (lookup_insert_eq _ _ _)) as [Hh' Hvs].
    rewrite Store.on_cons_eq, Store.values_on_cons_eq.
    rewrite (run_all_cons_ok _ _ _ _ _ _ (Aleat.exec_step k s Hms)).
    cbn [fst snd]. by rewrite fmap_cons, Hvs.
  - rewrite Store.on_cons_ne, Store.values_on_cons_ne by done.
    apply Hobj. by rewrite lookup_insert_ne.
Qed.

Lemma session_refines_objects_witness :
  exists vs h',
    Store.session [(1%positive, Pull); (2%positive, Pull); (1%positive, Inject 29);
                   (2%positive, Pull)]
      ({[ 1%positive := Aleat.mk 32 9 13 11; 2%positive := Aleat.mk 64 5 46 36 ]}
         : gmap positive Aleat.t)
    = Some (Ok vs, h')
    /\ forall l s,
         ({[ 1%positive := Aleat.mk 32 9 13 11; 2%positive := Aleat.mk 64 5 46 36 ]}
            : gmap positive Aleat.t) !! l = Some s ->
         h' !! l
         = Some (run_all Aleat.exec
                   (Store.on l [(1%positive, Pull); (2%positive, Pull);
                                (1%positive, Inject 29); (2%positive, Pull)]) s).2
         /\ Ok <$> Store.values_on l
                     [(1%positive, Pull); (2%positive, Pull); (1%positive, Inject 29);
                      (2%positive, Pull)] vs
            = (run_all Aleat.exec
                 (Store.on l [(1%positive, Pull); (2%positive, Pull);
                              (1%positive, Inject 29); (2%positive, Pull)]) s).1.
Proof.
  apply (session_refines_objects
           [(1%positive, Pull); (2%positive, Pull); (1%positive, Inject 29);
            (2%positive, Pull)]
           ({[ 1%positive := Aleat.mk 32 9 13 11; 2%positive := Aleat.mk 64 5 46 36 ]}
              : gmap positive Aleat.t)).
  - apply map_Forall_insert_2; [discriminate|]. by apply map_Forall_singleton.
  - repeat constructor; by eexists.
Defined.

(** C26: two objects made with the same arguments give the same values.
    [r1 = Aleat(...)] and [r2 = Aleat(...)] are two references; [n] calls
    of [next] on the first and then [n] calls on the second return the same
    list, the first [n] values of the recurrence from [x0]. *)
Theorem fresh_instances_agree (kw : kwargs) (n : nat) (h : gmap positive Aleat.t) :
  default default_m (kw_m kw) <> 0 ->
  exists h',
    Store.hbind (Store.new kw) (fun r1 =>
      Store.hbind (Store.new kw) (fun r2 =>
        Store.hbind (Store.pulls n r1) (fun vs1 =>
          Store.hbind (Store.pulls n r2) (fun vs2 =>
            Store.hret (bool_decide (r1 = r2), vs1, vs2))))) h
    = Some (Ok (false,
                lcg_list (default default_m (kw_m kw)) (default default_a (kw_a kw))
                  (default default_c (kw_c kw)) n (default default_x0 (kw_x0 kw)),
                lcg_list (default default_m (kw_m kw)) (default default_a (kw_a kw))
                  (default default_c (kw_c kw)) n (default default_x0 (kw_x0 kw))),
            h').
Proof.
  intros Hm. destruct (Store.new_Some kw h) as (l1 & Hn1 & Hf1).
  destruct (Store.new_Some kw (<[l1 := Aleat.__init__ kw]> h)) as (l2 & Hn2 & Hf2).
  assert (l1 <> l2) as Hne by (intros <-; by rewrite lookup_insert_eq in Hf2).
  unfold Store.hbind at 1. rewrite Hn1. unfold Store.hbind at 1. rewrite Hn2.
  unfold Store.hbind at 1.
  rewrite (Store.pulls_Some n l1 _ (Aleat.__init__ kw));
    [|by rewrite lookup_insert_ne, lookup_insert_eq|done].
  unfold Store.hbind, Store.hret.
  rewrite (Store.pulls_Some n l2 _ (Aleat.__init__ kw));
    [|by rewrite lookup_insert_ne, lookup_insert_eq|done].
  rewrite bool_decide_eq_false_2 by done. eauto.
Qed.

Lemma fresh_instances_agree_witness :
  exists h',
    Store.hbind (Store.new (Kwargs (Some 32) (Some 9) (Some 13) (Some 11))) (fun r1 =>
      Store.hbind (Store.new (Kwargs (Some 32) (Some 9) (Some 13) (Some 11))) (fun r2 =>
        Store.hbind (Store.pulls 4 r1) (fun vs1 =>
          Store.hbind (Store.pulls 4 r2) (fun vs2 =>
            Store.hret (bool_decide (r1 = r2), vs1, vs2))))) ∅
    = Some (Ok (false,
                lcg_list (default default_m (Some 32)) (default default_a (Some 9))
                  (default default_c (Some 13)) 4 (default default_x0 (Some 11)),
                lcg_list (default default_m (Some 32)) (default default_a (Some 9))
                  (default default_c (Some 13)) 4 (default default_x0 (Some 11))),
            h').
Proof.
  apply (fresh_instances_agree (Kwargs (Some 32) (Some 9) (Some 13) (Some 11)) 4 ∅).
  discriminate.
Defined.
