(* ===== verification/Width.v ===== *)
(** * Width: the step in machine integers

    Python integers are unbounded, so [(a * x + c) % m] never overflows.
    The specification warns that with the default parameters the product
    [a * x] is close to [2^83].  This file measures the intermediate value
    and shows what a port to [w]-bit unsigned integers computes:
    [lcg_step_w] is the step with the product and the sum wrapped to [w]
    bits.  When the modulus divides [2^w] the wrapped step is the step of the
    program, and for a modulus [2^k] the remainder is a mask with [k]
    ones. *)

From Stdlib Require Import ZArith Lia List.
From stdpp Require Import prelude.
From S2P Require Import Prelude Engine Stream Iterator.

#[local] Open Scope Z_scope.

(** ** Definitions *)

(** The value of [z] in a [w]-bit unsigned register. *)
Definition wrap (w z : Z) : Z := z mod 2 ^ w.

(** The step in [w]-bit unsigned arithmetic: the product and the sum wrap. *)
Definition lcg_step_w (w m a c x : Z) : Z :=
  wrap w (wrap w (a * x) + c) mod m.

(** The step with a mask for the remainder, for a modulus [2^k]. *)
Definition lcg_step_mask (k a c x : Z) : Z := Z.land (a * x + c) (Z.ones k).

(** The object holds the default parameters and a value of the sequence. *)
Definition default_object (self : Aleat.t) : Prop :=
  Aleat.m self = default_m /\ Aleat.a self = default_a /\ Aleat.c self = default_c
  /\ Aleat.in_range self.

(** ** The wrapped step *)

Section WithWidth.
Context (w : Z) (Hw : 0 <= w).

Lemma wrap_range z : 0 <= wrap w z < 2 ^ w.
Proof. apply Z.mod_pos_bound. by apply Z.pow_pos_nonneg. Qed.

Lemma wrap_small z : 0 <= z < 2 ^ w -> wrap w z = z.
Proof. apply Z.mod_small. Qed.

(** Wrapping the product before the sum changes nothing modulo [2^w]. *)
Lemma wrap_affine a c x : wrap w (wrap w (a * x) + c) = wrap w (a * x + c).
Proof. unfold wrap. by rewrite Zplus_mod_idemp_l. Qed.

(** When [m] divides [2^w] the wrapped step is the step. *)
Lemma lcg_step_w_divide m a c x :
  (m | 2 ^ w) -> lcg_step_w w m a c x = lcg_step m a c x.
Proof.
  intros Hm. unfold lcg_step_w, lcg_step. rewrite wrap_affine.
  by apply Z.mod_mod_divide.
Qed.

(** When the step does not overflow the wrapped step is the step. *)
Lemma lcg_step_w_small m a c x :
  0 <= a * x -> 0 <= c -> a * x + c < 2 ^ w ->
  lcg_step_w w m a c x = lcg_step m a c x.
Proof.
  intros Ha Hc Hs. unfold lcg_step_w, lcg_step.
  rewrite wrap_affine, wrap_small; [done|lia].
Qed.

End WithWidth.

Lemma pow2_divide (k w : Z) : 0 <= k <= w -> (2 ^ k | 2 ^ w).
Proof.
  intros Hk. exists (2 ^ (w - k)). rewrite <- Z.pow_add_r by lia. f_equal. lia.
Qed.

Lemma lcg_step_mask_pow2 k a c x :
  0 <= k -> lcg_step_mask k a c x = lcg_step (2 ^ k) a c x.
Proof. intros Hk. unfold lcg_step_mask, lcg_step. by apply Z.land_ones. Qed.

(** ** The default parameters *)

Lemma default_sum_bound x :
  0 <= x < default_m -> 0 <= default_a * x + default_c < 2 ^ 83.
Proof. unfold default_m, default_a, default_c. intros Hx. lia. Qed.

(** The largest value of the sequence overflows 64 bits. *)
Lemma default_sum_overflows_64 :
  2 ^ 64 <= default_a * (default_m - 1) + default_c.
Proof. by vm_compute. Qed.

(** ** Properties *)

(** With the default parameters the intermediate value
    [a * x + c] of [__next__] is below [2^83], and the value returned is
    its 48 low bits. *)
Theorem default_next_bound (self : Aleat.t) :
  default_object self ->
  0 <= Aleat.a self * Aleat.x self + Aleat.c self < 2 ^ 83
  /\ (Aleat.__next__ self).1
     = Ok (lcg_step_mask 48 (Aleat.a self) (Aleat.c self) (Aleat.x self)).
Proof.
  intros (Hm & Ha & Hc & Hx). unfold Aleat.in_range in Hx.
  rewrite Aleat.next_ok by (by rewrite Hm).
  rewrite lcg_step_mask_pow2 by done. rewrite Hm in Hx |- *. rewrite Ha, Hc.
  split; [by apply default_sum_bound|done].
Qed.

Lemma default_next_bound_witness :
  0 <= Aleat.a (Aleat.__init__ no_kwargs) * Aleat.x (Aleat.__init__ no_kwargs)
       + Aleat.c (Aleat.__init__ no_kwargs) < 2 ^ 83
  /\ (Aleat.__next__ (Aleat.__init__ no_kwargs)).1
     = Ok (lcg_step_mask 48 (Aleat.a (Aleat.__init__ no_kwargs))
             (Aleat.c (Aleat.__init__ no_kwargs)) (Aleat.x (Aleat.__init__ no_kwargs))).
Proof.
  apply (default_next_bound (Aleat.__init__ no_kwargs)).
  repeat split; vm_compute; congruence.
Defined.

(** C33: a port to 64-bit unsigned integers computes the values of the
    program.  With the default parameters, the step whose product and sum
    wrap to 64 bits returns what [__next__] returns, although the product
    overflows: the modulus [2^48] divides [2^64]. *)
Theorem wrap64_next_agrees (self : Aleat.t) :
  Aleat.m self = 2 ^ 48 ->
  (Aleat.__next__ self).1
  = Ok (lcg_step_w 64 (Aleat.m self) (Aleat.a self) (Aleat.c self) (Aleat.x self)).
Proof.
  intros Hm. rewrite Aleat.next_ok by (by rewrite Hm).
  rewrite lcg_step_w_divide; [done|]. rewrite Hm. apply pow2_divide. lia.
Qed.

Lemma wrap64_next_agrees_witness :
  (Aleat.__next__ (Aleat.mk (2 ^ 48) 25214903917 11 (2 ^ 48 - 1))).1
  = Ok (lcg_step_w 64 (2 ^ 48) 25214903917 11 (2 ^ 48 - 1)).
Proof.
  apply (wrap64_next_agrees (Aleat.mk (2 ^ 48) 25214903917 11 (2 ^ 48 - 1))).
  reflexivity.
Defined.
