(* ===== verification/Generator.v ===== *)
(** * Generator: the generator function [aleat] (src/aleatorios.py, lines 63-101)

    A call of [aleat] runs no line of the body: it returns a generator
    object whose frame holds the arguments.  [Gen.gstate] is that object at
    the points where a caller can observe it: [GCreated] before the first
    resumption (line 97 has not run), [GSuspended] at the [yield] of line 99
    (the frame holds [m], [a], [c] and the value of [x] just yielded; [x0]
    and [new_seed] are dead there), [GClosed] once an exception has left the
    body.  [Gen.send] is one resumption, from the point where the frame
    stands to the next [yield]; [Gen.next] is a resumption without a value.
    [Gen.gstep] is the same state machine as a transition relation, one rule
    for each transition.  The theorems give the behaviour of [send] on the
    branches that run lines 97-101, the invariants of the reachable states,
    and the instance of [LcgHandle]. *)

From Stdlib Require Import ZArith Lia List.
From stdpp Require Import prelude.
From S2P Require Import Prelude Engine Stream.

#[local] Open Scope Z_scope.
#[local] Open Scope py_scope.

Module Gen.

(** ** The generator object *)

Inductive gstate : Set :=
| GCreated (m a c x0 : Z)
| GSuspended (m a c x : Z)
| GClosed.

#[export] Instance gstate_eq_dec : EqDecision gstate.
Proof. solve_decision. Defined.

(** [aleat(m=..., a=..., c=..., x0=...)]: the arguments are bound, each with
    its default; the body does not start. *)
Definition aleat (kw : kwargs) : gstate :=
  GCreated (default default_m (kw_m kw)) (default default_a (kw_a kw))
           (default default_c (kw_c kw)) (default default_x0 (kw_x0 kw)).

(** ** One resumption *)

(** [if new_seed is not None: x = new_seed] (lines 100-101). *)
Definition reseed (new_seed : option Z) (x : Z) : Z :=
  match new_seed with
  | Some seed => seed
  | None => x
  end.

(** From the head of the loop to the [yield] (lines 98-99):
    [x := (a * x + c) % m] is evaluated and yielded; an exception leaves the
    body and closes the generator. *)
Definition to_yield (m a c x : Z) : result Z * gstate :=
  match lcg m a c x with
  | Ok y => (Ok y, GSuspended m a c y)
  | Raise e => (Raise e, GClosed)
  end.

(** [gen.send(v)].  A generator that has not started accepts only [None],
    and then runs [x = x0] (line 97) and enters the loop; a suspended one
    receives [v] as the value of the [yield] expression, assigned to
    [new_seed]; a closed one raises [StopIteration].  The [TypeError] of a
    value sent to a generator that has not started and the [StopIteration]
    of a closed one are not in lines 97-101: they are the rules of the
    interpreter for every generator, taken here as given.  The values sent
    are integers or [None]; a value of another type is outside the
    model. *)
Definition send (v : option Z) : py gstate Z :=
  fun g =>
    match g with
    | GCreated m a c x0 =>
        match v with
        | Some _ => (Raise TypeError, g)
        | None => to_yield m a c x0
        end
    | GSuspended m a c x => to_yield m a c (reseed v x)
    | GClosed => (Raise StopIteration, GClosed)
    end.

(** [next(gen)]. *)
Definition next : py gstate Z := send None.

(** A caller that sends the values [vs] one after the other and goes on
    after an exception: the outcomes in order and the state left. *)
Fixpoint sends (vs : list (option Z)) (g : gstate) : list (result Z) * gstate :=
  match vs with
  | [] => ([], g)
  | v :: vs' =>
      let '(r, g') := send v g in
      let '(rs, g'') := sends vs' g' in
      (r :: rs, g'')
  end.

(** ** The state machine as a relation *)

(** [gstep g v r g']: resuming [g] with [v] gives the outcome [r] and
    leaves the generator in [g']. *)
Inductive gstep : gstate -> option Z -> result Z -> gstate -> Prop :=
| step_start m a c x0 y :
    lcg m a c x0 = Ok y ->
    gstep (GCreated m a c x0) None (Ok y) (GSuspended m a c y)
| step_start_fail m a c x0 e :
    lcg m a c x0 = Raise e ->
    gstep (GCreated m a c x0) None (Raise e) GClosed
| step_start_seed m a c x0 seed :
    gstep (GCreated m a c x0) (Some seed) (Raise TypeError) (GCreated m a c x0)
| step_pull m a c x y :
    lcg m a c x = Ok y ->
    gstep (GSuspended m a c x) None (Ok y) (GSuspended m a c y)
| step_inject m a c x seed y :
    lcg m a c seed = Ok y ->
    gstep (GSuspended m a c x) (Some seed) (Ok y) (GSuspended m a c y)
| step_fail m a c x v e :
    lcg m a c (reseed v x) = Raise e ->
    gstep (GSuspended m a c x) v (Raise e) GClosed
| step_closed v :
    gstep GClosed v (Raise StopIteration) GClosed.

(** The states that resumptions produce from [g0]. *)
Inductive reachable (g0 : gstate) : gstate -> Prop :=
| reach_init : reachable g0 g0
| reach_send v g : reachable g0 g -> reachable g0 (send v g).2.

(** ** Observations *)

Definition started (g : gstate) : bool :=
  match g with GSuspended _ _ _ _ => true | _ => false end.

Definition closed (g : gstate) : bool :=
  match g with GClosed => true | _ => false end.

(** The engine state of a generator that is not closed. *)
Definition view (g : gstate) : option lcg_state :=
  match g with
  | GCreated m a c x0 => Some (LcgState m a c x0)
  | GSuspended m a c x => Some (LcgState m a c x)
  | GClosed => None
  end.

(** The commands of the contract on a generator. *)
Definition exec (k : cmd) : py gstate Z :=
  match k with
  | Pull => next
  | Inject seed => send (Some seed)
  end.

(** The value of a suspended generator is a value of the sequence. *)
Definition in_range (g : gstate) : Prop :=
  match g with
  | GSuspended m _ _ x => reduced m x
  | _ => True
  end.

(** What holds of every state reached from [GCreated m a c x0]: the
    parameters are those of the call, a suspended generator holds a reduced
    value, and only a zero modulus closes it. *)
Definition inv (m a c x0 : Z) (g : gstate) : Prop :=
  match g with
  | GCreated m' a' c' x0' => m' = m /\ a' = a /\ c' = c /\ x0' = x0
  | GSuspended m' a' c' x => m' = m /\ a' = a /\ c' = c /\ reduced m x
  | GClosed => m = 0
  end.

(** ** [send], branch by branch *)

Lemma to_yield_ok m a c x :
  m <> 0 -> to_yield m a c x = (Ok (lcg_step m a c x), GSuspended m a c (lcg_step m a c x)).
Proof. intros Hm. unfold to_yield. by rewrite lcg_ok. Qed.

Lemma to_yield_raise a c x : to_yield 0 a c x = (Raise ZeroDivisionError, GClosed).
Proof. reflexivity. Qed.

Lemma next_created m a c x0 :
  m <> 0 ->
  next (GCreated m a c x0)
  = (Ok (lcg_step m a c x0), GSuspended m a c (lcg_step m a c x0)).
Proof. apply to_yield_ok. Qed.

Lemma send_created_seed m a c x0 seed :
  send (Some seed) (GCreated m a c x0) = (Raise TypeError, GCreated m a c x0).
Proof. reflexivity. Qed.

Lemma send_suspended m a c x v :
  m <> 0 ->
  send v (GSuspended m a c x)
  = (Ok (lcg_step m a c (reseed v x)), GSuspended m a c (lcg_step m a c (reseed v x))).
Proof. apply to_yield_ok. Qed.

Lemma send_closed v : send v GClosed = (Raise StopIteration, GClosed).
Proof. reflexivity. Qed.

Lemma send_zero_modulus v g :
  (exists st, view g = Some st /\ st_m st = 0) ->
  started g = true \/ v = None ->
  send v g = (Raise ZeroDivisionError, GClosed).
Proof.
  intros (st & Hv & Hm) Hs.
  destruct g as [m a c x0|m a c x|]; simpl in *; simplify_eq/=.
  - destruct Hs as [? | ->]; done.
  - done.
Qed.

Lemma exec_ok k g st :
  view g = Some st -> st_m st <> 0 -> started g = true \/ k = Pull ->
  exec k g = (Ok (spec_next k st).1,
              GSuspended (st_m st) (st_a st) (st_c st) (spec_next k st).1).
Proof.
  intros Hv Hm Hs.
  destruct g as [m a c x0|m a c x|]; simplify_eq/=.
  - destruct Hs as [? | ->]; [done|]. by apply to_yield_ok.
  - destruct k as [|seed]; by apply to_yield_ok.
Qed.

(** ** The relation and the function agree *)

Lemma gstep_send g v r g' : gstep g v r g' <-> send v g = (r, g').
Proof.
  split.
  - destruct 1; simpl; unfold to_yield;
      repeat match goal with H : lcg _ _ _ _ = _ |- _ => rewrite H end; done.
  - destruct g as [m a c x0|m a c x|], v as [seed|]; simpl; unfold to_yield;
      try (destruct (lcg _ _ _ _) eqn:E); intros [= <- <-];
      eauto using gstep.
Qed.

(** ** Invariants *)

Lemma closed_send v g : closed g = true -> closed (send v g).2 = true.
Proof. by destruct g. Qed.

Lemma send_started v g r g' :
  send v g = (Ok r, g') -> started g' = true.
Proof.
  destruct g as [m a c x0|m a c x|], v as [seed|]; simpl; unfold to_yield;
    try (destruct (lcg _ _ _ _)); by intros [= <- <-].
Qed.

Lemma to_yield_inv m a c x0 x : inv m a c x0 (to_yield m a c x).2.
Proof.
  unfold to_yield. destruct (lcg m a c x) as [y|e] eqn:E; simpl.
  - eauto with py.
  - by apply lcg_raise_inv in E as [-> _].
Qed.

Lemma send_inv m a c x0 v g : inv m a c x0 g -> inv m a c x0 (send v g).2.
Proof.
  destruct g as [m' a' c' x0'|m' a' c' x|]; simpl.
  - intros (-> & -> & -> & ->). destruct v; [done|apply to_yield_inv].
  - intros (-> & -> & -> & _). apply to_yield_inv.
  - done.
Qed.

Lemma reachable_inv m a c x0 g :
  reachable (GCreated m a c x0) g -> inv m a c x0 g.
Proof. induction 1; [done|by apply send_inv]. Qed.

Lemma reachable_trans g0 g1 g2 : reachable g0 g1 -> reachable g1 g2 -> reachable g0 g2.
Proof. intros H1 H2. induction H2; [done|by constructor]. Qed.

End Gen.

(** ** The generator as a handle of the contract *)

#[export] Program Instance gen_handle : LcgHandle Gen.gstate := {|
  handle_exec := Gen.exec;
  handle_view := Gen.view;
  handle_started := Gen.started
|}.
Next Obligation.
  intros k g st Hv Hm Hs. eexists. rewrite spec_exec_ok by done.
  split; [by apply Gen.exec_ok|]. by destruct st.
Qed.

(** ** Properties *)

(** C2: injection semantics.  Sending a seed to a suspended generator with
    a non-zero modulus overwrites [x] with the seed, takes one step of the
    recurrence at once and returns that value, [(a * seed + c) % m], as the
    result of the same [send]; the value [x] held before plays no part.  A
    seed of zero is a seed like any other. *)
Theorem send_inject (m a c x seed : Z) :
  m <> 0 ->
  let y := (a * seed + c) mod m in
  Gen.send (Some seed) (Gen.GSuspended m a c x) = (Ok y, Gen.GSuspended m a c y).
Proof. intros Hm. by rewrite Gen.send_suspended. Qed.

Lemma send_inject_witness :
  Gen.send (Some 24) (Gen.GSuspended 64 5 46 44) = (Ok 38, Gen.GSuspended 64 5 46 38).
Proof. apply (send_inject 64 5 46 44 24). discriminate. Defined.

(** C4: a plain resumption takes one step from the value last yielded, or
    from [x0] when the generator has not started: [next] returns
    [(a * x + c) % m] and suspends the generator on it. *)
Theorem next_pull (m a c x : Z) :
  m <> 0 ->
  let y := (a * x + c) mod m in
  Gen.next (Gen.GCreated m a c x) = (Ok y, Gen.GSuspended m a c y)
  /\ Gen.next (Gen.GSuspended m a c x) = (Ok y, Gen.GSuspended m a c y).
Proof.
  intros Hm. split; [by rewrite Gen.next_created|].
  unfold Gen.next. by rewrite Gen.send_suspended.
Qed.

Lemma next_pull_witness :
  Gen.next (Gen.GCreated 64 5 46 36) = (Ok 34, Gen.GSuspended 64 5 46 34)
  /\ Gen.next (Gen.GSuspended 64 5 46 36) = (Ok 34, Gen.GSuspended 64 5 46 34).
Proof. apply (next_pull 64 5 46 36). discriminate. Defined.

(** C10: invariant of the generator.  Every state reached from a call of
    [aleat] keeps the [m], [a], [c] of the call; a suspended generator
    holds a value reduced modulo [m]; and the generator is closed only if
    the modulus is zero. *)
Theorem generator_invariant (kw : kwargs) (g : Gen.gstate) :
  Gen.reachable (Gen.aleat kw) g ->
  match g with
  | Gen.GCreated m a c x0 => Gen.GCreated m a c x0 = Gen.aleat kw
  | Gen.GSuspended m a c x =>
      m = default default_m (kw_m kw) /\ a = default default_a (kw_a kw)
      /\ c = default default_c (kw_c kw) /\ (0 <= x < m \/ m < x <= 0)
  | Gen.GClosed => default default_m (kw_m kw) = 0
  end.
Proof.
  intros H%Gen.reachable_inv. destruct g as [m a c x0|m a c x|]; simpl in H.
  - by destruct H as (-> & -> & -> & ->).
  - by destruct H as (-> & -> & -> & ?).
  - done.
Qed.

Lemma generator_invariant_witness :
  64 = default default_m (kw_m (Kwargs (Some 64) (Some 5) (Some 46) (Some 36)))
  /\ 5 = default default_a (kw_a (Kwargs (Some 64) (Some 5) (Some 46) (Some 36)))
  /\ 46 = default default_c (kw_c (Kwargs (Some 64) (Some 5) (Some 46) (Some 36)))
  /\ (0 <= 38 < 64 \/ 64 < 38 <= 0).
Proof.
  apply (generator_invariant (Kwargs (Some 64) (Some 5) (Some 46) (Some 36))
           (Gen.GSuspended 64 5 46 38)).
  apply (Gen.reach_send _ (Some 24) (Gen.GSuspended 64 5 46 34)).
  apply (Gen.reach_send _ None (Gen.GCreated 64 5 46 36)).
  apply Gen.reach_init.
Defined.

(** C11: a generator with a zero modulus raises [ZeroDivisionError] on its
    first resumption and is closed by it; a closed generator raises
    [StopIteration] on every resumption and stays closed. *)
Theorem zero_modulus_closes (a c x0 : Z) (v : option Z) :
  Gen.next (Gen.GCreated 0 a c x0) = (Raise ZeroDivisionError, Gen.GClosed)
  /\ Gen.send v Gen.GClosed = (Raise StopIteration, Gen.GClosed)
  /\ forall g, Gen.reachable Gen.GClosed g -> g = Gen.GClosed.
Proof.
  split; [done|]. split; [done|].
  induction 1 as [|v' g _ ->]; done.
Qed.

(** The transition relation [gstep] and the function [send] are the
    same state machine: a transition is derivable exactly when [send]
    computes it.  The relation is therefore total and deterministic. *)
Theorem gstep_iff_send (g g' : Gen.gstate) (v : option Z) (r : result Z) :
  Gen.gstep g v r g' <-> Gen.send v g = (r, g').
Proof. apply Gen.gstep_send. Qed.
