(* ===== verification/Frame.v ===== *)
(** * Frame: the body of [aleat], statement by statement
    (src/aleatorios.py, lines 97-101)

    [Generator] describes the generator object at the points where a caller
    observes it.  This file justifies that description from the body of
    the function: a frame holds the parameters, the locals [x] and
    [new_seed] (each unbound until its first assignment) and the line about
    to run; [step] runs one statement; [send] resumes the frame and runs it
    to the next [yield].  The theorems show that a resumption always ends,
    within five statements; that no statement reads an unbound local or
    multiplies by [None]; and that [send] on frames is [Gen.send] on the
    states of [Generator]. *)

From Stdlib Require Import ZArith Lia List.
From stdpp Require Import prelude.
From S2P Require Import Prelude Engine Stream Generator.

#[local] Open Scope Z_scope.

Module Frame.

(** ** The frame *)

(** The line about to run.  [L99] is the evaluation of the [yield]
    expression, [L99r] the assignment [new_seed = ...] that completes line
    99 when the generator is resumed; [Lend] is a finished frame. *)
Inductive pc : Set :=
| L97
| L98
| L99
| L99r
| L100
| L101
| Lend.

#[export] Instance pc_eq_dec : EqDecision pc.
Proof. solve_decision. Defined.

(** The values the locals hold: [None] or an integer. *)
Inductive val : Set :=
| PyNone
| PyInt (n : Z).

#[export] Instance val_eq_dec : EqDecision val.
Proof. solve_decision. Defined.

(** The argument of [send] as a value: [next] sends [None]. *)
Definition to_val (v : option Z) : val :=
  match v with
  | None => PyNone
  | Some n => PyInt n
  end.

(** A frame of [aleat]: the line, the four parameters, and the two locals,
    [None] while unbound. *)
Record frame : Set := mk {
  line : pc;
  m : Z;
  a : Z;
  c : Z;
  x0 : Z;
  x : option val;
  new_seed : option val
}.

Definition goto (l : pc) (f : frame) : frame :=
  {| line := l; m := m f; a := a f; c := c f; x0 := x0 f;
     x := x f; new_seed := new_seed f |}.

Definition set_x (v : val) (f : frame) : frame :=
  {| line := line f; m := m f; a := a f; c := c f; x0 := x0 f;
     x := Some v; new_seed := new_seed f |}.

Definition set_new_seed (v : val) (f : frame) : frame :=
  {| line := line f; m := m f; a := a f; c := c f; x0 := x0 f;
     x := x f; new_seed := Some v |}.

(** The call [aleat(...)]: the parameters are bound, nothing has run. *)
Definition call (kw : kwargs) : frame :=
  {| line := L97;
     m := default default_m (kw_m kw);
     a := default default_a (kw_a kw);
     c := default default_c (kw_c kw);
     x0 := default default_x0 (kw_x0 kw);
     x := None; new_seed := None |}.

(** ** One statement *)

(** What a statement does: control goes on, a value is yielded and the
    frame is suspended, or an exception leaves the body and the frame is
    finished. *)
Inductive outcome : Set :=
| Running (f : frame)
| Yielded (v : Z) (f : frame)
| Thrown (e : exn) (f : frame).

(** The expression [(a * x + c) % m] of line 99 on the local [x]. *)
Definition eval_next (f : frame) : result Z :=
  match x f with
  | None => Raise UnboundLocalError
  | Some PyNone => Raise TypeError
  | Some (PyInt n) => lcg (m f) (a f) (c f) n
  end.

(** The statement at the current line; [sent] is the value this resumption
    passed in, which the assignment of line 99 stores in [new_seed]. *)
Definition step (sent : val) (f : frame) : outcome :=
  match line f with
  | L97 => Running (goto L98 (set_x (PyInt (x0 f)) f))
  | L98 => Running (goto L99 f)
  | L99 =>
      match eval_next f with
      | Ok y => Yielded y (goto L99r (set_x (PyInt y) f))
      | Raise e => Thrown e (goto Lend f)
      end
  | L99r => Running (goto L100 (set_new_seed sent f))
  | L100 =>
      match new_seed f with
      | None => Thrown UnboundLocalError (goto Lend f)
      | Some PyNone => Running (goto L98 f)
      | Some (PyInt _) => Running (goto L101 f)
      end
  | L101 =>
      match new_seed f with
      | None => Thrown UnboundLocalError (goto Lend f)
      | Some v => Running (goto L98 (set_x v f))
      end
  | Lend => Thrown StopIteration f
  end.

(** ** One resumption *)

(** Run statements until the frame yields or an exception leaves it;
    [None] when [fuel] statements were not enough. *)
Fixpoint run (fuel : nat) (sent : val) (f : frame) : option (result Z * frame) :=
  match fuel with
  | O => None
  | S fuel' =>
      match step sent f with
      | Running f' => run fuel' sent f'
      | Yielded v f' => Some (Ok v, f')
      | Thrown e f' => Some (Raise e, f')
      end
  end.

(** The longest path between two [yield]s: lines 99 (assignment), 100, 101,
    98, 99. *)
Definition fuel_bound : nat := 5.

(** [generator.send(v)]: a frame that has not started accepts only [None];
    a frame in the middle of a statement cannot be resumed. *)
Definition send (v : option Z) (f : frame) : option (result Z * frame) :=
  match line f, v with
  | L97, Some _ => Some (Raise TypeError, f)
  | L97, None | L99r, _ | Lend, _ => run fuel_bound (to_val v) f
  | _, _ => Some (Raise ValueError, f)
  end.

(** ** The states of [Generator] *)

(** The frame is at a point where a caller can observe it. *)
Definition at_rest (f : frame) : bool :=
  match line f with
  | L97 | L99r | Lend => true
  | _ => false
  end.

(** The state of [Generator] a frame at rest stands for. *)
Definition abs (f : frame) : option Gen.gstate :=
  match line f, x f with
  | L97, _ => Some (Gen.GCreated (m f) (a f) (c f) (x0 f))
  | L99r, Some (PyInt n) => Some (Gen.GSuspended (m f) (a f) (c f) n)
  | Lend, _ => Some Gen.GClosed
  | _, _ => None
  end.

(** The frame after an outcome. *)
Definition frame_of (o : outcome) : frame :=
  match o with
  | Running f | Yielded _ f | Thrown _ f => f
  end.

(** The frames that statements produce from [f0]. *)
Inductive reachable (f0 : frame) : frame -> Prop :=
| reach_refl : reachable f0 f0
| reach_step sent f : reachable f0 f -> reachable f0 (frame_of (step sent f)).

Definition is_int (v : option val) : Prop := exists n, v = Some (PyInt n).

(** Every local is bound, and holds an integer, where the line reads it as
    one. *)
Definition bound (f : frame) : Prop :=
  match line f with
  | L97 | Lend => True
  | L98 | L99 | L99r => is_int (x f)
  | L100 => is_int (x f) /\ new_seed f <> None
  | L101 => is_int (x f) /\ is_int (new_seed f)
  end.

(** The four parameters of two frames agree. *)
Definition same_params (f1 f2 : frame) : Prop :=
  m f1 = m f2 /\ a f1 = a f2 /\ c f1 = c f2 /\ x0 f1 = x0 f2.

(** A caller that sends the values [vs] one after the other and goes on
    after an exception; [None] when a resumption ran out of fuel. *)
Fixpoint sends (vs : list (option Z)) (f : frame) : option (list (result Z) * frame) :=
  match vs with
  | [] => Some ([], f)
  | v :: vs' =>
      '(r, f') ← send v f;
      '(rs, f'') ← sends vs' f';
      Some (r :: rs, f'')
  end.

(** The number of statements from a line to the next [yield], at most. *)
Definition dist (l : pc) : nat :=
  match l with
  | L99 | Lend => 1
  | L98 => 2
  | L97 | L101 => 3
  | L100 => 4
  | L99r => 5
  end.

(** ** One statement, line by line *)

Lemma eval_next_int f n :
  x f = Some (PyInt n) -> eval_next f = lcg (m f) (a f) (c f) n.
Proof. unfold eval_next. by intros ->. Qed.

Lemma step_same_params sent f : same_params (frame_of (step sent f)) f.
Proof.
  unfold step. destruct (line f); try done.
  - by destruct (eval_next f).
  - by destruct (new_seed f) as [[|s]|].
  - by destruct (new_seed f).
Qed.

Lemma step_bound sent f : bound f -> bound (frame_of (step sent f)).
Proof.
  unfold bound at 1, step. destruct (line f) eqn:Hl; cbn; try (by eauto).
  - intros _. by eexists.
  - intros [n Hx]. rewrite (eval_next_int f n Hx).
    destruct (lcg _ _ _ _); [by eexists|done].
  - intros [Hx Hs]. destruct (new_seed f) as [[|s]|] eqn:E; [done| |done].
    unfold bound; cbn. rewrite E. split; [done|by eexists].
  - intros [_ [s ->]]. by eexists.
  - intros _. unfold bound. by rewrite Hl.
Qed.

(** Every statement that goes on comes closer to the [yield]. *)
Lemma step_dist sent f f' :
  step sent f = Running f' -> (dist (line f') < dist (line f))%nat.
Proof.
  unfold step. destruct (line f); try (intros [= <-]; cbn; lia); try done.
  - by destruct (eval_next f).
  - destruct (new_seed f) as [[|s]|]; [intros [= <-]; cbn; lia..|done].
  - destruct (new_seed f); [intros [= <-]; cbn; lia|done].
Qed.

(** A statement of a frame whose locals are bound raises only the
    [ZeroDivisionError] of line 99. *)
Lemma step_thrown sent f e f' :
  bound f -> step sent f = Thrown e f' ->
  (line f = L99 /\ m f = 0 /\ e = ZeroDivisionError)
  \/ (line f = Lend /\ e = StopIteration).
Proof.
  unfold bound, step. destruct (line f) eqn:Hl; try done.
  - intros [n Hx]. rewrite (eval_next_int f n Hx). unfold lcg, py_mod.
    destruct (m f =? 0) eqn:E; [|done]. intros [= <- _]. left. by apply Z.eqb_eq in E.
  - intros [_ Hs]. by destruct (new_seed f) as [[|s]|].
  - intros [_ [s ->]]. done.
  - intros _ [= <- _]. by right.
Qed.

(** ** Invariants of the reachable frames *)

Lemma call_bound kw : bound (call kw).
Proof. done. Qed.

Lemma reachable_bound f0 f : bound f0 -> reachable f0 f -> bound f.
Proof. intros H0. induction 1; [done|by apply step_bound]. Qed.

#[export] Instance same_params_equiv : Equivalence same_params.
Proof.
  split.
  - done.
  - by intros f1 f2 (? & ? & ? & ?).
  - intros f1 f2 f3 (? & ? & ? & ?) (? & ? & ? & ?). repeat split; congruence.
Qed.

Lemma reachable_frame_params f0 f : reachable f0 f -> same_params f f0.
Proof.
  induction 1 as [|sent f _ IH]; [reflexivity|].
  etransitivity; [apply step_same_params|exact IH].
Qed.

(** ** One resumption *)

(** A statement that yields leaves the frame suspended at line 99; one that
    raises leaves it finished. *)
Lemma step_rest sent f :
  match step sent f with
  | Running _ => True
  | Yielded _ f' => line f' = L99r
  | Thrown _ f' => line f' = Lend
  end.
Proof.
  unfold step. destruct (line f) eqn:Hl; try done.
  - by destruct (eval_next f).
  - by destruct (new_seed f) as [[|s]|].
  - by destruct (new_seed f).
Qed.

Lemma run_at_rest fuel sent f r f' :
  run fuel sent f = Some (r, f') -> at_rest f' = true.
Proof.
  revert f. induction fuel as [|fuel IH]; intros f; [done|]. cbn [run].
  pose proof (step_rest sent f) as Hs.
  destruct (step sent f); [apply IH|intros [= _ <-]..]; unfold at_rest; by rewrite Hs.
Qed.

(** A resumption ends when the fuel covers the distance to the [yield]. *)
Lemma run_dist fuel sent f :
  (dist (line f) <= fuel)%nat -> is_Some (run fuel sent f).
Proof.
  revert f. induction fuel as [|fuel IH]; intros f Hd.
  { destruct (line f); cbn in Hd; lia. }
  cbn [run]. destruct (step sent f) as [f'| |] eqn:E; [|done..].
  apply IH. apply step_dist in E. lia.
Qed.

(** Five statements are enough fuel from any line. *)
Lemma run_total sent f : is_Some (run fuel_bound sent f).
Proof. apply run_dist. unfold fuel_bound. destruct (line f); cbn; lia. Qed.

(** A resumption from the head of the loop is [Gen.to_yield]. *)
Lemma run_to_yield fuel sent f n :
  line f = L98 -> x f = Some (PyInt n) ->
  exists f', run (S (S fuel)) sent f = Some ((Gen.to_yield (m f) (a f) (c f) n).1, f')
    /\ abs f' = Some (Gen.to_yield (m f) (a f) (c f) n).2.
Proof.
  intros Hl Hx. unfold Gen.to_yield. cbn [run]. unfold step at 1. rewrite Hl.
  unfold step at 1. cbn [goto line]. rewrite (eval_next_int _ n) by done.
  cbn [goto m a c]. destruct (lcg _ _ _ _) as [y|e]; eauto.
Qed.

(** [send] on a frame at rest is [Gen.send] on the state it stands for. *)
Lemma send_abs v f g :
  abs f = Some g ->
  exists f', send v f = Some ((Gen.send v g).1, f') /\ abs f' = Some (Gen.send v g).2.
Proof.
  unfold abs. destruct (line f) eqn:Hl; try done.
  - intros [= <-]. unfold send. rewrite Hl. destruct v as [seed|].
    + exists f. split; [done|]. unfold abs. by rewrite Hl.
    + unfold fuel_bound. cbn [run]. unfold step at 1. rewrite Hl.
      apply (run_to_yield 2 PyNone (goto L98 (set_x (PyInt (x0 f)) f)) (x0 f)); done.
  - destruct (x f) as [[|n]|] eqn:Hx; try done. intros [= <-].
    unfold send. rewrite Hl. unfold fuel_bound. cbn [run]. unfold step at 1. rewrite Hl.
    unfold step at 1. cbn [goto line set_new_seed new_seed]. destruct v as [seed|]; cbn [to_val].
    + unfold step at 1. cbn [goto line set_new_seed new_seed].
      apply (run_to_yield 0 (PyInt seed)
               (goto L98 (set_x (PyInt seed) (goto L101 (goto L100 (set_new_seed (PyInt seed) f)))))
               seed); done.
    + apply (run_to_yield 1 PyNone (goto L98 (goto L100 (set_new_seed PyNone f))) n); done.
  - intros [= <-]. exists f. unfold send, abs. rewrite Hl. cbn. unfold step. rewrite Hl. done.
Qed.

(** A session of sends on frames is the session on the states. *)
Lemma sends_abs vs f g :
  abs f = Some g ->
  exists f', sends vs f = Some ((Gen.sends vs g).1, f') /\ abs f' = Some (Gen.sends vs g).2.
Proof.
  revert f g. induction vs as [|v vs IH]; intros f g Hf; [by exists f|].
  destruct (send_abs v f g Hf) as (f1 & Hs & Hf1).
  destruct (IH f1 _ Hf1) as (f2 & Hss & Hf2).
  exists f2. cbn [sends Gen.sends]. rewrite Hs. cbn. rewrite Hss. cbn.
  destruct (Gen.send v g) as [r g1]. cbn in *. by destruct (Gen.sends vs g1).
Qed.

(** The session of the docstring of [aleat], run statement by statement. *)
Example sends_doctest :
  fst <$> sends [None; None; None; None; Some 24; None; None; None; None]
            (call (Kwargs (Some 64) (Some 5) (Some 46) (Some 36)))
  = Some (Ok <$> [34; 24; 38; 44; 38; 44; 10; 32; 14]).
Proof. vm_compute. reflexivity. Qed.

End Frame.

(** ** Properties *)

(** C21: the body of [aleat] implements the generator object of
    [Generator].  Whatever values a caller sends to a generator made by
    [aleat(...)], every resumption of the frame ends within its fuel, the
    results are those of [Gen.send], exceptions included, and the frame is
    left at the point the state of [Generator] stands for. *)
Theorem frame_refines_generator (kw : kwargs) (vs : list (option Z)) :
  exists f',
    Frame.sends vs (Frame.call kw) = Some ((Gen.sends vs (Gen.aleat kw)).1, f')
    /\ Frame.abs f' = Some (Gen.sends vs (Gen.aleat kw)).2.
Proof. by apply Frame.sends_abs. Qed.

(** C22: a resumption always ends.  From any frame, [send] returns within
    five statements, and a frame at rest is left at rest: not started,
    suspended at the [yield] of line 99, or finished.  The loop
    [while True] never ends by itself. *)
Theorem send_terminates (v : option Z) (f : Frame.frame) :
  exists r f',
    Frame.send v f = Some (r, f')
    /\ (Frame.at_rest f = true -> Frame.at_rest f' = true).
Proof.
  unfold Frame.send.
  destruct (Frame.run_total (Frame.to_val v) f) as [[r f'] Hr].
  pose proof (Frame.run_at_rest _ _ _ _ _ Hr) as Hrest.
  destruct (Frame.line f), v; rewrite ?Hr; eauto.
Qed.

(** C23: the body reads no unbound local and multiplies no [None].  In a
    frame reached from the call [aleat(...)], whatever values are sent, a
    statement raises only the [ZeroDivisionError] of line 99, when [m] is
    zero; [StopIteration] comes from a finished frame only. *)
Theorem body_raises_only_zero_division (kw : kwargs) (sent : Frame.val)
    (f f' : Frame.frame) (e : exn) :
  Frame.reachable (Frame.call kw) f ->
  Frame.step sent f = Frame.Thrown e f' ->
  (Frame.line f = Frame.L99 /\ default default_m (kw_m kw) = 0 /\ e = ZeroDivisionError)
  \/ (Frame.line f = Frame.Lend /\ e = StopIteration).
Proof.
  intros Hr Hs.
  pose proof (Frame.reachable_bound _ _ (Frame.call_bound kw) Hr) as Hb.
  destruct (Frame.reachable_frame_params _ _ Hr) as (Hm & _).
  destruct (Frame.step_thrown sent f e f' Hb Hs) as [(? & ? & ?)|?]; [left|by right].
  cbn in Hm. repeat split; congruence.
Qed.

Lemma body_raises_only_zero_division_witness :
  (Frame.line (Frame.mk Frame.L99 0 5 46 36 (Some (Frame.PyInt 36)) None) = Frame.L99
   /\ default default_m (kw_m (Kwargs (Some 0) (Some 5) (Some 46) (Some 36))) = 0
   /\ ZeroDivisionError = ZeroDivisionError)
  \/ (Frame.line (Frame.mk Frame.L99 0 5 46 36 (Some (Frame.PyInt 36)) None) = Frame.Lend
      /\ ZeroDivisionError = StopIteration).
Proof.
  apply (body_raises_only_zero_division (Kwargs (Some 0) (Some 5) (Some 46) (Some 36))
           Frame.PyNone (Frame.mk Frame.L99 0 5 46 36 (Some (Frame.PyInt 36)) None)
           (Frame.mk Frame.Lend 0 5 46 36 (Some (Frame.PyInt 36)) None) ZeroDivisionError).
  - apply (Frame.reach_step _ Frame.PyNone
             (Frame.mk Frame.L98 0 5 46 36 (Some (Frame.PyInt 36)) None)).
    apply (Frame.reach_step _ Frame.PyNone
             (Frame.call (Kwargs (Some 0) (Some 5) (Some 46) (Some 36)))).
    apply Frame.reach_refl.
  - reflexivity.
Defined.
