(* ===== verification/GenTree.v ===== *)
(** * GenTree: [aleat] as an interaction tree (src/aleatorios.py, lines 97-101)

    The body of [aleat] never returns: it is a loop that yields a value,
    waits for the consumer, and goes on.  Here the whole behaviour of the
    body is one object, an interaction tree over the events [Yield], whose
    answer is the value the consumer sends ([None] for [next]), and
    [Throw], which has no answer.  The generator object drives the tree:
    [Tree.send] runs it to the next event.

    The theorems show that the generator object over the tree is the
    state machine of [Generator] in every session, and, by coinduction, that
    for a positive modulus the tree is productive and in range for ever:
    whatever the consumer sends, after finitely many silent steps it yields
    a value of [[0, m)], and it never raises and never returns. *)

From Stdlib Require Import ZArith Lia List.
From stdpp Require Import prelude.
From ITree Require Import ITree Eq.Shallow.
From Paco Require Import paco.
From S2P Require Import Prelude Engine Stream Generator.

#[local] Open Scope Z_scope.

Module Tree.

(** ** The body as a tree *)

(** The events of the body: [yield v], answered by the value sent, and an
    exception that leaves the body. *)
Variant genE : Type -> Type :=
| Yield (v : Z) : genE (option Z)
| Throw (e : exn) : genE void.

(** One turn of the loop from the value [x]: line 99 evaluates
    [(a * x + c) % m], stores it and yields it; lines 100-101 take the
    value sent as the new [x] unless it is [None].  [inl] goes round the
    loop again. *)
Definition body (m a c x : Z) : itree genE (Z + void) :=
  match lcg m a c x with
  | Ok y =>
      ITree.bind (ITree.trigger (Yield y))
        (fun new_seed => Ret (inl (Gen.reseed new_seed y)))
  | Raise e => ITree.bind (ITree.trigger (Throw e)) (fun v : void => match v with end)
  end.

(** [x = x0] and [while True]. *)
Definition loop (m a c x0 : Z) : itree genE void := ITree.iter (body m a c) x0.

(** The body of the call [aleat(...)]. *)
Definition aleat (kw : kwargs) : itree genE void :=
  loop (default default_m (kw_m kw)) (default default_a (kw_a kw))
       (default default_c (kw_c kw)) (default default_x0 (kw_x0 kw)).

(** ** The generator object over a tree *)

(** The first event of a tree. *)
Inductive head : Type :=
| HYield (v : Z) (k : option Z -> itree genE void)
| HThrow (e : exn).

Definition head_of {X} (e : genE X) : (X -> itree genE void) -> head :=
  match e in genE X return (X -> itree genE void) -> head with
  | Yield v => fun k => HYield v k
  | Throw x => fun _ => HThrow x
  end.

(** Run the silent steps of a tree up to its first event; [None] when
    [fuel] steps were not enough. *)
Fixpoint peel (fuel : nat) (t : itree genE void) : option head :=
  match fuel with
  | O => None
  | S fuel' =>
      match observe t with
      | RetF r => match r with end
      | TauF t' => peel fuel' t'
      | VisF e k => Some (head_of e k)
      end
  end.

(** The generator object: the tree not started, the continuation at the
    [yield] where it is suspended, or closed. *)
Inductive tstate : Type :=
| TCreated (t : itree genE void)
| TSuspended (k : option Z -> itree genE void)
| TClosed.

(** Run a tree to its first event, as a resumption of the generator. *)
Definition resume (fuel : nat) (t : itree genE void) : option (result Z * tstate) :=
  match peel fuel t with
  | None => None
  | Some (HYield v k) => Some (Ok v, TSuspended k)
  | Some (HThrow e) => Some (Raise e, TClosed)
  end.

(** One silent step separates the answer to a [yield] from the next turn
    of the loop. *)
Definition fuel_bound : nat := 2.

(** [send(v)] on the generator object. *)
Definition send (v : option Z) (g : tstate) : option (result Z * tstate) :=
  match g, v with
  | TCreated _, Some _ => Some (Raise TypeError, g)
  | TCreated t, None => resume fuel_bound t
  | TSuspended k, _ => resume fuel_bound (k v)
  | TClosed, _ => Some (Raise StopIteration, TClosed)
  end.

(** A caller that sends the values [vs] one after the other. *)
Fixpoint sends (vs : list (option Z)) (g : tstate) : option (list (result Z) * tstate) :=
  match vs with
  | [] => Some ([], g)
  | v :: vs' =>
      match send v g with
      | None => None
      | Some (r, g') =>
          match sends vs' g' with
          | None => None
          | Some (rs, g'') => Some (r :: rs, g'')
          end
      end
  end.

(** ** Trees and states *)

(** The tree is the loop at the value [x], possibly after the silent step
    that [iter] inserts between two turns. *)
Definition at_loop (m a c x : Z) (t : itree genE void) : Prop :=
  observe t = observe (loop m a c x) \/ observe t = TauF (loop m a c x).

(** The state of [Generator] that a generator object over a tree stands
    for. *)
Inductive stands_for : tstate -> Gen.gstate -> Prop :=
| sf_created m a c x0 t :
    at_loop m a c x0 t -> stands_for (TCreated t) (Gen.GCreated m a c x0)
| sf_suspended m a c x k :
    (forall v, at_loop m a c (Gen.reseed v x) (k v)) ->
    stands_for (TSuspended k) (Gen.GSuspended m a c x)
| sf_closed : stands_for TClosed Gen.GClosed.

(** ** Productive and in range, for ever *)

(** One layer of the predicate: finitely many silent steps, then a [yield]
    of a value of [[0, m)], after which [r] holds of the tree whatever
    the consumer answers.  No rule for [Throw] and none for a return. *)
Inductive rangeF (m : Z) (r : itree genE void -> Prop) : itree' genE void -> Prop :=
| range_tau t : rangeF m r (observe t) -> rangeF m r (TauF t)
| range_yield v k :
    0 <= v < m -> (forall u, r (k u)) -> rangeF m r (VisF (Yield v) k).

Definition range_gen (m : Z) (r : itree genE void -> Prop) (t : itree genE void) : Prop :=
  rangeF m r (observe t).

Definition always_in_range (m : Z) (t : itree genE void) : Prop :=
  paco1 (range_gen m) bot1 t.

(** ** Unfolding the loop *)

Lemma peel_vis fuel t {X} (e : genE X) k :
  observe t = VisF e k -> peel (S fuel) t = Some (head_of e k).
Proof. cbn [peel]. by intros ->. Qed.

Lemma peel_tau fuel t t' : observe t = TauF t' -> peel (S fuel) t = peel fuel t'.
Proof. cbn [peel]. by intros ->. Qed.

(** A tree at the loop shows the first event of the loop within two
    steps. *)
Lemma peel_at_loop m a c x t {X} (e : genE X) k :
  at_loop m a c x t -> observe (loop m a c x) = VisF e k ->
  peel fuel_bound t = Some (head_of e k).
Proof.
  intros [Ht|Ht] Hk; unfold fuel_bound.
  - apply peel_vis. by rewrite Ht.
  - rewrite (peel_tau _ _ _ Ht). by apply peel_vis.
Qed.

(** A turn that computes [y] yields it, and after the answer [v] a silent
    step leads to the loop at the new value. *)
Lemma observe_loop m a c x :
  observe (loop m a c x)
  = observe (ITree.bind (body m a c x)
               (fun lr => match lr with
                          | inl l => Tau (loop m a c l)
                          | inr r => Ret r
                          end)).
Proof. apply (observing_observe (unfold_aloop_ (body m a c) x)). Qed.

Lemma observe_loop_ok m a c x y :
  lcg m a c x = Ok y ->
  exists k, observe (loop m a c x) = VisF (Yield y) k
    /\ forall v, observe (k v) = TauF (loop m a c (Gen.reseed v y)).
Proof.
  intros H. rewrite observe_loop. unfold body. rewrite H.
  eexists. split; [cbn; reflexivity|]. intros v. reflexivity.
Qed.

Lemma observe_loop_raise m a c x e :
  lcg m a c x = Raise e ->
  exists k, observe (loop m a c x) = VisF (Throw e) k.
Proof.
  intros H. rewrite observe_loop. unfold body. rewrite H. eexists. cbn. reflexivity.
Qed.

Lemma at_loop_here m a c x : at_loop m a c x (loop m a c x).
Proof. by left. Qed.

(** ** One resumption *)

(** Resuming a tree that is the loop at [x] is [Gen.to_yield]. *)
Lemma resume_at_loop m a c x t :
  at_loop m a c x t ->
  exists g, resume fuel_bound t = Some ((Gen.to_yield m a c x).1, g)
    /\ stands_for g (Gen.to_yield m a c x).2.
Proof.
  intros Ht. unfold Gen.to_yield, resume.
  destruct (lcg m a c x) as [y|e] eqn:E.
  - destruct (observe_loop_ok m a c x y E) as (k & Hk & Hv).
    rewrite (peel_at_loop m a c x t _ k Ht Hk).
    exists (TSuspended k). split; [done|]. constructor. intros v. right. apply Hv.
  - destruct (observe_loop_raise m a c x e E) as (k & Hk).
    rewrite (peel_at_loop m a c x t _ k Ht Hk).
    exists TClosed. split; [done|constructor].
Qed.

(** [send] on the generator object over a tree is [Gen.send] on the state
    it stands for. *)
Lemma send_stands_for v ts g :
  stands_for ts g ->
  exists ts', send v ts = Some ((Gen.send v g).1, ts') /\ stands_for ts' (Gen.send v g).2.
Proof.
  intros [m a c x0 t Ht|m a c x k Hk|].
  - destruct v as [seed|]; cbn [send Gen.send].
    + exists (TCreated t). split; [done|by constructor].
    + by apply resume_at_loop.
  - cbn [send Gen.send]. by apply resume_at_loop.
  - exists TClosed. split; [done|constructor].
Qed.

Lemma sends_stands_for vs ts g :
  stands_for ts g ->
  exists ts', sends vs ts = Some ((Gen.sends vs g).1, ts')
    /\ stands_for ts' (Gen.sends vs g).2.
Proof.
  revert ts g. induction vs as [|v vs IH]; intros ts g Hs; [by exists ts|].
  destruct (send_stands_for v ts g Hs) as (ts1 & Hv & Hs1).
  destruct (IH ts1 _ Hs1) as (ts2 & Hvs & Hs2).
  exists ts2. cbn [sends Gen.sends]. rewrite Hv, Hvs.
  destruct (Gen.send v g) as [r g1]. cbn in *. by destruct (Gen.sends vs g1).
Qed.

(** ** Coinduction *)

Lemma range_gen_mon m : monotone1 (range_gen m).
Proof.
  intros t r r' H LE. unfold range_gen in *.
  induction H; constructor; auto.
Qed.

#[export] Hint Resolve range_gen_mon : paco.

(** The loop at any value is productive and in range for ever. *)
Lemma at_loop_in_range m a c :
  0 < m -> forall x t, at_loop m a c x t -> always_in_range m t.
Proof.
  intros Hm. unfold always_in_range. pcofix CIH. intros x t Ht.
  assert (m <> 0) as Hm0 by lia.
  destruct (observe_loop_ok m a c x _ (lcg_ok m a c x Hm0)) as (k & Hk & Hv).
  assert (rangeF m (upaco1 (range_gen m) r) (observe (loop m a c x))) as Hloop.
  { rewrite Hk. constructor; [by apply lcg_step_range|].
    intros u. right. apply (CIH (Gen.reseed u (lcg_step m a c x))). right. apply Hv. }
  pfold. unfold range_gen. destruct Ht as [-> | ->]; [done|by constructor].
Qed.

(** What the predicate says of a tree: some number of steps shows a
    [yield] of a value in range, and the predicate holds again after any
    answer. *)
Lemma always_in_range_step m t :
  always_in_range m t ->
  exists fuel v k,
    peel fuel t = Some (HYield v k) /\ 0 <= v < m /\ forall u, always_in_range m (k u).
Proof.
  intros H. punfold H. unfold range_gen in H.
  remember (observe t) as ot eqn:Hot. revert t Hot.
  induction H as [t' _ IH|v k Hv Hk]; intros t Hot.
  - destruct (IH t' eq_refl) as (fuel & v & k & Hp & Hv & Hk).
    exists (S fuel), v, k. by rewrite (peel_tau fuel t t').
  - exists 1%nat, v, k. split; [by apply (peel_vis 0 t (Yield v) k)|].
    split; [done|]. intros u. destruct (Hk u) as [Hu|[]]. exact Hu.
Qed.

End Tree.

(** ** Properties *)

(** C6: the tree of the body implements the generator.  Whatever values
    a caller sends to the generator object over the tree of [aleat(...)],
    every resumption reaches an event within two steps, the results are
    those of [Gen.send], exceptions included, and the object is left
    standing for the state of [Generator]. *)
Theorem tree_refines_generator (kw : kwargs) (vs : list (option Z)) :
  exists ts',
    Tree.sends vs (Tree.TCreated (Tree.aleat kw))
    = Some ((Gen.sends vs (Gen.aleat kw)).1, ts')
    /\ Tree.stands_for ts' (Gen.sends vs (Gen.aleat kw)).2.
Proof. apply Tree.sends_stands_for. constructor. apply Tree.at_loop_here. Qed.

(** C12: for a positive modulus the body of [aleat] is productive and in
    range for ever.  Along every branch of its tree, whatever the
    consumer sends at each [yield], finitely many silent steps lead to a
    [yield] of a value of [[0, m)]; the tree never raises and never
    returns. *)
Theorem tree_always_in_range (kw : kwargs) :
  0 < default default_m (kw_m kw) ->
  Tree.always_in_range (default default_m (kw_m kw)) (Tree.aleat kw).
Proof.
  intros Hm.
  apply (Tree.at_loop_in_range _ (default default_a (kw_a kw)) (default default_c (kw_c kw)) Hm
           (default default_x0 (kw_x0 kw))).
  apply Tree.at_loop_here.
Qed.

Lemma tree_always_in_range_witness :
  Tree.always_in_range (default default_m (kw_m no_kwargs)) (Tree.aleat no_kwargs).
Proof. apply (tree_always_in_range no_kwargs). reflexivity. Defined.
