(* ===== verification/Equiv.v ===== *)
(** * Equiv: the class, the generator and the contract

    The class [Aleat] and the generator [aleat] are two views of one
    engine.  [sim] relates a generator to an object that stands for the same
    engine state.  The theorems show that the class implements the abstract
    machine of [Stream] on every branch, that the generator implements it
    wherever the machine is defined, that the two emit the same values, and
    where they part: a seed sent to a generator that has not started, and
    the calls that follow a [ZeroDivisionError]. *)

From Stdlib Require Import ZArith Lia List.
From stdpp Require Import prelude.
From S2P Require Import Prelude Engine Stream Iterator Generator.

#[local] Open Scope Z_scope.
#[local] Open Scope py_scope.

(** ** Definitions *)

(** The generator and the object stand for the same engine state. *)
Definition sim (g : Gen.gstate) (s : Aleat.t) : Prop :=
  Gen.view g = Some (Aleat.view s).

(** The keyword arguments with every parameter given. *)
Definition kw_all (m a c x0 : Z) : kwargs :=
  {| kw_m := Some m; kw_a := Some a; kw_c := Some c; kw_x0 := Some x0 |}.

(** ** The simulation *)

Lemma sim_init kw : sim (Gen.aleat kw) (Aleat.__init__ kw).
Proof. reflexivity. Qed.

Lemma sim_params g s : sim g s -> Gen.closed g = false.
Proof. by destruct g. Qed.

(** One command keeps the two related and emits the same value. *)
Lemma sim_exec k g s :
  sim g s -> Aleat.m s <> 0 -> Gen.started g = true \/ k = Pull ->
  exists y g' s',
    Gen.exec k g = (Ok y, g') /\ Aleat.exec k s = (Ok y, s')
    /\ sim g' s' /\ Gen.started g' = true.
Proof.
  intros Hsim Hm Hs.
  destruct (handle_exec_ok (HG:=gen_handle) k g _ Hsim Hm Hs) as (g' & Hg & Hv & Hs').
  destruct (handle_exec_ok (HG:=aleat_handle) k s _ eq_refl Hm (or_introl eq_refl))
    as (s' & Ha & Hv' & _).
  exists (spec_next k (Aleat.view s)).1, g', s'.
  repeat split; try done.
  change (Gen.view g' = Some (Aleat.view s')).
  change (Some (Aleat.view s') = Some (spec_next k (Aleat.view s)).2) in Hv'.
  rewrite Hv'. exact Hv.
Qed.

(** With a zero modulus the first pull raises on both sides. *)
Lemma for_range_zero_modulus n kw :
  default default_m (kw_m kw) = 0 ->
  (for_range n Aleat.__next__ (Aleat.__init__ kw)).1
  = (for_range n Gen.next (Gen.aleat kw)).1.
Proof.
  intros Hm. destruct n as [|n]; [done|].
  rewrite (for_range_S_raise n _ _ ZeroDivisionError (Aleat.__init__ kw))
    by (by apply Aleat.next_raise).
  rewrite (for_range_S_raise n _ _ ZeroDivisionError Gen.GClosed); [done|].
  unfold Gen.aleat. rewrite Hm. reflexivity.
Qed.

(** ** Properties *)

(** C14: the class implements the abstract machine on every branch: a
    command on an object gives the outcome the machine gives on the engine
    state of the object, the exception of a zero modulus included, and
    leaves the object in the state the machine reaches. *)
Theorem aleat_refines_spec (k : cmd) (s : Aleat.t) :
  (Aleat.exec k s).1 = (spec_exec k (Aleat.view s)).1
  /\ Aleat.view (Aleat.exec k s).2 = (spec_exec k (Aleat.view s)).2.
Proof.
  destruct (decide (Aleat.m s = 0)) as [Hm|Hm].
  - destruct s as [m a c x]; simpl in Hm; subst m. by destruct k.
  - rewrite Aleat.exec_step, spec_exec_ok by done. done.
Qed.

(** C15: the generator implements the abstract machine wherever the
    specification defines it: for a non-zero modulus, a plain pull on a
    generator that is not closed, or an injection into a suspended one,
    gives the value of the machine and suspends the generator on the state
    the machine reaches. *)
Theorem gen_refines_spec (k : cmd) (g : Gen.gstate) (st : lcg_state) :
  Gen.view g = Some st -> st_m st <> 0 -> Gen.started g = true \/ k = Pull ->
  (Gen.exec k g).1 = (spec_exec k st).1
  /\ Gen.view (Gen.exec k g).2 = Some (spec_exec k st).2
  /\ Gen.started (Gen.exec k g).2 = true.
Proof.
  intros Hv Hm Hs. rewrite (Gen.exec_ok k g st), spec_exec_ok by done.
  by destruct st.
Qed.

Lemma gen_refines_spec_witness :
  (Gen.exec (Inject 24) (Gen.GSuspended 64 5 46 44)).1
    = (spec_exec (Inject 24) (LcgState 64 5 46 44)).1
  /\ Gen.view (Gen.exec (Inject 24) (Gen.GSuspended 64 5 46 44)).2
    = Some (spec_exec (Inject 24) (LcgState 64 5 46 44)).2
  /\ Gen.started (Gen.exec (Inject 24) (Gen.GSuspended 64 5 46 44)).2 = true.
Proof.
  apply (gen_refines_spec (Inject 24) (Gen.GSuspended 64 5 46 44) (LcgState 64 5 46 44)).
  - reflexivity.
  - discriminate.
  - left; reflexivity.
Defined.

(** C16: the two interfaces emit the same values.  For the same keyword
    arguments, [n] calls of [next] on an [Aleat] object and on a generator
    print the same lines, whatever the parameters: with a zero modulus both
    loops end on the [ZeroDivisionError] of the first call. *)
Theorem pulls_agree (kw : kwargs) (n : nat) :
  (for_range n Aleat.__next__ (Aleat.__init__ kw)).1
  = (for_range n Gen.next (Gen.aleat kw)).1.
Proof.
  destruct (decide (default default_m (kw_m kw) = 0)) as [Hm|Hm].
  - by apply for_range_zero_modulus.
  - destruct (handle_for_range (HG:=aleat_handle) n (Aleat.__init__ kw) _ eq_refl Hm)
      as (s' & Hs & _).
    destruct (handle_for_range (HG:=gen_handle) n (Gen.aleat kw) _ eq_refl Hm)
      as (g' & Hg & _).
    simpl in Hs, Hg. by rewrite Hs, Hg.
Qed.

(** C17: sessions agree.  For a non-zero modulus, any session of pulls and
    injections that starts with a pull emits the same values on the
    generator, where an injection is [send(seed)], and on the class, where it
    is [rand(seed)] followed by [next(rand)]; at the end both stand for the
    same engine state. *)
Theorem sessions_agree (kw : kwargs) (ks : list cmd) :
  default default_m (kw_m kw) <> 0 ->
  (run_all Gen.exec (Pull :: ks) (Gen.aleat kw)).1
  = (run_all Aleat.exec (Pull :: ks) (Aleat.__init__ kw)).1
  /\ sim (run_all Gen.exec (Pull :: ks) (Gen.aleat kw)).2
         (run_all Aleat.exec (Pull :: ks) (Aleat.__init__ kw)).2.
Proof.
  intros Hm.
  apply (handles_agree (HG1:=gen_handle) (HG2:=aleat_handle) (Pull :: ks) _ _
           (Aleat.view (Aleat.__init__ kw))); try done.
  - right; by left.
  - by left.
Qed.

Lemma sessions_agree_witness :
  (run_all Gen.exec [Pull; Inject 24; Pull] (Gen.aleat (kw_all 64 5 46 36))).1
  = (run_all Aleat.exec [Pull; Inject 24; Pull] (Aleat.__init__ (kw_all 64 5 46 36))).1
  /\ sim (run_all Gen.exec [Pull; Inject 24; Pull] (Gen.aleat (kw_all 64 5 46 36))).2
         (run_all Aleat.exec [Pull; Inject 24; Pull] (Aleat.__init__ (kw_all 64 5 46 36))).2.
Proof. apply (sessions_agree (kw_all 64 5 46 36) [Inject 24; Pull]). discriminate. Defined.

(** Where the two interfaces part.  With a zero modulus the object
    raises [ZeroDivisionError] on every call of [next] and keeps its state,
    while the generator raises it once, is closed by it, and raises
    [StopIteration] from then on. *)
Theorem zero_modulus_second_call (a c x0 : Z) :
  let s := Aleat.__init__ (kw_all 0 a c x0) in
  let g := Gen.aleat (kw_all 0 a c x0) in
  (Aleat.__next__ s).1 = Raise ZeroDivisionError
  /\ (Gen.next g).1 = Raise ZeroDivisionError
  /\ (Aleat.__next__ (Aleat.__next__ s).2).1 = Raise ZeroDivisionError
  /\ (Gen.next (Gen.next g).2).1 = Raise StopIteration.
Proof. done. Qed.

(** C19: the range invariant.  For a positive modulus every call of a
    session returns, and returns a value in [[0, m)]: on the class for any
    session of [next(rand)] and [rand(seed); next(rand)], on the generator
    for any session of [next] and [send] that starts with [next]. *)
Theorem range_invariant (kw : kwargs) (ks : list cmd) :
  0 < default default_m (kw_m kw) ->
  Forall (fun r => exists y, r = Ok y /\ 0 <= y < default default_m (kw_m kw))
    (run_all Aleat.exec ks (Aleat.__init__ kw)).1
  /\ Forall (fun r => exists y, r = Ok y /\ 0 <= y < default default_m (kw_m kw))
       (run_all Gen.exec (Pull :: ks) (Gen.aleat kw)).1.
Proof.
  intros Hm. split.
  - apply (handle_run_all_range (HG:=aleat_handle) ks _ (Aleat.view (Aleat.__init__ kw)));
      [done|done|by left].
  - apply (handle_run_all_range (HG:=gen_handle) (Pull :: ks) _
             (Aleat.view (Aleat.__init__ kw))); [done|done|right; by left].
Qed.

Lemma range_invariant_witness :
  Forall (fun r => exists y, r = Ok y /\ 0 <= y < default default_m (kw_m (kw_all 64 5 46 36)))
    (run_all Aleat.exec [Inject 24; Pull] (Aleat.__init__ (kw_all 64 5 46 36))).1
  /\ Forall (fun r => exists y, r = Ok y /\ 0 <= y < default default_m (kw_m (kw_all 64 5 46 36)))
       (run_all Gen.exec [Pull; Inject 24; Pull] (Gen.aleat (kw_all 64 5 46 36))).1.
Proof. apply (range_invariant (kw_all 64 5 46 36) [Inject 24; Pull]). reflexivity. Defined.

(** C20: the recurrence law.  With a non-zero modulus and no seed in
    between, each value that [next] returns on a generator is
    [(a * v + c) % m] of the value [v] returned just before. *)
Theorem recurrence_law (kw : kwargs) (n i : nat) (v : Z) :
  default default_m (kw_m kw) <> 0 -> (S i < n)%nat ->
  (for_range n Gen.next (Gen.aleat kw)).1 !! i = Some (Ok v) ->
  (for_range n Gen.next (Gen.aleat kw)).1 !! S i
  = Some (Ok ((default default_a (kw_a kw) * v + default default_c (kw_c kw))
              mod default default_m (kw_m kw))).
Proof.
  intros Hm Hi.
  rewrite !(handle_for_range_lookup (HG:=gen_handle) n _ (Gen.aleat kw)
              (Aleat.view (Aleat.__init__ kw))) by (done || lia).
  intros [= <-]. by rewrite (lcg_nth_S _ _ _ (S i)).
Qed.

Lemma recurrence_law_witness :
  (for_range 4 Gen.next (Gen.aleat (kw_all 64 5 46 36))).1 !! 2%nat
  = Some (Ok ((default default_a (kw_a (kw_all 64 5 46 36)) * 24
               + default default_c (kw_c (kw_all 64 5 46 36)))
              mod default default_m (kw_m (kw_all 64 5 46 36)))).
Proof. apply (recurrence_law (kw_all 64 5 46 36) 4 1 24); [discriminate|lia|reflexivity]. Defined.
