(* ===== verification/Period.v ===== *)
(** * Period: the sequence cycles

    The state of the generator after the first step is one of the [m]
    remainders, so the sequence of emitted values must come back to a value
    it has emitted.  This file proves it for the iterates [lcg_nth] of the
    recurrence and carries it to the lines that [next] prints: the sequence
    is periodic after a pre-period, with pre-period plus period at most [m];
    when the multiplier is coprime to the modulus the step is injective on
    remainders and the sequence is periodic from the first value on.
    [first_repeat] is the test the specification describes: enumerate the
    values until one repeats. *)

From Stdlib Require Import ZArith Lia List Znumtheory.
From stdpp Require Import prelude finite.
From S2P Require Import Prelude Engine Stream Iterator Generator.

#[local] Open Scope Z_scope.

(** ** Definitions *)

(** From index [mu] on, the iterates from [x] repeat with period [lam]. *)
Definition periodic_from (m a c x : Z) (mu lam : nat) : Prop :=
  forall n : nat, (mu <= n)%nat -> lcg_nth m a c (n + lam) x = lcg_nth m a c n x.

(** The position of [y] in [seen], counted from the most recent value. *)
Fixpoint index_of (y : Z) (seen : list Z) : option nat :=
  match seen with
  | [] => None
  | z :: seen' => if y =? z then Some O else S <$> index_of y seen'
  end.

(** Enumerate the values emitted from [x] until one repeats: [seen] holds
    the values emitted so far, most recent first.  The result is the number
    of values emitted before the repeated one and the length of the cycle;
    [None] when [fuel] values were all distinct. *)
Fixpoint first_repeat (m a c : Z) (fuel : nat) (seen : list Z) (x : Z)
  : option (nat * nat) :=
  match fuel with
  | O => None
  | S fuel' =>
      let y := lcg_step m a c x in
      match index_of y seen with
      | Some d => Some (length seen, S d)
      | None => first_repeat m a c fuel' (y :: seen) y
      end
  end.

(** The length of the cycle the sequence from [x] falls into. *)
Definition cycle_length (m a c x : Z) : option nat :=
  snd <$> first_repeat m a c (S (Z.to_nat m)) [] x.

(** ** Collisions *)

Section Orbit.
Context (m a c : Z).
Implicit Types (x y : Z) (i j k n : nat).

Lemma lcg_nth_collision_shift i j k x :
  lcg_nth m a c i x = lcg_nth m a c j x ->
  lcg_nth m a c (k + i) x = lcg_nth m a c (k + j) x.
Proof. intros H. by rewrite !lcg_nth_add, H. Qed.

Lemma periodic_from_collision i j x :
  (i <= j)%nat -> lcg_nth m a c i x = lcg_nth m a c j x ->
  periodic_from m a c x i (j - i).
Proof.
  intros Hij H n Hn. replace (n + (j - i))%nat with ((n - i) + j)%nat by lia.
  replace n with ((n - i) + i)%nat at 2 by lia.
  symmetry. by apply lcg_nth_collision_shift.
Qed.

(** Pigeonhole: among the first [m + 1] values two are equal. *)
Lemma orbit_collision x :
  0 < m ->
  exists i j, (1 <= i < j)%nat /\ Z.of_nat j <= m + 1
              /\ lcg_nth m a c i x = lcg_nth m a c j x.
Proof.
  intros Hm.
  destruct (nat_pigeonhole (fun i => Z.to_nat (lcg_nth m a c (S i) x))
              (S (Z.to_nat m)) (Z.to_nat m)) as (i1 & i2 & Hi & Heq); [lia| |].
  - intros i _. pose proof (lcg_nth_range m a c i x Hm). lia.
  - exists (S i1), (S i2). repeat split; [lia..|].
    pose proof (lcg_nth_range m a c i1 x Hm).
    pose proof (lcg_nth_range m a c i2 x Hm).
    apply Z2Nat.inj in Heq; lia.
Qed.

Lemma eventually_periodic x :
  0 < m ->
  exists mu lam, (1 <= mu)%nat /\ (0 < lam)%nat /\ Z.of_nat (mu + lam) <= m + 1
                 /\ periodic_from m a c x mu lam.
Proof.
  intros Hm. destruct (orbit_collision x Hm) as (i & j & Hij & Hj & Heq).
  exists i, (j - i)%nat. repeat split; [lia..|].
  apply periodic_from_collision; [lia|done].
Qed.

(** ** A multiplier coprime to the modulus *)

Lemma lcg_step_idem x : lcg_step m a c x mod m = lcg_step m a c x.
Proof. apply Zmod_mod. Qed.

Lemma lcg_step_inj_mod x y :
  Z.gcd a m = 1 -> lcg_step m a c x = lcg_step m a c y -> x mod m = y mod m.
Proof.
  unfold lcg_step. intros Hg [q Hq]%Z.cong_iff_ex.
  apply Z.cong_iff_ex. apply Z.gauss with (m := a).
  - exists q. lia.
  - by rewrite Z.gcd_comm.
Qed.

Lemma lcg_nth_inj_mod n x y :
  Z.gcd a m = 1 ->
  lcg_nth m a c n x mod m = lcg_nth m a c n y mod m -> x mod m = y mod m.
Proof.
  intros Hg. induction n as [|n IH]; [done|].
  rewrite !lcg_nth_S, !lcg_step_idem.
  intros H. by apply IH, lcg_step_inj_mod.
Qed.

(** The sequence returns to its seed, up to the reduction modulo [m]. *)
Lemma orbit_returns x :
  0 < m -> Z.gcd a m = 1 ->
  exists lam, (0 < lam)%nat /\ Z.of_nat lam <= m
              /\ lcg_nth m a c lam x mod m = x mod m.
Proof.
  intros Hm Hg. destruct (orbit_collision x Hm) as (i & j & Hij & Hj & Heq).
  exists (j - i)%nat. repeat split; [lia..|].
  symmetry. apply (lcg_nth_inj_mod i); [done|].
  rewrite <- lcg_nth_add. replace (i + (j - i))%nat with j by lia. by rewrite Heq.
Qed.

Lemma periodic_from_return lam x :
  lcg_nth m a c lam x mod m = x mod m -> periodic_from m a c x 1 lam.
Proof.
  intros H n Hn. destruct n as [|n]; [lia|].
  rewrite lcg_nth_add. by apply lcg_nth_congr.
Qed.

End Orbit.

(** ** The enumeration *)

Section Enumeration.
Context (m a c : Z).
Implicit Types (x y : Z) (seen : list Z) (fuel : nat).

Lemma index_of_Some y seen d : index_of y seen = Some d -> seen !! d = Some y.
Proof.
  revert d. induction seen as [|z seen IH]; intros d; simpl; [done|].
  destruct (Z.eqb_spec y z) as [->|_]; [by intros [= <-]|].
  destruct (index_of y seen) as [d'|]; simpl; [|done].
  intros [= <-]. by apply IH.
Qed.

Lemma index_of_None y seen : index_of y seen = None -> y ∉ seen.
Proof.
  induction seen as [|z seen IH]; simpl; [intros _; apply not_elem_of_nil|].
  destruct (Z.eqb_spec y z) as [->|Hne]; [done|].
  destruct (index_of y seen); simpl; [done|].
  intros _. rewrite not_elem_of_cons. auto.
Qed.

(** The list of values seen after [k] steps from [x0]. *)
Definition seen_after (x0 : Z) (k : nat) : list Z := reverse (lcg_list m a c k x0).

Lemma seen_after_S x0 k :
  seen_after x0 (S k) = lcg_nth m a c (S k) x0 :: seen_after x0 k.
Proof.
  unfold seen_after. replace (S k) with (k + 1)%nat at 1 by lia.
  rewrite lcg_list_app, reverse_app. reflexivity.
Qed.

Lemma seen_after_lookup x0 k (d : nat) :
  (d < k)%nat -> seen_after x0 k !! d = Some (lcg_nth m a c (k - d) x0).
Proof.
  intros Hd. unfold seen_after.
  rewrite reverse_lookup by (rewrite lcg_list_length; lia).
  rewrite lcg_list_length, lcg_list_lookup by lia. do 2 f_equal. lia.
Qed.

(** What a result of the enumeration means: the value after [mu + lam + 1]
    steps is the value after [mu + 1] steps. *)
Lemma first_repeat_sound fuel x0 k mu lam :
  first_repeat m a c fuel (seen_after x0 k) (lcg_nth m a c k x0) = Some (mu, lam) ->
  (k <= mu)%nat /\ (0 < lam <= mu)%nat
  /\ lcg_nth m a c (S mu) x0 = lcg_nth m a c (S mu - lam) x0.
Proof.
  revert k. induction fuel as [|fuel IH]; intros k; simpl; [done|].
  destruct (index_of _ _) as [d|] eqn:E.
  - intros [= <- <-]. apply index_of_Some in E.
    pose proof (lookup_lt_Some _ _ _ E) as Hd.
    unfold seen_after in Hd |- *. rewrite length_reverse, lcg_list_length in Hd |- *.
    fold (seen_after x0 k) in E. rewrite seen_after_lookup in E by done.
    injection E as E. rewrite lcg_nth_S. repeat split; [lia..|].
    by rewrite <- E.
  - rewrite <- lcg_nth_S, <- seen_after_S. intros H.
    destruct (IH (S k) H) as (? & ? & ?). repeat split; [lia..|done].
Qed.

Lemma seen_after_range x0 k y : 0 < m -> y ∈ seen_after x0 k -> 0 <= y < m.
Proof.
  intros Hm [d Hd]%list_elem_of_lookup.
  pose proof (lookup_lt_Some _ _ _ Hd) as Hlt.
  unfold seen_after in Hlt. rewrite length_reverse, lcg_list_length in Hlt.
  rewrite seen_after_lookup in Hd by done. injection Hd as <-.
  replace (k - d)%nat with (S (k - d - 1)) by lia. by apply lcg_nth_range.
Qed.

(** Distinct remainders are at most [m]. *)
Lemma seen_after_NoDup_bound x0 k :
  0 < m -> NoDup (seen_after x0 k) -> Z.of_nat k <= m.
Proof.
  intros Hm Hnd.
  assert (length (seen_after x0 k) <= length (seqZ 0 m))%nat as Hle.
  { apply submseteq_length, NoDup_submseteq; [done|].
    intros y Hy. apply elem_of_seqZ. pose proof (seen_after_range x0 k y Hm Hy). lia. }
  unfold seen_after in Hle. rewrite length_reverse, lcg_list_length, length_seqZ in Hle.
  lia.
Qed.

(** The values seen before the result are distinct: the enumeration stops
    at the first repetition. *)
Lemma first_repeat_first fuel x0 k mu lam :
  NoDup (seen_after x0 k) ->
  first_repeat m a c fuel (seen_after x0 k) (lcg_nth m a c k x0) = Some (mu, lam) ->
  NoDup (seen_after x0 mu).
Proof.
  revert k. induction fuel as [|fuel IH]; intros k Hnd; simpl; [done|].
  destruct (index_of _ _) as [d|] eqn:E.
  - intros [= <- _]. unfold seen_after at 2. by rewrite length_reverse, lcg_list_length.
  - rewrite <- lcg_nth_S, <- seen_after_S. apply IH.
    rewrite seen_after_S, lcg_nth_S. apply NoDup_cons. split; [|done].
    by apply index_of_None.
Qed.

(** Fuel that runs out has seen only distinct values. *)
Lemma first_repeat_None fuel x0 k :
  NoDup (seen_after x0 k) ->
  first_repeat m a c fuel (seen_after x0 k) (lcg_nth m a c k x0) = None ->
  NoDup (seen_after x0 (fuel + k)).
Proof.
  revert k. induction fuel as [|fuel IH]; intros k Hnd; simpl; [done|].
  destruct (index_of _ _) as [d|] eqn:E; [done|].
  rewrite <- lcg_nth_S, <- seen_after_S. intros H.
  replace (S (fuel + k)) with (fuel + S k)%nat by lia. apply IH; [|done].
  rewrite seen_after_S, lcg_nth_S. apply NoDup_cons. split; [|done].
  by apply index_of_None.
Qed.

(** [m + 1] values are enough fuel. *)
Lemma first_repeat_total x0 :
  0 < m -> is_Some (first_repeat m a c (S (Z.to_nat m)) [] x0).
Proof.
  intros Hm. destruct (first_repeat _ _ _ _ _ _) as [r|] eqn:E; [done|].
  apply (first_repeat_None _ x0 0) in E; [|apply NoDup_nil_2].
  apply seen_after_NoDup_bound in E; [lia|done].
Qed.

End Enumeration.

(** ** The lines that [next] prints *)

Section Lines.
Context {G : Type} {HG : LcgHandle G}.

(** Periodicity of the iterates is periodicity of the printed lines: line
    [i] is the state after [i + 1] steps. *)
Lemma handle_lines_periodic (g : G) (st : lcg_state) (mu lam n i : nat) :
  handle_view g = Some st -> st_m st <> 0 ->
  periodic_from (st_m st) (st_a st) (st_c st) (st_x st) (S mu) lam ->
  (mu <= i)%nat -> (i + lam < n)%nat ->
  (for_range n (handle_exec Pull) g).1 !! (i + lam)%nat
  = (for_range n (handle_exec Pull) g).1 !! i.
Proof.
  intros Hv Hm Hp Hi Hn.
  rewrite !(handle_for_range_lookup n _ g st) by (done || lia).
  do 2 f_equal. apply (Hp (S i)). lia.
Qed.

End Lines.

(** ** Properties *)

(** C29: the lines printed by successive calls of [next] on an [Aleat]
    object with a positive modulus are periodic after a pre-period: there
    are [mu] and [lam] with [0 < lam] and [mu + lam <= m] such that line
    [i + lam] equals line [i] for every [i >= mu]. *)
Theorem aleat_eventually_periodic (self : Aleat.t) :
  0 < Aleat.m self ->
  exists mu lam : nat,
    (0 < lam)%nat /\ Z.of_nat (mu + lam) <= Aleat.m self
    /\ forall n i : nat, (mu <= i)%nat -> (i + lam < n)%nat ->
         (for_range n Aleat.__next__ self).1 !! (i + lam)%nat
         = (for_range n Aleat.__next__ self).1 !! i.
Proof.
  intros Hm.
  destruct (eventually_periodic (Aleat.m self) (Aleat.a self) (Aleat.c self)
              (Aleat.x self) Hm) as (mu & lam & Hmu & Hlam & Hb & Hp).
  exists (mu - 1)%nat, lam. repeat split; [lia..|]. intros n i Hi Hn.
  apply (handle_lines_periodic (HG:=aleat_handle) self (Aleat.view self) (mu - 1) lam);
    try done; [simpl; lia|].
  by replace (S (mu - 1)) with mu by lia.
Qed.

Lemma aleat_eventually_periodic_witness :
  exists mu lam : nat,
    (0 < lam)%nat /\ Z.of_nat (mu + lam) <= Aleat.m (Aleat.mk 32 9 13 11)
    /\ forall n i : nat, (mu <= i)%nat -> (i + lam < n)%nat ->
         (for_range n Aleat.__next__ (Aleat.mk 32 9 13 11)).1 !! (i + lam)%nat
         = (for_range n Aleat.__next__ (Aleat.mk 32 9 13 11)).1 !! i.
Proof. apply (aleat_eventually_periodic (Aleat.mk 32 9 13 11)). reflexivity. Defined.

(** C30: when the multiplier is coprime to a positive modulus, the lines
    printed by successive calls of [next] on a generator are periodic from
    the first line on, with a period of at most [m]. *)
Theorem gen_purely_periodic (m a c x0 : Z) :
  0 < m -> Z.gcd a m = 1 ->
  exists lam : nat,
    (0 < lam)%nat /\ Z.of_nat lam <= m
    /\ forall n i : nat, (i + lam < n)%nat ->
         (for_range n Gen.next (Gen.GCreated m a c x0)).1 !! (i + lam)%nat
         = (for_range n Gen.next (Gen.GCreated m a c x0)).1 !! i.
Proof.
  intros Hm Hg. destruct (orbit_returns m a c x0 Hm Hg) as (lam & Hlam & Hb & Hr).
  exists lam. repeat split; [done..|]. intros n i Hn.
  apply (handle_lines_periodic (HG:=gen_handle) _ (LcgState m a c x0) 0 lam);
    try done; [simpl; lia| |lia].
  by apply periodic_from_return.
Qed.

Lemma gen_purely_periodic_witness :
  exists lam : nat,
    (0 < lam)%nat /\ Z.of_nat lam <= 64
    /\ forall n i : nat, (i + lam < n)%nat ->
         (for_range n Gen.next (Gen.GCreated 64 5 46 36)).1 !! (i + lam)%nat
         = (for_range n Gen.next (Gen.GCreated 64 5 46 36)).1 !! i.
Proof. apply (gen_purely_periodic 64 5 46 36); reflexivity. Defined.

(** C31: the test of the specification, enumerate the values until one
    repeats, run on the parameters of an [Aleat] object with a positive
    modulus, ends within [m + 1] values and is right about the object.  It
    returns the number [mu] of lines before the repeated one and the cycle
    length [lam]: [0 < lam <= mu <= m], the first [mu] lines that [next]
    prints are distinct, and the lines have period [lam] from line
    [mu - lam] on. *)
Theorem first_repeat_correct (self : Aleat.t) :
  0 < Aleat.m self ->
  exists mu lam : nat,
    first_repeat (Aleat.m self) (Aleat.a self) (Aleat.c self)
      (S (Z.to_nat (Aleat.m self))) [] (Aleat.x self) = Some (mu, lam)
    /\ (0 < lam <= mu)%nat /\ Z.of_nat mu <= Aleat.m self
    /\ NoDup (for_range mu Aleat.__next__ self).1
    /\ forall n i : nat, (mu - lam <= i)%nat -> (i + lam < n)%nat ->
         (for_range n Aleat.__next__ self).1 !! (i + lam)%nat
         = (for_range n Aleat.__next__ self).1 !! i.
Proof.
  intros Hm. destruct self as [m a c x]; simpl in Hm |- *.
  destruct (first_repeat_total m a c x Hm) as [[mu lam] E].
  exists mu, lam. split; [done|].
  destruct (first_repeat_sound m a c _ x 0 mu lam E) as (_ & Hlam & Heq).
  pose proof (first_repeat_first m a c _ x 0 mu lam NoDup_nil_2 E) as Hnd.
  assert (m <> 0) as Hm0 by lia.
  repeat split; [lia..| | |].
  - by apply (seen_after_NoDup_bound m a c x).
  - destruct (handle_for_range (HG:=aleat_handle) mu (Aleat.mk m a c x) _ eq_refl Hm0)
      as (s' & Hr & _).
    simpl in Hr. rewrite Hr. apply (NoDup_fmap_2 Ok). unfold seen_after in Hnd.
    by rewrite reverse_Permutation in Hnd.
  - intros n i Hi Hn.
    apply (handle_lines_periodic (HG:=aleat_handle) _ (LcgState m a c x) (mu - lam) lam);
      try done.
    replace lam with (S mu - (S mu - lam))%nat at 2 by lia.
    replace (S (mu - lam)) with (S mu - lam)%nat by lia.
    apply periodic_from_collision; [lia|done].
Qed.

Lemma first_repeat_correct_witness :
  exists mu lam : nat,
    first_repeat 32 9 13 (S (Z.to_nat 32)) [] 11 = Some (mu, lam)
    /\ (0 < lam <= mu)%nat /\ Z.of_nat mu <= 32
    /\ NoDup (for_range mu Aleat.__next__ (Aleat.mk 32 9 13 11)).1
    /\ forall n i : nat, (mu - lam <= i)%nat -> (i + lam < n)%nat ->
         (for_range n Aleat.__next__ (Aleat.mk 32 9 13 11)).1 !! (i + lam)%nat
         = (for_range n Aleat.__next__ (Aleat.mk 32 9 13 11)).1 !! i.
Proof. apply (first_repeat_correct (Aleat.mk 32 9 13 11)). reflexivity. Defined.

(** The doctest parameters of [Aleat] have the full period: 32 values, all
    distinct, before the first repetition. *)
Example first_repeat_doctest_Aleat :
  first_repeat 32 9 13 33 [] 11 = Some (32%nat, 32%nat).
Proof. vm_compute. reflexivity. Qed.

(** The doctest parameters of [aleat] have an even increment and fall into
    a cycle of 32 of the 64 remainders. *)
Example first_repeat_doctest_aleat :
  first_repeat 64 5 46 65 [] 36 = Some (32%nat, 32%nat).
Proof. vm_compute. reflexivity. Qed.
