(* ===== verification/FullPeriod.v ===== *)
(** * FullPeriod: the period for a power-of-two modulus

    For a modulus [2^k], a multiplier congruent to 1 modulo 4 and an odd
    increment, the sequence runs through all [2^k] remainders before it
    repeats.  The default parameters of the program, [m = 2^48],
    [a = 25214903917] and [c = 11], are of this kind, and so are the
    parameters of the doctest of class [Aleat].

    The argument: after [n] steps the state differs from the seed by
    [geom a n * ((a - 1) x + c)] modulo [m]; the second factor is odd, and
    the power of two that divides [geom a n] is the one that divides [n],
    because [geom a (2 n) = geom a n * (1 + a^n)] and [1 + a^n] is twice an
    odd number. *)

From Stdlib Require Import ZArith Lia List Znumtheory.
From stdpp Require Import prelude.
From S2P Require Import Prelude Engine Stream Iterator Generator Period.

#[local] Open Scope Z_scope.

(** ** Definitions *)

(** The parameters for which the theorem holds. *)
Definition full_period_params (k : nat) (m a c : Z) : Prop :=
  m = 2 ^ Z.of_nat k /\ a mod 4 = 1 /\ Z.odd c = true.

(** ** The geometric sum *)

Section Geom.
Context (a : Z).
Implicit Types (n k : nat).

Lemma geom_add n k : geom a (n + k) = geom a n + a ^ Z.of_nat n * geom a k.
Proof.
  induction n as [|n IH]; [simpl; lia|].
  change (geom a (S n + k)) with (1 + a * geom a (n + k)).
  rewrite IH, Nat2Z.inj_succ, Z.pow_succ_r by lia. cbn [geom]. ring.
Qed.

Lemma geom_double n : geom a (n + n) = geom a n * (1 + a ^ Z.of_nat n).
Proof. rewrite geom_add. ring. Qed.

Lemma geom_odd_step n : geom a (S (n + n)) = 1 + a * geom a (n + n).
Proof. reflexivity. Qed.

Context (Ha : a mod 4 = 1).

Lemma multiplier_odd : Z.odd a = true.
Proof. rewrite Zodd_mod. apply Z.eqb_eq. Zmod_solve. Qed.

Lemma pow_mod4 n : a ^ Z.of_nat n mod 4 = 1.
Proof.
  induction n as [|n IH]; [done|].
  rewrite Nat2Z.inj_succ, Z.pow_succ_r, Zmult_mod, Ha, IH by lia. done.
Qed.

(** [1 + a^n] is twice an odd number. *)
Lemma one_plus_pow n : exists u, 1 + a ^ Z.of_nat n = 2 * u /\ Z.odd u = true.
Proof.
  pose proof (pow_mod4 n) as H.
  exists ((1 + a ^ Z.of_nat n) / 2). rewrite Zodd_mod.
  split; [|apply Z.eqb_eq]; Zmod_solve.
Qed.

Lemma geom_parity n : Z.odd (geom a n) = Nat.odd n.
Proof.
  induction n as [|n IH]; [done|].
  cbn [geom]. rewrite Z.odd_add, Z.odd_mul, multiplier_odd, IH, Nat.odd_succ.
  simpl. by rewrite <- Nat.negb_odd.
Qed.

End Geom.

(** ** Powers of two *)

Lemma pow2_divide_odd (k : nat) (z : Z) :
  (2 ^ Z.of_nat (S k) | z) -> Z.odd z = false.
Proof.
  intros [q ->]. rewrite Nat2Z.inj_succ, Z.pow_succ_r by lia.
  replace (q * (2 * 2 ^ Z.of_nat k)) with (2 * (q * 2 ^ Z.of_nat k)) by ring.
  apply Z.odd_even.
Qed.

Lemma odd_coprime_pow2 (k : nat) (u : Z) : Z.odd u = true -> Z.gcd (2 ^ Z.of_nat k) u = 1.
Proof.
  intros Hu. apply Z.coprime_pow_l; [lia|].
  apply Z.coprime_prime_l; [apply Z.prime_2|].
  intros [q ->]. rewrite Z.mul_comm, Z.odd_even in Hu. done.
Qed.

Lemma pow2_divide_mul_odd (k : nat) (z u : Z) :
  Z.odd u = true -> (2 ^ Z.of_nat k | z * u) <-> (2 ^ Z.of_nat k | z).
Proof.
  intros Hu. split; [|apply Z.divide_mul_l].
  intros H. apply Z.gauss with (m := u); [by rewrite Z.mul_comm|].
  by apply odd_coprime_pow2.
Qed.

Lemma pow2_divide_double (k : nat) (z : Z) :
  (2 ^ Z.of_nat (S k) | 2 * z) <-> (2 ^ Z.of_nat k | z).
Proof.
  rewrite Nat2Z.inj_succ, Z.pow_succ_r by lia. by apply Z.mul_divide_cancel_l.
Qed.

(** ** The power of two in the geometric sum *)

Section Valuation.
Context (a : Z) (Ha : a mod 4 = 1).

Lemma geom_pow2_divide (k n : nat) :
  (2 ^ Z.of_nat k | geom a n) <-> (2 ^ Z.of_nat k | Z.of_nat n).
Proof.
  revert n. induction k as [|k IH]; intros n.
  { split; intros _; apply Z.divide_1_l. }
  destruct (Nat.Even_or_Odd n) as [[h ->]|[h ->]].
  - replace (2 * h)%nat with (h + h)%nat by lia.
    destruct (one_plus_pow a Ha h) as (u & Hu & Hodd).
    rewrite geom_double, Hu.
    replace (geom a h * (2 * u)) with (2 * (geom a h * u)) by ring.
    replace (Z.of_nat (h + h)) with (2 * Z.of_nat h) by lia.
    by rewrite !pow2_divide_double, pow2_divide_mul_odd, IH.
  - split; intros H%pow2_divide_odd; exfalso.
    + rewrite (geom_parity a Ha), Nat.odd_add, Nat.odd_mul in H. done.
    + rewrite <- Z.negb_even, Nat2Z.inj_add, Z.even_add in H.
      rewrite Nat2Z.inj_mul, Z.even_mul in H. done.
Qed.

End Valuation.

Lemma small_multiple (m : Z) (d : nat) :
  (m | Z.of_nat d) -> Z.of_nat d < m -> d = 0%nat.
Proof.
  intros Hd Hlt. destruct d as [|d]; [done|].
  apply Z.divide_pos_le in Hd; lia.
Qed.

(** ** The return to the seed *)

Section Return.
Context (k : nat) (m a c : Z) (Hp : full_period_params k m a c).
Implicit Types (x : Z) (n i j : nat).

Lemma params_modulus_pos : 0 < m.
Proof. pose proof Hp as (Hm & _). rewrite Hm. apply Z.pow_pos_nonneg; lia. Qed.

Lemma params_coprime : Z.gcd a m = 1.
Proof.
  pose proof Hp as (Hm & Ha & _). rewrite Hm, Z.gcd_comm.
  by apply odd_coprime_pow2, multiplier_odd.
Qed.

(** The displacement after [n] steps is [geom a n] times an odd number. *)
Lemma displacement n x :
  affine_pow a c n x - x = geom a n * ((a - 1) * x + c).
Proof.
  unfold affine_pow.
  replace (a ^ Z.of_nat n * x + c * geom a n - x)
    with ((a ^ Z.of_nat n - 1) * x + c * geom a n) by ring.
  rewrite <- geom_closed. ring.
Qed.

Lemma displacement_odd x : Z.odd ((a - 1) * x + c) = true.
Proof.
  pose proof Hp as (_ & Ha & Hc).
  rewrite Z.odd_add, Z.odd_mul, Z.odd_sub, (multiplier_odd a Ha), Hc. done.
Qed.

(** The sequence is back at its seed exactly after a multiple of [m]
    steps. *)
Lemma returns_iff n x :
  lcg_nth m a c n x mod m = x mod m <-> (m | Z.of_nat n).
Proof.
  rewrite lcg_nth_mod_closed.
  assert (affine_pow a c n x mod m = x mod m <-> (m | affine_pow a c n x - x)) as ->.
  { rewrite Z.cong_iff_ex. reflexivity. }
  rewrite displacement. pose proof Hp as (Hm & Ha & Hc).
  rewrite Hm, pow2_divide_mul_odd by apply displacement_odd.
  by apply geom_pow2_divide.
Qed.

(** Two states of the sequence are equal exactly when their indices differ
    by a multiple of [m]. *)
Lemma states_equal_iff i j x :
  (i <= j)%nat ->
  lcg_nth m a c (S i) x = lcg_nth m a c (S j) x <-> (m | Z.of_nat (j - i)).
Proof.
  intros Hij. rewrite <- (returns_iff (j - i) x).
  replace (S j) with (S i + (j - i))%nat by lia. rewrite lcg_nth_add.
  split.
  - intros H. symmetry. apply (lcg_nth_inj_mod m a c (S i)); [apply params_coprime|].
    by rewrite H.
  - intros H. symmetry. by apply lcg_nth_congr.
Qed.

(** Up to [m] values of the sequence are pairwise distinct. *)
Lemma lcg_list_NoDup n x : Z.of_nat n <= m -> NoDup (lcg_list m a c n x).
Proof.
  intros Hn. apply NoDup_alt. intros i j y Hi Hj.
  assert (i < n /\ j < n)%nat as [Hin Hjn].
  { apply lookup_lt_Some in Hi, Hj. by rewrite lcg_list_length in Hi, Hj. }
  rewrite lcg_list_lookup in Hi, Hj by done. rewrite <- Hj in Hi. injection Hi as Hi.
  destruct (Nat.le_ge_cases i j) as [Hle|Hle];
    [|symmetry in Hi]; apply states_equal_iff in Hi; try lia;
    apply small_multiple in Hi; lia.
Qed.

(** The first [m] values are all the remainders: every [t] of [[0, m)] is
    among them. *)
Lemma lcg_list_covers x t :
  0 <= t < m -> t ∈ lcg_list m a c (Z.to_nat m) x.
Proof.
  intros Ht. pose proof params_modulus_pos as Hm.
  assert (lcg_list m a c (Z.to_nat m) x ≡ₚ seqZ 0 m) as ->.
  { apply submseteq_length_Permutation.
    - apply NoDup_submseteq; [apply lcg_list_NoDup; lia|].
      intros y Hy. apply elem_of_seqZ.
      pose proof (lcg_list_range m a c (Z.to_nat m) x Hm) as Hr.
      rewrite Forall_forall in Hr. specialize (Hr y Hy). lia.
    - rewrite length_seqZ, lcg_list_length. lia. }
  apply elem_of_seqZ. lia.
Qed.

End Return.

(** ** The enumeration test *)

Section Test.
Context (k : nat) (m a c : Z) (Hp : full_period_params k m a c).

(** The enumeration of [first_repeat] sees all [m] remainders before the
    first repetition, and the cycle has length [m]. *)
Lemma first_repeat_full x :
  first_repeat m a c (S (Z.to_nat m)) [] x = Some (Z.to_nat m, Z.to_nat m).
Proof.
  pose proof (params_modulus_pos k m a c Hp) as Hm.
  destruct (first_repeat_total m a c x Hm) as [[mu lam] E]. rewrite E.
  destruct (first_repeat_sound m a c _ x 0 mu lam E) as (_ & Hlam & Heq).
  pose proof (first_repeat_first m a c _ x 0 mu lam NoDup_nil_2 E) as Hnd.
  apply seen_after_NoDup_bound in Hnd; [|done].
  symmetry in Heq. replace (S mu - lam)%nat with (S (mu - lam)) in Heq by lia.
  apply (states_equal_iff k m a c Hp) in Heq; [|lia].
  replace (mu - (mu - lam))%nat with lam in Heq by lia.
  apply Z.divide_pos_le in Heq; [|lia].
  do 2 f_equal; lia.
Qed.

End Test.

(** ** The printed lines *)

Section FullLines.
Context {G : Type} {HG : LcgHandle G}.
Context (k : nat) (g : G) (st : lcg_state).
Context (Hv : handle_view g = Some st).
Context (Hp : full_period_params k (st_m st) (st_a st) (st_c st)).

Lemma handle_modulus_nonzero : st_m st <> 0.
Proof. pose proof (params_modulus_pos k _ _ _ Hp). lia. Qed.

(** Lines [i] and [j] are equal exactly when [m] divides [j - i]. *)
Lemma handle_lines_equal_iff (n i j : nat) :
  (i <= j < n)%nat ->
  (for_range n (handle_exec Pull) g).1 !! i = (for_range n (handle_exec Pull) g).1 !! j
  <-> (st_m st | Z.of_nat (j - i)).
Proof.
  intros Hij.
  rewrite !(handle_for_range_lookup n _ g st) by (done || lia || apply handle_modulus_nonzero).
  rewrite <- (states_equal_iff k _ _ _ Hp i j (st_x st)) by lia.
  split; [by intros [= ->]|by intros ->].
Qed.

(** Up to [m] lines are pairwise distinct. *)
Lemma handle_lines_NoDup (n : nat) :
  Z.of_nat n <= st_m st -> NoDup (for_range n (handle_exec Pull) g).1.
Proof.
  intros Hn.
  destruct (handle_for_range n g st Hv handle_modulus_nonzero) as (g' & -> & _).
  apply (NoDup_fmap_2 Ok). by apply (lcg_list_NoDup k).
Qed.

End FullLines.

(** ** Properties *)

(** C27: the full period.  For a modulus [2^k], a multiplier congruent to
    1 modulo 4 and an odd increment, two lines printed by successive calls
    of [next] on an [Aleat] object are equal exactly when their positions
    differ by a multiple of [m]: the sequence has period [m], and no
    shorter one, from whatever seed. *)
Theorem aleat_full_period (k : nat) (self : Aleat.t) (n i j : nat) :
  full_period_params k (Aleat.m self) (Aleat.a self) (Aleat.c self) ->
  (i <= j < n)%nat ->
  (for_range n Aleat.__next__ self).1 !! i = (for_range n Aleat.__next__ self).1 !! j
  <-> (Aleat.m self | Z.of_nat (j - i)).
Proof.
  intros Hp Hij.
  by apply (handle_lines_equal_iff (HG:=aleat_handle) k self (Aleat.view self)).
Qed.

Lemma aleat_full_period_witness :
  (for_range 40 Aleat.__next__ (Aleat.mk 32 9 13 11)).1 !! 3%nat
  = (for_range 40 Aleat.__next__ (Aleat.mk 32 9 13 11)).1 !! 35%nat
  <-> (32 | Z.of_nat (35 - 3)).
Proof.
  apply (aleat_full_period 5 (Aleat.mk 32 9 13 11) 40 3 35); [|lia].
  repeat split.
Defined.

(** C28: the default parameters of the program, [m = 2^48],
    [a = 25214903917] and [c = 11], give the full period: from any seed,
    the first [n <= 2^48] values that a generator made with the defaults
    yields are pairwise distinct. *)
Theorem default_values_distinct (x0 : option Z) (n : nat) :
  Z.of_nat n <= 2 ^ 48 ->
  NoDup (for_range n Gen.next (Gen.aleat (Kwargs None None None x0))).1.
Proof.
  intros Hn.
  apply (handle_lines_NoDup (HG:=gen_handle) 48 _
           (LcgState default_m default_a default_c (default default_x0 x0)));
    [done| |done].
  repeat split.
Qed.

Lemma default_values_distinct_witness :
  NoDup (for_range 3 Gen.next (Gen.aleat (Kwargs None None None (Some 7)))).1.
Proof. apply (default_values_distinct (Some 7) 3). lia. Defined.

(** With the default parameters the values come back: line
    [i + 2^48] of a generator made with the defaults is line [i], and no
    line between the two equals line [i]. *)
Theorem default_period (x0 : option Z) (n i j : nat) :
  (i < j < n)%nat ->
  (for_range n Gen.next (Gen.aleat (Kwargs None None None x0))).1 !! i
  = (for_range n Gen.next (Gen.aleat (Kwargs None None None x0))).1 !! j
  <-> (2 ^ 48 | Z.of_nat (j - i)).
Proof.
  intros Hij.
  apply (handle_lines_equal_iff (HG:=gen_handle) 48 _
           (LcgState default_m default_a default_c (default default_x0 x0)));
    [done| |lia].
  repeat split.
Qed.

Lemma default_period_witness :
  (for_range 3 Gen.next (Gen.aleat (Kwargs None None None None))).1 !! 0%nat
  = (for_range 3 Gen.next (Gen.aleat (Kwargs None None None None))).1 !! 2%nat
  <-> (2 ^ 48 | Z.of_nat (2 - 0)).
Proof. apply (default_period None 3 0 2). lia. Defined.

(** The enumeration test on the parameters of an [Aleat] object with
    a modulus [2^k], a multiplier congruent to 1 modulo 4 and an odd
    increment finds the cycle length [m]: the cycle is the whole set of
    remainders. *)
Theorem full_period_cycle_length (k : nat) (self : Aleat.t) :
  full_period_params k (Aleat.m self) (Aleat.a self) (Aleat.c self) ->
  cycle_length (Aleat.m self) (Aleat.a self) (Aleat.c self) (Aleat.x self)
  = Some (Z.to_nat (Aleat.m self)).
Proof. intros Hp. unfold cycle_length. by rewrite (first_repeat_full k). Qed.

Lemma full_period_cycle_length_witness :
  cycle_length 32 9 13 11 = Some (Z.to_nat 32).
Proof. apply (full_period_cycle_length 5 (Aleat.mk 32 9 13 11)). repeat split. Defined.
