(* ===== verification/LowBits.v ===== *)
(** * LowBits: the low bits of the values (src/aleatorios.py, lines 56 and 99)

    [__next__] and [aleat] return the whole state [x], not its high bits.
    For a modulus [2^k] the [j] low bits of [(a * x + c) % m] depend on the
    [j] low bits of [x] only, so the low bits of the values are themselves
    the sequence of the recurrence modulo [2^j].  With a multiplier
    congruent to 1 modulo 4 and an odd increment, which is the case of the
    default parameters, that sequence has period [2^j]: the last bit of the
    values alternates, the last two bits repeat every four values, and so
    on.

    [low_bits] is the mask [v & (2^j - 1)].  The theorems reduce the low
    bits of the sequence modulo [m] to the sequence modulo [2^j] and take
    the period of the latter from [FullPeriod]. *)

From Stdlib Require Import ZArith Lia List Znumtheory.
From stdpp Require Import prelude.
From S2P Require Import Prelude Engine Stream Iterator Generator Period FullPeriod.

#[local] Open Scope Z_scope.

(** ** Definitions *)

(** The [j] low bits of a value: [v & ((1 << j) - 1)]. *)
Definition low_bits (j : nat) (v : Z) : Z := Z.land v (Z.ones (Z.of_nat j)).

(** ** The sequence modulo a divisor of the modulus *)

Lemma low_bits_mod j v : low_bits j v = v mod 2 ^ Z.of_nat j.
Proof. unfold low_bits. apply Z.land_ones. lia. Qed.

Section Projection.
Context (d m a c : Z) (Hd : (d | m)).

(** A step modulo [m], reduced modulo [d], is the step modulo [d]. *)
Lemma lcg_step_proj x : lcg_step m a c x mod d = lcg_step d a c x.
Proof. unfold lcg_step. by apply Z.mod_mod_divide. Qed.

Lemma lcg_nth_proj n x : lcg_nth m a c n x mod d = lcg_nth d a c n x mod d.
Proof.
  induction n as [|n IH]; [done|].
  rewrite !lcg_nth_S, lcg_step_proj, lcg_step_idem. by apply lcg_step_congr.
Qed.

End Projection.

(** ** The period of the low bits *)

Section Low.
Context (k j : nat) (m a c : Z).
Context (Hp : full_period_params k m a c) (Hj : (j <= k)%nat).

Lemma params_low : full_period_params j (2 ^ Z.of_nat j) a c.
Proof. pose proof Hp as (_ & Ha & Hc). done. Qed.

Lemma low_divides : (2 ^ Z.of_nat j | m).
Proof.
  pose proof Hp as (Hm & _). rewrite Hm. exists (2 ^ (Z.of_nat k - Z.of_nat j)).
  rewrite <- Z.pow_add_r by lia. f_equal. lia.
Qed.

(** Two values agree on their [j] low bits exactly when their positions
    differ by a multiple of [2^j]. *)
Lemma low_bits_equal_iff (i i' : nat) x :
  (i <= i')%nat ->
  low_bits j (lcg_nth m a c (S i) x) = low_bits j (lcg_nth m a c (S i') x)
  <-> (2 ^ Z.of_nat j | Z.of_nat (i' - i)).
Proof.
  intros Hi. rewrite !low_bits_mod, !(lcg_nth_proj _ _ _ _ low_divides).
  rewrite !lcg_nth_S, !lcg_step_idem, <- !lcg_nth_S.
  by apply (states_equal_iff j _ _ _ params_low).
Qed.

End Low.

(** The last bit alternates. *)
Lemma low_bit_alternates (k : nat) (m a c x : Z) :
  full_period_params k m a c ->
  (0 < k)%nat -> Z.odd (lcg_step m a c x) = negb (Z.odd x).
Proof.
  intros Hp Hk. pose proof Hp as (Hm & Ha & Hc). unfold lcg_step.
  rewrite (Z.mod_eq _ m) by (pose proof (params_modulus_pos _ _ _ _ Hp); lia).
  rewrite Z.odd_sub, Z.odd_mul, Z.odd_add, Z.odd_mul, (multiplier_odd a Ha), Hc, Hm.
  rewrite Z.odd_pow by lia. cbn. by destruct (Z.odd x).
Qed.

(** ** The printed lines *)

Section LowLines.
Context {G : Type} {HG : LcgHandle G}.
Context (k j : nat) (g : G) (st : lcg_state).
Context (Hv : handle_view g = Some st).
Context (Hp : full_period_params k (st_m st) (st_a st) (st_c st)) (Hj : (j <= k)%nat).

(** Lines [i] and [i'] agree on their [j] low bits exactly when [2^j]
    divides [i' - i]. *)
Lemma handle_low_bits_iff (n i i' : nat) v v' :
  (i <= i' < n)%nat ->
  (for_range n (handle_exec Pull) g).1 !! i = Some (Ok v) ->
  (for_range n (handle_exec Pull) g).1 !! i' = Some (Ok v') ->
  low_bits j v = low_bits j v' <-> (2 ^ Z.of_nat j | Z.of_nat (i' - i)).
Proof.
  intros Hi. pose proof (handle_modulus_nonzero k st Hp) as Hm.
  rewrite !(handle_for_range_lookup n _ g st) by (done || lia).
  intros [= <-] [= <-]. apply (low_bits_equal_iff k); (done || lia).
Qed.

End LowLines.

(** ** Properties *)

(** C18: the low bits have a short period.  For a modulus [2^k], a
    multiplier congruent to 1 modulo 4 and an odd increment, two values
    returned by successive calls of [next] on an [Aleat] object agree on
    their [j] low bits, [j <= k], exactly when their positions differ by a
    multiple of [2^j]: the last bit of the values alternates and the last
    [j] bits repeat every [2^j] values, whatever the seed. *)
Theorem low_bits_short_period (k j : nat) (self : Aleat.t) (n i i' : nat) (v v' : Z) :
  full_period_params k (Aleat.m self) (Aleat.a self) (Aleat.c self) ->
  (j <= k)%nat -> (i <= i' < n)%nat ->
  (for_range n Aleat.__next__ self).1 !! i = Some (Ok v) ->
  (for_range n Aleat.__next__ self).1 !! i' = Some (Ok v') ->
  low_bits j v = low_bits j v' <-> (2 ^ Z.of_nat j | Z.of_nat (i' - i)).
Proof.
  intros Hp Hj Hi.
  by apply (handle_low_bits_iff (HG:=aleat_handle) k j self (Aleat.view self)).
Qed.

Lemma low_bits_short_period_witness :
  low_bits 2 29 = low_bits 2 1 <-> (2 ^ Z.of_nat 2 | Z.of_nat (5 - 1)).
Proof.
  by apply (low_bits_short_period 5 2 (Aleat.mk 32 9 13 11) 8 1 5 29 1);
    [repeat split|lia|lia|..].
Defined.

(** The last bit is the parity. *)
Lemma low_bits_1_odd (v : Z) : low_bits 1 v = Z.b2z (Z.odd v).
Proof. rewrite low_bits_mod. change (2 ^ Z.of_nat 1) with 2. rewrite Zmod_odd. by destruct (Z.odd v). Qed.

(** C39: with the default parameters, [m = 2^48], [a = 25214903917] and
    [c = 11], the values that a generator yields are alternately even and
    odd: after a value [x], or after a seed [x] sent to it, the last bit
    of the next value is the other one. *)
Theorem default_parity_alternates (x : Z) (v : option Z) :
  exists y,
    Gen.send v (Gen.GSuspended default_m default_a default_c x)
    = (Ok y, Gen.GSuspended default_m default_a default_c y)
    /\ low_bits 1 y = 1 - low_bits 1 (Gen.reseed v x).
Proof.
  eexists. split; [by apply Gen.send_suspended|].
  rewrite !low_bits_1_odd, (low_bit_alternates 48) by (repeat split || lia).
  by destruct (Z.odd _).
Qed.
