(* ===== verification/Loop.v ===== *)
(** * Loop: the iteration protocol (src/aleatorios.py, lines 52-57)

    [__iter__] and [__next__] make an [Aleat] object usable in
    [for v in rand: ...].  The statement calls [iter(rand)] once, then
    [next] on the result before each turn; [StopIteration] ends the loop
    and any other exception leaves it.  [for_in] is that loop on the heap of
    [Store], with a body that tests the value and breaks,
    [if p(v): break].  A loop has no bound of its own, so [for_in] takes
    fuel: [None] means that the loop is still running when the fuel is
    spent.  The theorems show that the loop without [break] never ends,
    because [__next__] never raises [StopIteration], and that with the
    parameters of a full period the search for any value of [[0, m)] ends
    within [m] turns. *)

From Stdlib Require Import ZArith Lia List.
From stdpp Require Import prelude gmap.
From S2P Require Import Prelude Engine Stream Iterator Store Period FullPeriod.

#[local] Open Scope Z_scope.

Module Loop.

(** ** The loop *)

(** How a loop ends: by [break] at a value, or because the iterator is
    exhausted. *)
Inductive loop_end : Set :=
| Broke (v : Z)
| Exhausted.

(** The turns of the loop on the iterator [it]: [v = next(it)], then
    [if p(v): break]. *)
Fixpoint turns (fuel : nat) (p : Z -> bool) (it : Store.loc) : Store.hp loop_end :=
  fun h =>
    match fuel with
    | O => None
    | S fuel' =>
        match Store.next it h with
        | None => None
        | Some (Ok v, h') => if p v then Some (Ok (Broke v), h') else turns fuel' p it h'
        | Some (Raise StopIteration, h') => Some (Ok Exhausted, h')
        | Some (Raise e, h') => Some (Raise e, h')
        end
    end.

(** [for v in rand: if p(v): break]. *)
Definition for_in (fuel : nat) (p : Z -> bool) (rand : Store.loc) : Store.hp loop_end :=
  Store.hbind (Store.iter rand) (turns fuel p).

(** ** The turns and the sequence *)

Section Turns.
Context (p : Z -> bool) (l : Store.loc).
Implicit Types (h : Store.heap) (s : Aleat.t).

(** The loop breaks at the first value of the sequence that satisfies
    [p], and is still running when none of the first [fuel] values does. *)
Lemma turns_find fuel h s :
  h !! l = Some s -> Aleat.m s <> 0 ->
  turns fuel p l h
  = match list_find (fun v => p v = true)
            (lcg_list (Aleat.m s) (Aleat.a s) (Aleat.c s) fuel (Aleat.x s)) with
    | Some (_, v) => Some (Ok (Broke v), <[l := Aleat.set_x v s]> h)
    | None => None
    end.
Proof.
  revert h s. induction fuel as [|fuel IH]; intros h s Hl Hm; [done|].
  cbn [turns lcg_list list_find]. rewrite (Store.next_Some l h s Hl Hm).
  destruct (p (lcg_step _ _ _ _)) eqn:Hp.
  - by rewrite decide_True.
  - rewrite decide_False by done.
    rewrite (IH _ (Aleat.set_x (lcg_step (Aleat.m s) (Aleat.a s) (Aleat.c s) (Aleat.x s)) s));
      [|by rewrite lookup_insert_eq|done].
    cbn [Aleat.m Aleat.a Aleat.c Aleat.x Aleat.set_x].
    destruct (list_find _ _) as [[i v]|]; cbn; [|done].
    by rewrite insert_insert_eq.
Qed.

Lemma for_in_turns fuel h s :
  h !! l = Some s -> for_in fuel p l h = turns fuel p l h.
Proof. intros Hl. unfold for_in, Store.hbind. by rewrite (Store.iter_Some l h s Hl). Qed.

(** With a zero modulus the first turn raises. *)
Lemma turns_zero_modulus fuel h s :
  h !! l = Some s -> Aleat.m s = 0 ->
  turns (S fuel) p l h = Some (Raise ZeroDivisionError, h).
Proof. intros Hl Hm. cbn [turns]. by rewrite (Store.next_raises_heap l h s Hl Hm). Qed.

(** The loop ends only by [break]: when it has ended, it broke at a value
    that satisfies [p]; when it is still running, none of the values seen
    satisfies [p]. *)
Lemma turns_cases fuel h s :
  h !! l = Some s -> Aleat.m s <> 0 ->
  match turns fuel p l h with
  | Some (r, _) => exists v, r = Ok (Broke v) /\ p v = true
  | None => Forall (fun v => p v = false)
              (lcg_list (Aleat.m s) (Aleat.a s) (Aleat.c s) fuel (Aleat.x s))
  end.
Proof.
  intros Hl Hm. rewrite (turns_find fuel h s Hl Hm).
  destruct (list_find _ _) as [[i v]|] eqn:E.
  - apply list_find_Some in E as (_ & Hp & _). by exists v.
  - apply list_find_None in E. eapply Forall_impl; [exact E|].
    intros v Hv. by apply not_true_is_false.
Qed.

End Turns.

(** With a full period, the search for [t] breaks at [t] once the fuel
    covers [m] turns. *)
Lemma turns_search k l (h : Store.heap) s t fuel :
  h !! l = Some s ->
  full_period_params k (Aleat.m s) (Aleat.a s) (Aleat.c s) ->
  0 <= t < Aleat.m s -> (Z.to_nat (Aleat.m s) <= fuel)%nat ->
  turns fuel (Z.eqb t) l h = Some (Ok (Broke t), <[l := Aleat.set_x t s]> h).
Proof.
  intros Hl Hp Ht Hf.
  pose proof (params_modulus_pos k _ _ _ Hp) as Hm.
  rewrite (turns_find _ l fuel h s Hl) by lia.
  assert (t ∈ lcg_list (Aleat.m s) (Aleat.a s) (Aleat.c s) fuel (Aleat.x s)) as Hin.
  { replace fuel with (Z.to_nat (Aleat.m s) + (fuel - Z.to_nat (Aleat.m s)))%nat by lia.
    rewrite lcg_list_app. apply elem_of_app. left. by apply (lcg_list_covers k). }
  destruct (list_find_elem_of (fun v => (t =? v) = true) _ t Hin (Z.eqb_refl t))
    as [[i v] E].
  rewrite E. apply list_find_Some in E as (_ & ->%Z.eqb_eq & _). done.
Qed.

End Loop.

(** ** Properties *)

(** C35: every value is reached.  With a modulus [2^k], a multiplier
    congruent to 1 modulo 4 and an odd increment, the loop
    [for v in rand: if v == t: break] ends for every [t] of [[0, m)],
    within [m] turns, and leaves the object [rand] itself at [t]. *)
Theorem search_terminates (k : nat) (h : gmap positive Aleat.t) (rand : positive)
    (s : Aleat.t) (t : Z) (fuel : nat) :
  h !! rand = Some s ->
  full_period_params k (Aleat.m s) (Aleat.a s) (Aleat.c s) ->
  0 <= t < Aleat.m s -> (Z.to_nat (Aleat.m s) <= fuel)%nat ->
  Loop.for_in fuel (Z.eqb t) rand h
  = Some (Ok (Loop.Broke t), <[rand := Aleat.set_x t s]> h).
Proof.
  intros Hl Hp Ht Hf. rewrite (Loop.for_in_turns _ rand fuel h s Hl).
  by apply (Loop.turns_search k).
Qed.

Lemma search_terminates_witness :
  Loop.for_in 40 (Z.eqb 20) 1%positive {[ 1%positive := Aleat.mk 32 9 13 11 ]}
  = Some (Ok (Loop.Broke 20),
          <[1%positive := Aleat.set_x 20 (Aleat.mk 32 9 13 11)]>
            {[ 1%positive := Aleat.mk 32 9 13 11 ]}).
Proof.
  apply (search_terminates 5 {[ 1%positive := Aleat.mk 32 9 13 11 ]} 1%positive
           (Aleat.mk 32 9 13 11) 20 40).
  - reflexivity.
  - repeat split.
  - cbn; lia.
  - cbn; lia.
Defined.

(** C36: the iterator is never exhausted.  With a non-zero modulus
    [__next__] never raises [StopIteration]: a loop over an [Aleat] object
    ends only by [break], at a value that satisfies the test, and the loop
    without [break] is still running after any number of turns.  With a
    zero modulus the first turn raises [ZeroDivisionError]. *)
Theorem for_never_exhausts (h : gmap positive Aleat.t) (rand : positive) (s : Aleat.t)
    (p : Z -> bool) (fuel : nat) :
  h !! rand = Some s ->
  (Aleat.m s <> 0 ->
     Loop.for_in fuel (fun _ => false) rand h = None
     /\ forall r h', Loop.for_in fuel p rand h = Some (r, h') ->
          exists v, r = Ok (Loop.Broke v) /\ p v = true)
  /\ (Aleat.m s = 0 ->
        Loop.for_in (S fuel) p rand h = Some (Raise ZeroDivisionError, h)).
Proof.
  intros Hl. rewrite !(Loop.for_in_turns _ rand _ h s Hl). split.
  - intros Hm. split.
    + pose proof (Loop.turns_cases (fun _ => false) rand fuel h s Hl Hm) as H.
      destruct (Loop.turns _ _ _ _) as [[r h']|]; [|done]. by destruct H as (v & _ & ?).
    + intros r h' E.
      pose proof (Loop.turns_cases p rand fuel h s Hl Hm) as H. by rewrite E in H.
  - intros Hm. by apply (Loop.turns_zero_modulus p rand fuel h s).
Qed.

Lemma for_never_exhausts_witness :
  (Aleat.m (Aleat.mk 32 9 13 11) <> 0 ->
     Loop.for_in 100 (fun _ => false) 1%positive {[ 1%positive := Aleat.mk 32 9 13 11 ]} = None
     /\ forall r h',
          Loop.for_in 100 (Z.eqb 20) 1%positive {[ 1%positive := Aleat.mk 32 9 13 11 ]}
          = Some (r, h') ->
          exists v, r = Ok (Loop.Broke v) /\ (20 =? v) = true)
  /\ (Aleat.m (Aleat.mk 32 9 13 11) = 0 ->
        Loop.for_in (S 100) (Z.eqb 20) 1%positive {[ 1%positive := Aleat.mk 32 9 13 11 ]}
        = Some (Raise ZeroDivisionError, {[ 1%positive := Aleat.mk 32 9 13 11 ]})).
Proof.
  apply (for_never_exhausts {[ 1%positive := Aleat.mk 32 9 13 11 ]} 1%positive
           (Aleat.mk 32 9 13 11) (Z.eqb 20) 100).
  reflexivity.
Defined.
