(* ===== verification/Doctest.v ===== *)
(** * Doctest: the docstring sessions and their runner
    (src/aleatorios.py, lines 27-43, 78-95 and 104-106)

    The docstrings of class [Aleat] and of [aleat] each hold an interpreter
    session, which the block of lines 104-106 runs through
    [doctest.testmod].  [examples_Aleat] and [examples_aleat] are the two
    sessions as they stand in the source: each example is a statement and
    the lines expected after it.

    The rest of the file is a model of what runs them, which is not code of
    the program: [exec] runs a statement of the five forms the sessions
    use on the globals, where the only name is [rand]; [print] writes the
    decimal form of an integer, [repr_int]; [testmod] runs the examples of
    every docstring on fresh globals and counts those that raise or print
    other lines; [main] is the call of line 106.

    [session_Aleat] and [session_aleat] are the two sessions with their
    parameters, loop lengths and seed left open and the values of the
    recurrence as expected lines.  The theorem shows that these pass for
    every choice, so that what the docstrings document holds beyond the
    numbers they show; the sessions of the source are the instances
    [m = 32, ...] and [m = 64, ...]. *)

From Stdlib Require Import ZArith Lia List String DecimalString.
From stdpp Require Import prelude strings.
From S2P Require Import Prelude Engine Stream Iterator Generator Equiv.

#[local] Open Scope Z_scope.
#[local] Open Scope py_scope.

(** ** Printing *)

(** [str(z)] for an integer: decimal digits, a minus sign when negative. *)
Definition repr_int (z : Z) : string := NilZero.string_of_int (Z.to_int z).

(** The lines that [print(v)] writes for each [v] of a list. *)
Definition print_lines (vs : list Z) : list string := repr_int <$> vs.

(** ** The globals of a session *)

(** What the name [rand] is bound to: an [Aleat] object or a generator. *)
Inductive obj : Set :=
| OAleat (s : Aleat.t)
| OGen (g : Gen.gstate).

(** The globals: [rand], unbound at the start of a docstring. *)
Definition globals : Set := option obj.

(** [next(rand)]. *)
Definition next_obj : py obj Z :=
  fun o =>
    match o with
    | OAleat s => let '(r, s') := Aleat.__next__ s in (r, OAleat s')
    | OGen g => let '(r, g') := Gen.next g in (r, OGen g')
    end.

(** ** The statements of the sessions *)

Inductive stmt : Set :=
| Assign_Aleat (kw : kwargs)     (* rand = Aleat(...) *)
| Assign_aleat (kw : kwargs)     (* rand = aleat(...) *)
| For_print_next (n : nat)       (* for _ in range(n): print(next(rand)) *)
| Expr_call (x0 : Z)             (* rand(x0) *)
| Expr_send (v : Z).             (* rand.send(v) *)

(** The exception that ended a list of outcomes, if one did. *)
Definition raised {A} (rs : list (result A)) : option exn :=
  match last rs with
  | Some (Raise e) => Some e
  | _ => None
  end.

(** What a statement prints, the exception it raises, and the globals it
    leaves.  An expression statement prints its value unless it is
    [None]. *)
Definition exec (c : stmt) (g : globals) : list string * option exn * globals :=
  match c, g with
  | Assign_Aleat kw, _ => ([], None, Some (OAleat (Aleat.__init__ kw)))
  | Assign_aleat kw, _ => ([], None, Some (OGen (Gen.aleat kw)))
  | _, None => ([], Some NameError, None)
  | For_print_next n, Some o =>
      let '(rs, o') := for_range n next_obj o in
      (print_lines (oks rs), raised rs, Some o')
  | Expr_call x0, Some (OAleat s) =>
      let '(_, s') := Aleat.__call__ x0 s in ([], None, Some (OAleat s'))
  | Expr_call _, Some (OGen _) => ([], Some TypeError, g)
  | Expr_send v, Some (OGen s) =>
      match Gen.send (Some v) s with
      | (Ok y, s') => ([repr_int y], None, Some (OGen s'))
      | (Raise e, s') => ([], Some e, Some (OGen s'))
      end
  | Expr_send _, Some (OAleat _) => ([], Some AttributeError, g)
  end.

(** ** The runner *)

(** An example: a statement and the lines expected after it. *)
Definition example : Set := stmt * list string.

(** An example passes when it raises nothing and prints the expected
    lines. *)
Definition passes (out : list string * option exn) (want : list string) : bool :=
  bool_decide (out.2 = None) && bool_decide (out.1 = want).

(** One example: whether it passed, and the globals for the next one. *)
Definition run_example (e : example) (g : globals) : bool * globals :=
  let '(out, x, g') := exec e.1 g in (passes (out, x) e.2, g').

(** The examples of one docstring, in order, on the same globals: the
    numbers of failed and attempted examples. *)
Fixpoint run_test (es : list example) (g : globals) : nat * nat :=
  match es with
  | [] => (O, O)
  | e :: es' =>
      let '(ok, g') := run_example e g in
      let '(failed, attempted) := run_test es' g' in
      ((if ok then O else 1%nat) + failed, S attempted)%nat
  end.

(** [doctest.testmod]: every docstring with fresh globals; the totals. *)
Definition testmod (tests : list (list example)) : nat * nat :=
  foldr (fun es '(f, a) => let '(f', a') := run_test es None in ((f' + f)%nat, (a' + a)%nat))
        (O, O) tests.

(** The examples of the docstring of class [Aleat], lines 27-43. *)
Definition examples_Aleat : list example :=
  [ (Assign_Aleat (kw_all 32 9 13 11), []);
    (For_print_next 4, ["16"; "29"; "18"; "15"]);
    (Expr_call 29, []);
    (For_print_next 4, ["18"; "15"; "20"; "1"]) ]%string.

(** The examples of the docstring of [aleat], lines 78-95. *)
Definition examples_aleat : list example :=
  [ (Assign_aleat (kw_all 64 5 46 36), []);
    (For_print_next 4, ["34"; "24"; "38"; "44"]);
    (Expr_send 24, ["38"]);
    (For_print_next 4, ["44"; "10"; "32"; "14"]) ]%string.

(** The docstrings of the module: its own (lines 1-11, no example), the one
    of [Aleat] and the one of [aleat]; the methods have none. *)
Definition module_tests : list (list example) := [[]; examples_Aleat; examples_aleat].

(** [doctest.testmod(verbose=True)] of line 106. *)
Definition main : nat * nat := testmod module_tests.

(** The session of the docstring of [Aleat] for any keyword arguments,
    loop lengths [n] and [k] and seed: the lines expected of the loops are
    the values of the recurrence, from [x0] and then from the seed. *)
Definition session_Aleat (kw : kwargs) (n : nat) (seed : Z) (k : nat) : list example :=
  let s := Aleat.__init__ kw in
  [ (Assign_Aleat kw, []);
    (For_print_next n,
     print_lines (lcg_list (Aleat.m s) (Aleat.a s) (Aleat.c s) n (Aleat.x s)));
    (Expr_call seed, []);
    (For_print_next k, print_lines (lcg_list (Aleat.m s) (Aleat.a s) (Aleat.c s) k seed)) ].

(** The session of the docstring of [aleat]: [send] prints the first value
    after the seed and the loop goes on from it. *)
Definition session_aleat (kw : kwargs) (n : nat) (seed : Z) (k : nat) : list example :=
  let s := Aleat.__init__ kw in
  let y := lcg_step (Aleat.m s) (Aleat.a s) (Aleat.c s) seed in
  [ (Assign_aleat kw, []);
    (For_print_next n,
     print_lines (lcg_list (Aleat.m s) (Aleat.a s) (Aleat.c s) n (Aleat.x s)));
    (Expr_send seed, [repr_int y]);
    (For_print_next k, print_lines (lcg_list (Aleat.m s) (Aleat.a s) (Aleat.c s) k y)) ].

(** ** Outcomes *)

Lemma raised_map_ok {A} (vs : list A) : raised (map Ok vs) = None.
Proof.
  unfold raised. induction vs as [|v [|w vs] IH]; [done..|]. exact IH.
Qed.

(** ** The loops of the sessions *)

Lemma loop_Aleat n s :
  Aleat.m s <> 0 ->
  for_range n next_obj (OAleat s)
  = (map Ok (lcg_list (Aleat.m s) (Aleat.a s) (Aleat.c s) n (Aleat.x s)),
     OAleat (Aleat.set_x (lcg_nth (Aleat.m s) (Aleat.a s) (Aleat.c s) n (Aleat.x s)) s)).
Proof.
  revert s. induction n as [|n IH]; intros s Hm; [by destruct s|].
  cbn [for_range next_obj]. rewrite Aleat.next_ok by done.
  rewrite IH by done. cbn [lcg_list map]. by rewrite lcg_nth_S_r.
Qed.

Lemma loop_suspended n m a c x :
  m <> 0 ->
  for_range n next_obj (OGen (Gen.GSuspended m a c x))
  = (map Ok (lcg_list m a c n x), OGen (Gen.GSuspended m a c (lcg_nth m a c n x))).
Proof.
  revert x. induction n as [|n IH]; intros x Hm; [done|].
  cbn [for_range next_obj]. unfold Gen.next. rewrite Gen.send_suspended by done.
  rewrite IH by done. cbn [lcg_list map Gen.reseed]. by rewrite lcg_nth_S_r.
Qed.

Lemma loop_created n m a c x0 :
  m <> 0 ->
  for_range (S n) next_obj (OGen (Gen.GCreated m a c x0))
  = (map Ok (lcg_list m a c (S n) x0),
     OGen (Gen.GSuspended m a c (lcg_nth m a c (S n) x0))).
Proof.
  intros Hm. cbn [for_range next_obj]. rewrite Gen.next_created by done.
  rewrite loop_suspended by done. cbn [lcg_list map]. by rewrite lcg_nth_S_r.
Qed.

(** A loop that prints the values it draws passes. *)
Lemma run_loop n o vs o' want :
  for_range n next_obj o = (map Ok vs, o') -> want = print_lines vs ->
  run_example (For_print_next n, want) (Some o) = (true, Some o').
Proof.
  intros Hr ->. unfold run_example, passes. cbn [exec fst snd]. rewrite Hr.
  cbn [fst snd]. by rewrite oks_map_ok, raised_map_ok, !bool_decide_true.
Qed.

(** An example that passes adds one to the examples attempted. *)
Lemma run_test_pass e es g g' f a :
  run_example e g = (true, g') -> run_test es g' = (f, a) ->
  run_test (e :: es) g = (f, S a).
Proof. intros He Hes. cbn [run_test]. by rewrite He, Hes. Qed.

(** ** The sessions *)

Lemma session_Aleat_passes kw n seed k :
  default default_m (kw_m kw) <> 0 ->
  run_test (session_Aleat kw n seed k) None = (0%nat, 4%nat).
Proof.
  intros Hm. unfold session_Aleat.
  eapply run_test_pass; [reflexivity|].
  eapply run_test_pass; [by eapply run_loop; [apply loop_Aleat|]|].
  eapply run_test_pass; [reflexivity|].
  eapply run_test_pass; [by eapply run_loop; [apply loop_Aleat|]|]. done.
Qed.

Lemma session_aleat_passes kw n seed k :
  default default_m (kw_m kw) <> 0 -> (0 < n)%nat ->
  run_test (session_aleat kw n seed k) None = (0%nat, 4%nat).
Proof.
  intros Hm Hn. destruct n as [|n]; [lia|]. unfold session_aleat.
  eapply run_test_pass; [reflexivity|].
  eapply run_test_pass; [by eapply run_loop; [apply loop_created|]|].
  eapply run_test_pass.
  { unfold run_example, passes. cbn [exec fst snd]. rewrite Gen.send_suspended by done.
    cbn [fst snd Gen.reseed]. by rewrite !bool_decide_true. }
  eapply run_test_pass; [by eapply run_loop; [apply loop_suspended|]|]. done.
Qed.

(** The sessions of the source are the sessions of the two docstrings'
    parameters. *)
Lemma examples_Aleat_session : examples_Aleat = session_Aleat (kw_all 32 9 13 11) 4 29 4.
Proof. reflexivity. Qed.

Lemma examples_aleat_session : examples_aleat = session_aleat (kw_all 64 5 46 36) 4 24 4.
Proof. reflexivity. Qed.

(** The run of lines 104-106 has no failure: eight examples are
    attempted. *)
Lemma testmod_passes : main = (0%nat, 8%nat).
Proof.
  unfold main, module_tests, testmod. cbn [foldr run_test].
  by rewrite examples_Aleat_session, examples_aleat_session,
    session_Aleat_passes, session_aleat_passes by (done || lia).
Qed.

(** ** Properties *)

(** C37: what the docstrings document holds for every choice of
    parameters.  The session of the docstring of [Aleat] (construct, print
    [n] values, [rand(seed)], print [k] values) and that of [aleat]
    (construct, print [n] values, [rand.send(seed)], print [k] values) pass
    when the lines expected of the loops are the values of the recurrence
    from [x0] and then from the seed; [rand(seed)] prints nothing and
    [rand.send(seed)] prints the first value after the seed.  On the
    generator the first loop must draw a value before a seed is sent. *)
Theorem sessions_pass (kw : kwargs) (n k : nat) (seed : Z) :
  default default_m (kw_m kw) <> 0 -> (0 < n)%nat ->
  run_test (session_Aleat kw n seed k) None = (0%nat, 4%nat)
  /\ run_test (session_aleat kw n seed k) None = (0%nat, 4%nat).
Proof. intros Hm Hn. split; [by apply session_Aleat_passes|by apply session_aleat_passes]. Qed.

Lemma sessions_pass_witness :
  run_test examples_Aleat None = (0%nat, 4%nat)
  /\ run_test (session_aleat (kw_all 32 9 13 11) 4 29 4) None = (0%nat, 4%nat).
Proof. apply (sessions_pass (kw_all 32 9 13 11) 4 4 29); [discriminate|lia]. Defined.
